(** * CCMS: the Case Store of [database.py]

    A shallow embedding of the persistence layer of the case-management
    application: the SQLite schema created by [init_db], the forward
    migration [migrate_db], and the CRUD and relationship operations over
    the ten tables.

    Conventions of the embedding.

    - A table is the list of its rows, an insert appending to it.  A scan
      of a table visits the rows in ascending rowid, whatever their place
      in the list.
    - An [INTEGER] is a [Z]; a [TEXT] is a [string], compared byte-wise
      (SQLite's BINARY collation); a nullable column is an [option];
      a [REAL] is only ever stored and tested for NULL, never computed on.
    - Every function of [database.py] opens a connection with
      [PRAGMA foreign_keys = ON], executes its statements, commits and
      closes.  When a statement raises, the connection is closed without
      a commit and the pending changes are rolled back: an operation is
      either [Ok] with the new store, or [Err] and the store is the one
      it started from.
    - [datetime('now')] is an input: operations that insert a row with a
      [created_at] default take the current time as their [now] argument. *)

From Stdlib Require Import ZArith List String Ascii Bool Lia.
From Stdlib Require Import Permutation Sorted.
Import ListNotations.
Open Scope string_scope.
Open Scope Z_scope.

Set Implicit Arguments.

(** ** Values and errors *)

(** A [REAL] column value: the bit pattern of the double it holds. *)
Inductive real := Real (bits : Z).

(** The exceptions of the [sqlite3] module the store can raise.  The message
    of an [IntegrityError] names the constraint kind, which is what the
    pages test for (["UNIQUE constraint" in str(e)]). *)
Inductive error :=
| UniqueViolation      (* IntegrityError: UNIQUE constraint failed *)
| CheckViolation       (* IntegrityError: CHECK constraint failed *)
| ForeignKeyViolation  (* IntegrityError: FOREIGN KEY constraint failed *)
| OperationalError.    (* no such table / no such column / duplicate column *)

Inductive result (A : Type) :=
| Ok (a : A)
| Err (e : error).
Arguments Ok {A} a.
Arguments Err {A} e.

Definition bind {A B} (r : result A) (k : A -> result B) : result B :=
  match r with
  | Ok a => k a
  | Err e => Err e
  end.

Notation "x <- c1 ;; c2" := (bind c1 (fun x => c2))
  (at level 61, c1 at next level, right associativity).

(** Python's [s or None] on a [str]: the empty string is falsy. *)
Definition or_None (s : string) : option string :=
  if (s =? "")%string then None else Some s.

(** Python's [int(b)] on a [bool]. *)
Definition int_of_bool (b : bool) : Z := if b then 1 else 0.

(** ** Rows of the ten tables *)

Module Case.
Record row := mk {
  id                  : Z;
  title               : string;
  crime_type          : string;
  date_occurred       : string;
  address             : option string;
  latitude            : option real;
  longitude           : option real;
  crime_scene_address : option string;
  crime_scene_lat     : option real;
  crime_scene_lon     : option real;
  body_found_address  : option string;
  body_found_lat      : option real;
  body_found_lon      : option real;
  is_murder           : Z;
  victim_count        : option Z;
  mo_description      : option string;
  victim_profile      : option string;
  status              : string;
  created_at          : string
}.

Definition set_title (v : string) (r : row) : row :=
  mk (id r) v (crime_type r) (date_occurred r) (address r) (latitude r)
    (longitude r) (crime_scene_address r) (crime_scene_lat r)
    (crime_scene_lon r) (body_found_address r) (body_found_lat r)
    (body_found_lon r) (is_murder r) (victim_count r) (mo_description r)
    (victim_profile r) (status r) (created_at r).

Definition set_crime_type (v : string) (r : row) : row :=
  mk (id r) (title r) v (date_occurred r) (address r) (latitude r)
    (longitude r) (crime_scene_address r) (crime_scene_lat r)
    (crime_scene_lon r) (body_found_address r) (body_found_lat r)
    (body_found_lon r) (is_murder r) (victim_count r) (mo_description r)
    (victim_profile r) (status r) (created_at r).

Definition set_date_occurred (v : string) (r : row) : row :=
  mk (id r) (title r) (crime_type r) v (address r) (latitude r) (longitude
    r) (crime_scene_address r) (crime_scene_lat r) (crime_scene_lon r)
    (body_found_address r) (body_found_lat r) (body_found_lon r) (is_murder
    r) (victim_count r) (mo_description r) (victim_profile r) (status r)
    (created_at r).

Definition set_address (v : option string) (r : row) : row :=
  mk (id r) (title r) (crime_type r) (date_occurred r) v (latitude r)
    (longitude r) (crime_scene_address r) (crime_scene_lat r)
    (crime_scene_lon r) (body_found_address r) (body_found_lat r)
    (body_found_lon r) (is_murder r) (victim_count r) (mo_description r)
    (victim_profile r) (status r) (created_at r).

Definition set_latitude (v : option real) (r : row) : row :=
  mk (id r) (title r) (crime_type r) (date_occurred r) (address r) v
    (longitude r) (crime_scene_address r) (crime_scene_lat r)
    (crime_scene_lon r) (body_found_address r) (body_found_lat r)
    (body_found_lon r) (is_murder r) (victim_count r) (mo_description r)
    (victim_profile r) (status r) (created_at r).

Definition set_longitude (v : option real) (r : row) : row :=
  mk (id r) (title r) (crime_type r) (date_occurred r) (address r) (latitude
    r) v (crime_scene_address r) (crime_scene_lat r) (crime_scene_lon r)
    (body_found_address r) (body_found_lat r) (body_found_lon r) (is_murder
    r) (victim_count r) (mo_description r) (victim_profile r) (status r)
    (created_at r).

Definition set_crime_scene_address (v : option string) (r : row) : row :=
  mk (id r) (title r) (crime_type r) (date_occurred r) (address r) (latitude
    r) (longitude r) v (crime_scene_lat r) (crime_scene_lon r)
    (body_found_address r) (body_found_lat r) (body_found_lon r) (is_murder
    r) (victim_count r) (mo_description r) (victim_profile r) (status r)
    (created_at r).

Definition set_crime_scene_lat (v : option real) (r : row) : row :=
  mk (id r) (title r) (crime_type r) (date_occurred r) (address r) (latitude
    r) (longitude r) (crime_scene_address r) v (crime_scene_lon r)
    (body_found_address r) (body_found_lat r) (body_found_lon r) (is_murder
    r) (victim_count r) (mo_description r) (victim_profile r) (status r)
    (created_at r).

Definition set_crime_scene_lon (v : option real) (r : row) : row :=
  mk (id r) (title r) (crime_type r) (date_occurred r) (address r) (latitude
    r) (longitude r) (crime_scene_address r) (crime_scene_lat r) v
    (body_found_address r) (body_found_lat r) (body_found_lon r) (is_murder
    r) (victim_count r) (mo_description r) (victim_profile r) (status r)
    (created_at r).

Definition set_body_found_address (v : option string) (r : row) : row :=
  mk (id r) (title r) (crime_type r) (date_occurred r) (address r) (latitude
    r) (longitude r) (crime_scene_address r) (crime_scene_lat r)
    (crime_scene_lon r) v (body_found_lat r) (body_found_lon r) (is_murder
    r) (victim_count r) (mo_description r) (victim_profile r) (status r)
    (created_at r).

Definition set_body_found_lat (v : option real) (r : row) : row :=
  mk (id r) (title r) (crime_type r) (date_occurred r) (address r) (latitude
    r) (longitude r) (crime_scene_address r) (crime_scene_lat r)
    (crime_scene_lon r) (body_found_address r) v (body_found_lon r)
    (is_murder r) (victim_count r) (mo_description r) (victim_profile r)
    (status r) (created_at r).

Definition set_body_found_lon (v : option real) (r : row) : row :=
  mk (id r) (title r) (crime_type r) (date_occurred r) (address r) (latitude
    r) (longitude r) (crime_scene_address r) (crime_scene_lat r)
    (crime_scene_lon r) (body_found_address r) (body_found_lat r) v
    (is_murder r) (victim_count r) (mo_description r) (victim_profile r)
    (status r) (created_at r).

Definition set_is_murder (v : Z) (r : row) : row :=
  mk (id r) (title r) (crime_type r) (date_occurred r) (address r) (latitude
    r) (longitude r) (crime_scene_address r) (crime_scene_lat r)
    (crime_scene_lon r) (body_found_address r) (body_found_lat r)
    (body_found_lon r) v (victim_count r) (mo_description r) (victim_profile
    r) (status r) (created_at r).

Definition set_victim_count (v : option Z) (r : row) : row :=
  mk (id r) (title r) (crime_type r) (date_occurred r) (address r) (latitude
    r) (longitude r) (crime_scene_address r) (crime_scene_lat r)
    (crime_scene_lon r) (body_found_address r) (body_found_lat r)
    (body_found_lon r) (is_murder r) v (mo_description r) (victim_profile r)
    (status r) (created_at r).

Definition set_mo_description (v : option string) (r : row) : row :=
  mk (id r) (title r) (crime_type r) (date_occurred r) (address r) (latitude
    r) (longitude r) (crime_scene_address r) (crime_scene_lat r)
    (crime_scene_lon r) (body_found_address r) (body_found_lat r)
    (body_found_lon r) (is_murder r) (victim_count r) v (victim_profile r)
    (status r) (created_at r).

Definition set_victim_profile (v : option string) (r : row) : row :=
  mk (id r) (title r) (crime_type r) (date_occurred r) (address r) (latitude
    r) (longitude r) (crime_scene_address r) (crime_scene_lat r)
    (crime_scene_lon r) (body_found_address r) (body_found_lat r)
    (body_found_lon r) (is_murder r) (victim_count r) (mo_description r) v
    (status r) (created_at r).

Definition set_status (v : string) (r : row) : row :=
  mk (id r) (title r) (crime_type r) (date_occurred r) (address r) (latitude
    r) (longitude r) (crime_scene_address r) (crime_scene_lat r)
    (crime_scene_lon r) (body_found_address r) (body_found_lat r)
    (body_found_lon r) (is_murder r) (victim_count r) (mo_description r)
    (victim_profile r) v (created_at r).

Definition set_created_at (v : string) (r : row) : row :=
  mk (id r) (title r) (crime_type r) (date_occurred r) (address r) (latitude
    r) (longitude r) (crime_scene_address r) (crime_scene_lat r)
    (crime_scene_lon r) (body_found_address r) (body_found_lat r)
    (body_found_lon r) (is_murder r) (victim_count r) (mo_description r)
    (victim_profile r) (status r) v.

(** One [column = ?] of an UPDATE's SET clause, with the value bound to it.
    The callers name data columns; the key column [id], which the store
    assigns, is not among the assignments modelled. *)
Inductive assignment :=
| title_eq (v : string)
| crime_type_eq (v : string)
| date_occurred_eq (v : string)
| address_eq (v : option string)
| latitude_eq (v : option real)
| longitude_eq (v : option real)
| crime_scene_address_eq (v : option string)
| crime_scene_lat_eq (v : option real)
| crime_scene_lon_eq (v : option real)
| body_found_address_eq (v : option string)
| body_found_lat_eq (v : option real)
| body_found_lon_eq (v : option real)
| is_murder_eq (v : Z)
| victim_count_eq (v : option Z)
| mo_description_eq (v : option string)
| victim_profile_eq (v : option string)
| status_eq (v : string)
| created_at_eq (v : string).

Definition assign (a : assignment) (r : row) : row :=
  match a with
  | title_eq v => set_title v r
  | crime_type_eq v => set_crime_type v r
  | date_occurred_eq v => set_date_occurred v r
  | address_eq v => set_address v r
  | latitude_eq v => set_latitude v r
  | longitude_eq v => set_longitude v r
  | crime_scene_address_eq v => set_crime_scene_address v r
  | crime_scene_lat_eq v => set_crime_scene_lat v r
  | crime_scene_lon_eq v => set_crime_scene_lon v r
  | body_found_address_eq v => set_body_found_address v r
  | body_found_lat_eq v => set_body_found_lat v r
  | body_found_lon_eq v => set_body_found_lon v r
  | is_murder_eq v => set_is_murder v r
  | victim_count_eq v => set_victim_count v r
  | mo_description_eq v => set_mo_description v r
  | victim_profile_eq v => set_victim_profile v r
  | status_eq v => set_status v r
  | created_at_eq v => set_created_at v r
  end.

(** [SET k1 = ?, k2 = ?, ...] applied to one row. *)
Definition update (fields : list assignment) (r : row) : row :=
  fold_left (fun r a => assign a r) fields r.
End Case.

Module CaseCrimeType.
Record row := mk {
  id         : Z;
  case_id    : Z;
  crime_type : string;
  sort_order : Z
}.
End CaseCrimeType.

Module CaseTag.
Record row := mk {
  id      : Z;
  case_id : Z;
  tag     : string
}.
End CaseTag.

Module Suspect.
Record row := mk {
  id            : Z;
  name          : string;
  description   : option string;
  known_aliases : option string;
  created_at    : string
}.

Definition set_name (v : string) (r : row) : row :=
  mk (id r) v (description r) (known_aliases r) (created_at r).

Definition set_description (v : option string) (r : row) : row :=
  mk (id r) (name r) v (known_aliases r) (created_at r).

Definition set_known_aliases (v : option string) (r : row) : row :=
  mk (id r) (name r) (description r) v (created_at r).

Definition set_created_at (v : string) (r : row) : row :=
  mk (id r) (name r) (description r) (known_aliases r) v.

(** One [column = ?] of an UPDATE's SET clause, with the value bound to it.
    The callers name data columns; the key column [id], which the store
    assigns, is not among the assignments modelled. *)
Inductive assignment :=
| name_eq (v : string)
| description_eq (v : option string)
| known_aliases_eq (v : option string)
| created_at_eq (v : string).

Definition assign (a : assignment) (r : row) : row :=
  match a with
  | name_eq v => set_name v r
  | description_eq v => set_description v r
  | known_aliases_eq v => set_known_aliases v r
  | created_at_eq v => set_created_at v r
  end.

(** [SET k1 = ?, k2 = ?, ...] applied to one row. *)
Definition update (fields : list assignment) (r : row) : row :=
  fold_left (fun r a => assign a r) fields r.
End Suspect.

Module CrimeHistory.
Record row := mk {
  id                : Z;
  suspect_id        : Z;
  crime_type        : string;
  date_of_crime     : option string;
  conviction_status : string;
  notes             : option string;
  created_at        : string
}.
End CrimeHistory.

Module SuspectCaseLink.
Record row := mk {
  id              : Z;
  suspect_id      : Z;
  case_id         : Z;
  connection_type : string;
  notes           : option string;
  created_at      : string
}.
End SuspectCaseLink.

Module CaseLink.
Record row := mk {
  id              : Z;
  case_id_1       : Z;
  case_id_2       : Z;
  similarity_note : string;
  created_at      : string
}.
End CaseLink.

Module TimelineEvent.
Record row := mk {
  id              : Z;
  case_id         : Z;
  event_timestamp : string;
  title           : string;
  description     : option string;
  created_at      : string
}.
End TimelineEvent.

Module Project.
Record row := mk {
  id          : Z;
  name        : string;
  description : option string;
  created_at  : string
}.

Definition set_name (v : string) (r : row) : row :=
  mk (id r) v (description r) (created_at r).

Definition set_description (v : option string) (r : row) : row :=
  mk (id r) (name r) v (created_at r).

Definition set_created_at (v : string) (r : row) : row :=
  mk (id r) (name r) (description r) v.

(** One [column = ?] of an UPDATE's SET clause, with the value bound to it.
    The callers name data columns; the key column [id], which the store
    assigns, is not among the assignments modelled. *)
Inductive assignment :=
| name_eq (v : string)
| description_eq (v : option string)
| created_at_eq (v : string).

Definition assign (a : assignment) (r : row) : row :=
  match a with
  | name_eq v => set_name v r
  | description_eq v => set_description v r
  | created_at_eq v => set_created_at v r
  end.

(** [SET k1 = ?, k2 = ?, ...] applied to one row. *)
Definition update (fields : list assignment) (r : row) : row :=
  fold_left (fun r a => assign a r) fields r.
End Project.

Module ProjectCase.
Record row := mk {
  id         : Z;
  project_id : Z;
  case_id    : Z;
  added_at   : string
}.
End ProjectCase.

(** ** The store *)

Record Store := mkStore {
  cases                 : list Case.row;
  case_crime_types      : list CaseCrimeType.row;
  case_tags             : list CaseTag.row;
  suspects              : list Suspect.row;
  suspect_crime_history : list CrimeHistory.row;
  suspect_case_links    : list SuspectCaseLink.row;
  case_links            : list CaseLink.row;
  timeline_events       : list TimelineEvent.row;
  projects              : list Project.row;
  project_cases         : list ProjectCase.row
}.

Definition empty_store : Store := mkStore [] [] [] [] [] [] [] [] [] [].

Definition with_cases (v : list Case.row) (s : Store) : Store :=
  mkStore v (case_crime_types s) (case_tags s) (suspects s)
    (suspect_crime_history s) (suspect_case_links s) (case_links s)
    (timeline_events s) (projects s) (project_cases s).

Definition with_case_crime_types (v : list CaseCrimeType.row) (s : Store) : Store :=
  mkStore (cases s) v (case_tags s) (suspects s)
    (suspect_crime_history s) (suspect_case_links s) (case_links s)
    (timeline_events s) (projects s) (project_cases s).

Definition with_case_tags (v : list CaseTag.row) (s : Store) : Store :=
  mkStore (cases s) (case_crime_types s) v (suspects s)
    (suspect_crime_history s) (suspect_case_links s) (case_links s)
    (timeline_events s) (projects s) (project_cases s).

Definition with_suspects (v : list Suspect.row) (s : Store) : Store :=
  mkStore (cases s) (case_crime_types s) (case_tags s) v
    (suspect_crime_history s) (suspect_case_links s) (case_links s)
    (timeline_events s) (projects s) (project_cases s).

Definition with_suspect_crime_history (v : list CrimeHistory.row) (s : Store) : Store :=
  mkStore (cases s) (case_crime_types s) (case_tags s) (suspects s)
    v (suspect_case_links s) (case_links s)
    (timeline_events s) (projects s) (project_cases s).

Definition with_suspect_case_links (v : list SuspectCaseLink.row) (s : Store) : Store :=
  mkStore (cases s) (case_crime_types s) (case_tags s) (suspects s)
    (suspect_crime_history s) v (case_links s)
    (timeline_events s) (projects s) (project_cases s).

Definition with_case_links (v : list CaseLink.row) (s : Store) : Store :=
  mkStore (cases s) (case_crime_types s) (case_tags s) (suspects s)
    (suspect_crime_history s) (suspect_case_links s) v
    (timeline_events s) (projects s) (project_cases s).

Definition with_timeline_events (v : list TimelineEvent.row) (s : Store) : Store :=
  mkStore (cases s) (case_crime_types s) (case_tags s) (suspects s)
    (suspect_crime_history s) (suspect_case_links s) (case_links s)
    v (projects s) (project_cases s).

Definition with_projects (v : list Project.row) (s : Store) : Store :=
  mkStore (cases s) (case_crime_types s) (case_tags s) (suspects s)
    (suspect_crime_history s) (suspect_case_links s) (case_links s)
    (timeline_events s) v (project_cases s).

Definition with_project_cases (v : list ProjectCase.row) (s : Store) : Store :=
  mkStore (cases s) (case_crime_types s) (case_tags s) (suspects s)
    (suspect_crime_history s) (suspect_case_links s) (case_links s)
    (timeline_events s) (projects s) v.

(** ** What SQLite does for the statements the store issues *)

(** [INTEGER PRIMARY KEY] without AUTOINCREMENT: a row inserted without an
    explicit id gets 1 in an empty table and otherwise one more than the
    largest id in use.  (SQLite departs from this only when the largest id
    is 2^63 - 1, which no sequence of the calls below produces: ids are
    never chosen by the caller.) *)
Definition next_rowid (ids : list Z) : Z :=
  match ids with
  | [] => 1
  | id :: rest => fold_right Z.max id rest + 1
  end.

(** [DELETE FROM t WHERE id = ?]: the rows that stay. *)
Definition keep {A} (matches : A -> bool) (rows : list A) : list A :=
  filter (fun r => negb (matches r)) rows.

(** Presence of a parent key, for the FOREIGN KEY checks. *)
Definition has_case (s : Store) (c : Z) : bool :=
  existsb (fun r => Case.id r =? c) (cases s).

Definition has_suspect (s : Store) (x : Z) : bool :=
  existsb (fun r => Suspect.id r =? x) (suspects s).

Definition has_project (s : Store) (p : Z) : bool :=
  existsb (fun r => Project.id r =? p) (projects s).

(** [ON DELETE CASCADE]: a child row goes with the deleted parent row that
    its foreign key names. *)
Definition cascade {A B} (key : A -> Z) (fk : B -> Z)
    (deleted : list A) (children : list B) : list B :=
  keep (fun r => existsb (fun d => key d =? fk r) deleted) children.

(** ** Cases *)

(** [add_case]: one INSERT naming every column but [id], the legacy location
    triple and [created_at]; [crime_type] is the literal ['__migrated__']. *)
Definition add_case (now : string) (s : Store)
    (title date_occurred status mo_description victim_profile : string)
    (is_murder : bool) (victim_count : option Z)
    (crime_scene_address : string) (crime_scene_lat crime_scene_lon : option real)
    (body_found_address : string) (body_found_lat body_found_lon : option real)
  : result (Store * Z) :=
  let lastrowid := next_rowid (map Case.id (cases s)) in
  let r := Case.mk lastrowid title "__migrated__" date_occurred
             None None None
             (or_None crime_scene_address) crime_scene_lat crime_scene_lon
             (or_None body_found_address) body_found_lat body_found_lon
             (int_of_bool is_murder) victim_count
             (or_None mo_description) (or_None victim_profile)
             status now in
  Ok (with_cases (cases s ++ [r]) s, lastrowid).

(** [get_case]: [SELECT * FROM cases WHERE id = ?], [fetchone]. *)
Definition get_case (s : Store) (case_id : Z) : option Case.row :=
  find (fun r => Case.id r =? case_id) (cases s).

(** [update_case]: returns at once on no fields, else one UPDATE. *)
Definition update_case (s : Store) (case_id : Z) (fields : list Case.assignment)
  : result Store :=
  match fields with
  | [] => Ok s
  | _ =>
      Ok (with_cases
            (map (fun r => if Case.id r =? case_id then Case.update fields r else r)
                 (cases s)) s)
  end.

(** [delete_case]: [DELETE FROM cases WHERE id = ?].  Each deleted row sets
    off the [ON DELETE CASCADE] of the six tables that reference [cases];
    [case_links] references it through both of its case columns. *)
Definition delete_case (s : Store) (case_id : Z) : result Store :=
  let deleted := filter (fun r => Case.id r =? case_id) (cases s) in
  Ok (mkStore
        (keep (fun r => Case.id r =? case_id) (cases s))
        (cascade Case.id CaseCrimeType.case_id deleted (case_crime_types s))
        (cascade Case.id CaseTag.case_id deleted (case_tags s))
        (suspects s)
        (suspect_crime_history s)
        (cascade Case.id SuspectCaseLink.case_id deleted (suspect_case_links s))
        (cascade Case.id CaseLink.case_id_2 deleted
           (cascade Case.id CaseLink.case_id_1 deleted (case_links s)))
        (cascade Case.id TimelineEvent.case_id deleted (timeline_events s))
        (projects s)
        (cascade Case.id ProjectCase.case_id deleted (project_cases s))).

(** ** Case crime types and tags *)

(** The loop of [set_case_crime_types]: [INSERT OR IGNORE] of
    [(case_id, ct, i)] for [i, ct in enumerate(crime_types)].  A row that
    collides on [UNIQUE(case_id, crime_type)] is skipped; OR IGNORE does not
    cover the foreign key, so an insert for a missing case raises. *)
Fixpoint insert_crime_types (parent : bool) (case_id : Z) (i : Z)
    (crime_types : list string) (tbl : list CaseCrimeType.row)
  : result (list CaseCrimeType.row) :=
  match crime_types with
  | [] => Ok tbl
  | ct :: rest =>
      if existsb (fun r => (CaseCrimeType.case_id r =? case_id)
                           && (CaseCrimeType.crime_type r =? ct)%string) tbl
      then insert_crime_types parent case_id (i + 1) rest tbl
      else if parent
      then insert_crime_types parent case_id (i + 1) rest
             (tbl ++ [CaseCrimeType.mk
                        (next_rowid (map CaseCrimeType.id tbl)) case_id ct i])
      else Err ForeignKeyViolation
  end.

Definition set_case_crime_types (s : Store) (case_id : Z) (crime_types : list string)
  : result Store :=
  let tbl := keep (fun r => CaseCrimeType.case_id r =? case_id) (case_crime_types s) in
  tbl' <- insert_crime_types (has_case s case_id) case_id 0 crime_types tbl ;;
  Ok (with_case_crime_types tbl' s).

Fixpoint insert_tags (parent : bool) (case_id : Z)
    (tags : list string) (tbl : list CaseTag.row)
  : result (list CaseTag.row) :=
  match tags with
  | [] => Ok tbl
  | tag :: rest =>
      if existsb (fun r => (CaseTag.case_id r =? case_id)
                           && (CaseTag.tag r =? tag)%string) tbl
      then insert_tags parent case_id rest tbl
      else if parent
      then insert_tags parent case_id rest
             (tbl ++ [CaseTag.mk (next_rowid (map CaseTag.id tbl)) case_id tag])
      else Err ForeignKeyViolation
  end.

Definition set_case_tags (s : Store) (case_id : Z) (tags : list string)
  : result Store :=
  let tbl := keep (fun r => CaseTag.case_id r =? case_id) (case_tags s) in
  tbl' <- insert_tags (has_case s case_id) case_id tags tbl ;;
  Ok (with_case_tags tbl' s).

(** ** Suspects *)

Definition add_suspect (now : string) (s : Store)
    (name : string) (description known_aliases : option string)
  : result (Store * Z) :=
  let lastrowid := next_rowid (map Suspect.id (suspects s)) in
  Ok (with_suspects
        (suspects s ++ [Suspect.mk lastrowid name description known_aliases now]) s,
      lastrowid).

Definition update_suspect (s : Store) (suspect_id : Z)
    (fields : list Suspect.assignment) : result Store :=
  match fields with
  | [] => Ok s
  | _ =>
      Ok (with_suspects
            (map (fun r => if Suspect.id r =? suspect_id
                           then Suspect.update fields r else r)
                 (suspects s)) s)
  end.

(** [delete_suspect]: cascades to the history entries and the case links. *)
Definition delete_suspect (s : Store) (suspect_id : Z) : result Store :=
  let deleted := filter (fun r => Suspect.id r =? suspect_id) (suspects s) in
  Ok (mkStore
        (cases s) (case_crime_types s) (case_tags s)
        (keep (fun r => Suspect.id r =? suspect_id) (suspects s))
        (cascade Suspect.id CrimeHistory.suspect_id deleted (suspect_crime_history s))
        (cascade Suspect.id SuspectCaseLink.suspect_id deleted (suspect_case_links s))
        (case_links s) (timeline_events s) (projects s) (project_cases s)).

(** ** Suspect criminal history *)

Definition add_suspect_crime_history (now : string) (s : Store)
    (suspect_id : Z) (crime_type : string) (date_of_crime : option string)
    (conviction_status : string) (notes : string)
  : result (Store * Z) :=
  let lastrowid := next_rowid (map CrimeHistory.id (suspect_crime_history s)) in
  if has_suspect s suspect_id then
    Ok (with_suspect_crime_history
          (suspect_crime_history s ++
             [CrimeHistory.mk lastrowid suspect_id crime_type date_of_crime
                conviction_status (or_None notes) now]) s,
        lastrowid)
  else Err ForeignKeyViolation.

Definition delete_suspect_crime_history_entry (s : Store) (entry_id : Z)
  : result Store :=
  Ok (with_suspect_crime_history
        (keep (fun r => CrimeHistory.id r =? entry_id) (suspect_crime_history s)) s).

(** ** Suspect-case links *)

(** [link_suspect_to_case]: a plain INSERT.  The UNIQUE index on
    [(suspect_id, case_id, connection_type)] is probed while the row is
    written, the foreign keys when the statement ends. *)
Definition link_suspect_to_case (now : string) (s : Store)
    (suspect_id case_id : Z) (connection_type : string) (notes : string)
  : result (Store * Z) :=
  let lastrowid := next_rowid (map SuspectCaseLink.id (suspect_case_links s)) in
  if existsb (fun r => (SuspectCaseLink.suspect_id r =? suspect_id)
                       && (SuspectCaseLink.case_id r =? case_id)
                       && (SuspectCaseLink.connection_type r =? connection_type)%string)
             (suspect_case_links s)
  then Err UniqueViolation
  else if has_suspect s suspect_id && has_case s case_id then
    Ok (with_suspect_case_links
          (suspect_case_links s ++
             [SuspectCaseLink.mk lastrowid suspect_id case_id connection_type
                (or_None notes) now]) s,
        lastrowid)
  else Err ForeignKeyViolation.

Definition delete_suspect_case_link (s : Store) (link_id : Z) : result Store :=
  Ok (with_suspect_case_links
        (keep (fun r => SuspectCaseLink.id r =? link_id) (suspect_case_links s)) s).

(** ** Case links *)

(** [link_cases]: the pair is put in ascending order, then a plain INSERT.
    The table declares [CHECK(case_id_1 < case_id_2)] and the two foreign
    keys, and no UNIQUE constraint. *)
Definition link_cases (now : string) (s : Store)
    (id_a id_b : Z) (similarity_note : string)
  : result (Store * Z) :=
  let case_id_1 := Z.min id_a id_b in
  let case_id_2 := Z.max id_a id_b in
  let lastrowid := next_rowid (map CaseLink.id (case_links s)) in
  if negb (case_id_1 <? case_id_2) then Err CheckViolation
  else if has_case s case_id_1 && has_case s case_id_2 then
    Ok (with_case_links
          (case_links s ++
             [CaseLink.mk lastrowid case_id_1 case_id_2 similarity_note now]) s,
        lastrowid)
  else Err ForeignKeyViolation.

Definition delete_case_link (s : Store) (link_id : Z) : result Store :=
  Ok (with_case_links
        (keep (fun r => CaseLink.id r =? link_id) (case_links s)) s).

(** ** Timeline events *)

Definition add_timeline_event (now : string) (s : Store)
    (case_id : Z) (event_timestamp title description : string)
  : result (Store * Z) :=
  let lastrowid := next_rowid (map TimelineEvent.id (timeline_events s)) in
  if has_case s case_id then
    Ok (with_timeline_events
          (timeline_events s ++
             [TimelineEvent.mk lastrowid case_id event_timestamp title
                (or_None description) now]) s,
        lastrowid)
  else Err ForeignKeyViolation.

Definition delete_timeline_event (s : Store) (event_id : Z) : result Store :=
  Ok (with_timeline_events
        (keep (fun r => TimelineEvent.id r =? event_id) (timeline_events s)) s).

(** ** Projects and membership *)

Definition add_project (now : string) (s : Store) (name description : string)
  : result (Store * Z) :=
  let lastrowid := next_rowid (map Project.id (projects s)) in
  if existsb (fun r => (Project.name r =? name)%string) (projects s)
  then Err UniqueViolation
  else
    Ok (with_projects
          (projects s ++ [Project.mk lastrowid name (or_None description) now]) s,
        lastrowid).

Definition get_project (s : Store) (project_id : Z) : option Project.row :=
  find (fun r => Project.id r =? project_id) (projects s).

(** [update_project]: the UPDATE fails when the new name is the name of
    another project. *)
Definition update_project (s : Store) (project_id : Z)
    (fields : list Project.assignment) : result Store :=
  match fields with
  | [] => Ok s
  | _ =>
      if existsb
           (fun r => (Project.id r =? project_id)
                     && existsb (fun q => negb (Project.id q =? project_id)
                                          && (Project.name q =?
                                              Project.name (Project.update fields r))%string)
                                (projects s))
           (projects s)
      then Err UniqueViolation
      else
        Ok (with_projects
              (map (fun r => if Project.id r =? project_id
                             then Project.update fields r else r)
                   (projects s)) s)
  end.

(** [delete_project]: cascades to the memberships, never to the cases. *)
Definition delete_project (s : Store) (project_id : Z) : result Store :=
  let deleted := filter (fun r => Project.id r =? project_id) (projects s) in
  Ok (with_project_cases
        (cascade Project.id ProjectCase.project_id deleted (project_cases s))
        (with_projects
           (keep (fun r => Project.id r =? project_id) (projects s)) s)).

(** [assign_case_to_project]: [INSERT OR IGNORE]; a pair already present
    is skipped, a missing project or case still raises. *)
Definition assign_case_to_project (now : string) (s : Store)
    (project_id case_id : Z) : result Store :=
  if existsb (fun r => (ProjectCase.project_id r =? project_id)
                       && (ProjectCase.case_id r =? case_id)) (project_cases s)
  then Ok s
  else if has_project s project_id && has_case s case_id then
    Ok (with_project_cases
          (project_cases s ++
             [ProjectCase.mk (next_rowid (map ProjectCase.id (project_cases s)))
                project_id case_id now]) s)
  else Err ForeignKeyViolation.

Definition unassign_case_from_project (s : Store) (project_id case_id : Z)
  : result Store :=
  Ok (with_project_cases
        (keep (fun r => (ProjectCase.project_id r =? project_id)
                        && (ProjectCase.case_id r =? case_id)) (project_cases s)) s).

(** ** Schema: [init_db] and [migrate_db] *)

(** The catalogue of a database file: each table with its column names.
    A field of a row whose column the catalogue does not list carries no
    meaning until [ALTER TABLE ... ADD COLUMN] gives it its default. *)
Definition schema := list (string * list string).

Record Db := mkDb {
  tables : schema;
  rows   : Store
}.

Definition empty_db : Db := mkDb [] empty_store.

Definition columns_of (name : string) (sch : schema) : option (list string) :=
  option_map snd (find (fun t => (fst t =? name)%string) sch).

Definition has_columns (name : string) (cols : list string) (sch : schema) : bool :=
  match columns_of name sch with
  | None => false
  | Some have => forallb (fun c => existsb (String.eqb c) have) cols
  end.

(** [CREATE TABLE IF NOT EXISTS name (cols...)]. *)
Definition create_table_if_not_exists (sch : schema) (t : string * list string)
  : schema :=
  match columns_of (fst t) sch with
  | Some _ => sch
  | None => (sch ++ [t])%list
  end.

Definition cases_table : string * list string :=
  ("cases",
   ["id"; "title"; "crime_type"; "date_occurred"; "address"; "latitude";
    "longitude"; "crime_scene_address"; "crime_scene_lat"; "crime_scene_lon";
    "body_found_address"; "body_found_lat"; "body_found_lon"; "is_murder";
    "victim_count"; "mo_description"; "victim_profile"; "status"; "created_at"]).

Definition case_crime_types_table : string * list string :=
  ("case_crime_types", ["id"; "case_id"; "crime_type"; "sort_order"]).

Definition case_tags_table : string * list string :=
  ("case_tags", ["id"; "case_id"; "tag"]).

Definition suspects_table : string * list string :=
  ("suspects", ["id"; "name"; "description"; "known_aliases"; "created_at"]).

Definition suspect_crime_history_table : string * list string :=
  ("suspect_crime_history",
   ["id"; "suspect_id"; "crime_type"; "date_of_crime"; "conviction_status";
    "notes"; "created_at"]).

Definition suspect_case_links_table : string * list string :=
  ("suspect_case_links",
   ["id"; "suspect_id"; "case_id"; "connection_type"; "notes"; "created_at"]).

Definition case_links_table : string * list string :=
  ("case_links", ["id"; "case_id_1"; "case_id_2"; "similarity_note"; "created_at"]).

Definition timeline_events_table : string * list string :=
  ("timeline_events",
   ["id"; "case_id"; "event_timestamp"; "title"; "description"; "created_at"]).

Definition projects_table : string * list string :=
  ("projects", ["id"; "name"; "description"; "created_at"]).

Definition project_cases_table : string * list string :=
  ("project_cases", ["id"; "project_id"; "case_id"; "added_at"]).

(** [init_db]: the script of ten [CREATE TABLE IF NOT EXISTS]. *)
Definition init_db (db : Db) : Db :=
  mkDb (fold_left create_table_if_not_exists
          [cases_table; case_crime_types_table; case_tags_table; suspects_table;
           suspect_crime_history_table; suspect_case_links_table;
           case_links_table; timeline_events_table; projects_table;
           project_cases_table]
          (tables db))
       (rows db).

(** [ALTER TABLE cases ADD COLUMN col ...]: raises when the table is missing
    or already has the column; otherwise every row reads the column's
    default. *)
Definition add_column (col : string) (default : Case.row -> Case.row) (db : Db)
  : result Db :=
  match columns_of "cases" (tables db) with
  | None => Err OperationalError
  | Some have =>
      if existsb (String.eqb col) have then Err OperationalError
      else
        Ok (mkDb
              (map (fun t => if (fst t =? "cases")%string
                             then (fst t, (snd t ++ [col])%list) else t) (tables db))
              (with_cases (map default (cases (rows db))) (rows db)))
  end.

Definition new_cols : list (string * (Case.row -> Case.row)) :=
  [("crime_scene_address", Case.set_crime_scene_address None);
   ("crime_scene_lat",     Case.set_crime_scene_lat None);
   ("crime_scene_lon",     Case.set_crime_scene_lon None);
   ("body_found_address",  Case.set_body_found_address None);
   ("body_found_lat",      Case.set_body_found_lat None);
   ("body_found_lon",      Case.set_body_found_lon None);
   ("is_murder",           Case.set_is_murder 0);
   ("victim_count",        Case.set_victim_count None)].

(** Step 1: each ALTER in its own [try ... except Exception: pass]. *)
Definition try_add_column (db : Db) (sql : string * (Case.row -> Case.row)) : Db :=
  match add_column (fst sql) (snd sql) db with
  | Ok db' => db'
  | Err _ => db
  end.

Definition migrate_add_columns (db : Db) : Db :=
  fold_left try_add_column new_cols db.

(** Step 2: the script of five [CREATE TABLE IF NOT EXISTS]. *)
Definition new_tables : list (string * list string) :=
  [case_crime_types_table; case_tags_table; suspect_crime_history_table;
   projects_table; project_cases_table].

Definition migrate_new_tables (db : Db) : Db :=
  mkDb (fold_left create_table_if_not_exists new_tables (tables db)) (rows db).

(** Step 3: the legacy location is copied to the crime-scene fields of the
    rows [WHERE crime_scene_lat IS NULL AND latitude IS NOT NULL]. *)
Definition copy_location (r : Case.row) : Case.row :=
  match Case.crime_scene_lat r, Case.latitude r with
  | None, Some _ =>
      Case.set_crime_scene_lon (Case.longitude r)
        (Case.set_crime_scene_lat (Case.latitude r)
           (Case.set_crime_scene_address (Case.address r) r))
  | _, _ => r
  end.

Definition copy_locations (s : Store) : Store :=
  with_cases (map copy_location (cases s)) s.

Definition migrate_location (db : Db) : result Db :=
  if has_columns "cases"
       ["crime_scene_address"; "address"; "crime_scene_lat"; "latitude";
        "crime_scene_lon"; "longitude"] (tables db)
  then Ok (mkDb (tables db) (copy_locations (rows db)))
  else Err OperationalError.

(** Step 4: the legacy single crime type moves to [case_crime_types].  The
    insert is [INSERT OR IGNORE ... VALUES (?, ?, 0)] inside a
    [try ... except Exception: pass]; the UPDATE that writes the sentinel
    runs only when the SELECT returned rows. *)
Definition not_migrated (r : Case.row) : bool :=
  negb (Case.crime_type r =? "__migrated__")%string.

Definition migrate_crime_type_row (have_table : bool) (s : Store) (r : Case.row)
  : Store :=
  if have_table then
    match insert_crime_types (has_case s (Case.id r)) (Case.id r) 0
            [Case.crime_type r] (case_crime_types s) with
    | Ok tbl => with_case_crime_types tbl s
    | Err _ => s
    end
  else s.

Definition mark_migrated (r : Case.row) : Case.row :=
  if not_migrated r then Case.set_crime_type "__migrated__" r else r.

Definition move_crime_types (have_table : bool) (s : Store) : Store :=
  match filter not_migrated (cases s) with
  | [] => s
  | selected =>
      let s' := fold_left (migrate_crime_type_row have_table) selected s in
      with_cases (map mark_migrated (cases s')) s'
  end.

Definition migrate_crime_types (db : Db) : result Db :=
  if has_columns "cases" ["id"; "crime_type"] (tables db) then
    Ok (mkDb (tables db)
          (move_crime_types
             (has_columns "case_crime_types" ["case_id"; "crime_type"; "sort_order"]
                (tables db))
             (rows db)))
  else Err OperationalError.

(** Step 5: retired status labels. *)
Definition migrate_status_row (r : Case.row) : Case.row :=
  let r1 :=
    if (Case.status r =? "Open")%string || (Case.status r =? "Linked")%string
    then Case.set_status "Active" r else r in
  if (Case.status r1 =? "Closed")%string then Case.set_status "Solved" r1 else r1.

Definition rename_statuses (s : Store) : Store :=
  with_cases (map migrate_status_row (cases s)) s.

Definition migrate_status (db : Db) : result Db :=
  if has_columns "cases" ["status"] (tables db)
  then Ok (mkDb (tables db) (rename_statuses (rows db)))
  else Err OperationalError.

(** Steps 3 to 5, which rewrite rows.  The pair is the database as the
    steps leave it and whether one of them raised: a step that raises ends
    the call, with the steps before it committed. *)
Definition migrate_data (db2 : Db) : Db * result unit :=
  match migrate_location db2 with
  | Err e => (db2, Err e)
  | Ok db3 =>
      match migrate_crime_types db3 with
      | Err e => (db3, Err e)
      | Ok db4 =>
          match migrate_status db4 with
          | Err e => (db4, Err e)
          | Ok db5 => (db5, Ok tt)
          end
      end
  end.

(** [migrate_db]: the five steps, each committed before the next. *)
Definition migrate_db (db : Db) : Db * result unit :=
  migrate_data (migrate_new_tables (migrate_add_columns db)).

(** ** Queries *)

(** *** ORDER BY

    A SELECT with an ORDER BY returns the selected rows in an order that
    agrees with the keys of the clause.  [order_by] is the sorter: it
    takes the rows as the scan delivers them and keeps rows with equal
    keys in that order.  [ordered_result] relates the selected rows to
    every list in key order; it states the queries whose results are
    examined only up to the order of rows with equal keys. *)
Section OrderBy.
Variable A : Type.
(** [before x y]: the keys allow [x] to come ahead of [y]. *)
Variable before : A -> A -> bool.

Definition ordered_result (rows out : list A) : Prop :=
  Permutation rows out /\ StronglySorted (fun x y => before x y = true) out.

Fixpoint insert_row (x : A) (l : list A) : list A :=
  match l with
  | [] => [x]
  | y :: l' => if before x y then x :: l else y :: insert_row x l'
  end.

Definition order_by (rows : list A) : list A := fold_right insert_row [] rows.
End OrderBy.

(** Descending on a TEXT key: [x] may precede [y] when [key y <= key x]. *)
Definition desc {A} (key : A -> string) (x y : A) : bool :=
  String.leb (key y) (key x).

(** Ascending on an INTEGER key. *)
Definition asc {A} (key : A -> Z) (x y : A) : bool := key x <=? key y.

(** The rows of [cases c JOIN project_cases pc ON pc.case_id = c.id
    WHERE pc.project_id = ?]: one row per matching pair. *)
Definition cases_in_project (s : Store) (project_id : Z) : list Case.row :=
  flat_map
    (fun c =>
       map (fun _ => c)
           (filter (fun pc => (ProjectCase.case_id pc =? Case.id c)
                              && (ProjectCase.project_id pc =? project_id))
                   (project_cases s)))
    (cases s).

(** The rows of a table as a scan delivers them: in ascending rowid. *)
Definition rowid_scan {A} (rowid : A -> Z) (rows : list A) : list A :=
  order_by (asc rowid) rows.

(** [get_all_cases]: [ORDER BY date_occurred DESC] over the scan of [cases],
    or over the join with the project's memberships, which delivers the
    member cases in ascending id as well.  Cases with equal dates stay in
    the order of the scan. *)
Definition get_all_cases (s : Store) (project_id : option Z) : list Case.row :=
  match project_id with
  | None => order_by (desc Case.date_occurred) (rowid_scan Case.id (cases s))
  | Some p =>
      order_by (desc Case.date_occurred) (rowid_scan Case.id (cases_in_project s p))
  end.

(** [get_cases_for_project]: the same SELECT as the project branch above. *)
Definition get_cases_for_project (s : Store) (project_id : Z) : list Case.row :=
  order_by (desc Case.date_occurred)
           (rowid_scan Case.id (cases_in_project s project_id)).

(** [get_case_crime_types]: [ORDER BY sort_order ASC], the labels only. *)
Definition crime_types_of (s : Store) (case_id : Z) : list CaseCrimeType.row :=
  filter (fun r => CaseCrimeType.case_id r =? case_id) (case_crime_types s).

Definition get_case_crime_types (s : Store) (case_id : Z) (out : list string)
  : Prop :=
  exists sel, ordered_result (asc CaseCrimeType.sort_order) (crime_types_of s case_id) sel
              /\ out = map CaseCrimeType.crime_type sel.

Definition get_case_crime_types_run (s : Store) (case_id : Z) : list string :=
  map CaseCrimeType.crime_type
      (order_by (asc CaseCrimeType.sort_order) (crime_types_of s case_id)).

(** [get_primary_crime_type]: the same SELECT with [LIMIT 1], [fetchone]. *)
Definition get_primary_crime_type (s : Store) (case_id : Z) (out : option string)
  : Prop :=
  exists sel, ordered_result (asc CaseCrimeType.sort_order) (crime_types_of s case_id) sel
              /\ out = option_map CaseCrimeType.crime_type (hd_error sel).

Definition get_primary_crime_type_run (s : Store) (case_id : Z) : option string :=
  hd_error (get_case_crime_types_run s case_id).

(** [get_suspect_crime_history]:
    [ORDER BY date_of_crime DESC NULLS LAST, created_at DESC]. *)
Definition history_before (x y : CrimeHistory.row) : bool :=
  match CrimeHistory.date_of_crime x, CrimeHistory.date_of_crime y with
  | Some dx, Some dy =>
      match String.compare dy dx with
      | Lt => true
      | Eq => String.leb (CrimeHistory.created_at y) (CrimeHistory.created_at x)
      | Gt => false
      end
  | Some _, None => true
  | None, Some _ => false
  | None, None => String.leb (CrimeHistory.created_at y) (CrimeHistory.created_at x)
  end.

Definition get_suspect_crime_history (s : Store) (suspect_id : Z)
    (out : list CrimeHistory.row) : Prop :=
  ordered_result history_before
    (filter (fun r => CrimeHistory.suspect_id r =? suspect_id)
            (suspect_crime_history s)) out.

Definition get_suspect_crime_history_run (s : Store) (suspect_id : Z)
  : list CrimeHistory.row :=
  order_by history_before
    (filter (fun r => CrimeHistory.suspect_id r =? suspect_id)
            (suspect_crime_history s)).

(** [get_suspect_links_for_case]: the links of a case joined with the
    suspect's name, [ORDER BY scl.created_at DESC]. *)
Definition links_with_names (s : Store) (case_id : Z)
  : list (SuspectCaseLink.row * string) :=
  flat_map
    (fun scl =>
       map (fun su => (scl, Suspect.name su))
           (filter (fun su => SuspectCaseLink.suspect_id scl =? Suspect.id su)
                   (suspects s)))
    (filter (fun scl => SuspectCaseLink.case_id scl =? case_id)
            (suspect_case_links s)).

Definition get_suspect_links_for_case (s : Store) (case_id : Z)
    (out : list (SuspectCaseLink.row * string)) : Prop :=
  ordered_result (desc (fun x => SuspectCaseLink.created_at (fst x)))
    (links_with_names s case_id) out.

Definition get_suspect_links_for_case_run (s : Store) (case_id : Z)
  : list (SuspectCaseLink.row * string) :=
  order_by (desc (fun x => SuspectCaseLink.created_at (fst x)))
    (links_with_names s case_id).

(** [get_timeline_events]: [ORDER BY event_timestamp DESC]. *)
Definition get_timeline_events (s : Store) (case_id : Z)
    (out : list TimelineEvent.row) : Prop :=
  ordered_result (desc TimelineEvent.event_timestamp)
    (filter (fun r => TimelineEvent.case_id r =? case_id) (timeline_events s)) out.

Definition get_timeline_events_run (s : Store) (case_id : Z)
  : list TimelineEvent.row :=
  order_by (desc TimelineEvent.event_timestamp)
    (filter (fun r => TimelineEvent.case_id r =? case_id) (timeline_events s)).

(** ** Calls and the stores they lead to *)

(** The mutating entry points of [database.py] with their arguments. *)
Inductive call :=
| Add_case (title date_occurred status mo_description victim_profile : string)
    (is_murder : bool) (victim_count : option Z)
    (crime_scene_address : string) (crime_scene_lat crime_scene_lon : option real)
    (body_found_address : string) (body_found_lat body_found_lon : option real)
| Update_case (case_id : Z) (fields : list Case.assignment)
| Delete_case (case_id : Z)
| Set_case_crime_types (case_id : Z) (crime_types : list string)
| Set_case_tags (case_id : Z) (tags : list string)
| Add_suspect (name : string) (description known_aliases : option string)
| Update_suspect (suspect_id : Z) (fields : list Suspect.assignment)
| Delete_suspect (suspect_id : Z)
| Add_suspect_crime_history (suspect_id : Z) (crime_type : string)
    (date_of_crime : option string) (conviction_status notes : string)
| Delete_suspect_crime_history_entry (entry_id : Z)
| Link_suspect_to_case (suspect_id case_id : Z) (connection_type notes : string)
| Delete_suspect_case_link (link_id : Z)
| Link_cases (id_a id_b : Z) (similarity_note : string)
| Delete_case_link (link_id : Z)
| Add_timeline_event (case_id : Z) (event_timestamp title description : string)
| Delete_timeline_event (event_id : Z)
| Add_project (name description : string)
| Update_project (project_id : Z) (fields : list Project.assignment)
| Delete_project (project_id : Z)
| Assign_case_to_project (project_id case_id : Z)
| Unassign_case_from_project (project_id case_id : Z)
| Migrate_db.

(** The committed store after a call: the new one, or the old one when the
    call raised. *)
Definition committed (s : Store) (r : result Store) : Store :=
  match r with
  | Ok s' => s'
  | Err _ => s
  end.

Definition inserted (s : Store) (r : result (Store * Z)) : Store :=
  match r with
  | Ok (s', _) => s'
  | Err _ => s
  end.

(** [migrate_db] on a store whose catalogue is the one [init_db] creates,
    which is how the application runs it at start-up. *)
Definition current_schema : schema := tables (init_db empty_db).

Definition migrate_store (s : Store) : Store :=
  rows (fst (migrate_db (mkDb current_schema s))).

Definition after (now : string) (c : call) (s : Store) : Store :=
  match c with
  | Add_case t d st mo vp im vc ca clat clon ba blat blon =>
      inserted s (add_case now s t d st mo vp im vc ca clat clon ba blat blon)
  | Update_case c fields => committed s (update_case s c fields)
  | Delete_case c => committed s (delete_case s c)
  | Set_case_crime_types c cts => committed s (set_case_crime_types s c cts)
  | Set_case_tags c tags => committed s (set_case_tags s c tags)
  | Add_suspect n d a => inserted s (add_suspect now s n d a)
  | Update_suspect x fields => committed s (update_suspect s x fields)
  | Delete_suspect x => committed s (delete_suspect s x)
  | Add_suspect_crime_history x ct d cs n =>
      inserted s (add_suspect_crime_history now s x ct d cs n)
  | Delete_suspect_crime_history_entry e =>
      committed s (delete_suspect_crime_history_entry s e)
  | Link_suspect_to_case x c t n => inserted s (link_suspect_to_case now s x c t n)
  | Delete_suspect_case_link l => committed s (delete_suspect_case_link s l)
  | Link_cases a b n => inserted s (link_cases now s a b n)
  | Delete_case_link l => committed s (delete_case_link s l)
  | Add_timeline_event c ts t d => inserted s (add_timeline_event now s c ts t d)
  | Delete_timeline_event e => committed s (delete_timeline_event s e)
  | Add_project n d => inserted s (add_project now s n d)
  | Update_project p fields => committed s (update_project s p fields)
  | Delete_project p => committed s (delete_project s p)
  | Assign_case_to_project p c => committed s (assign_case_to_project now s p c)
  | Unassign_case_from_project p c => committed s (unassign_case_from_project s p c)
  | Migrate_db => migrate_store s
  end.

(** The stores the application can be in: the empty store that [init_db]
    creates, and whatever a sequence of calls makes of it. *)
Inductive reachable : Store -> Prop :=
| reachable_init : reachable empty_store
| reachable_call now c s : reachable s -> reachable (after now c s).

(** ** Integrity of a store *)

Definition case_ids (s : Store) : list Z := map Case.id (cases s).
Definition suspect_ids (s : Store) : list Z := map Suspect.id (suspects s).
Definition project_ids (s : Store) : list Z := map Project.id (projects s).

(** Every row of [tbl] names, through [fk], a key among [ids]. *)
Definition refs {A} (fk : A -> Z) (ids : list Z) (tbl : list A) : Prop :=
  Forall (fun r => In (fk r) ids) tbl.

(** No association row references a missing parent: the ten FOREIGN KEY
    clauses of the schema. *)
Record fk_ok (s : Store) : Prop := mk_fk_ok {
  fk_case_crime_types : refs CaseCrimeType.case_id (case_ids s) (case_crime_types s);
  fk_case_tags        : refs CaseTag.case_id (case_ids s) (case_tags s);
  fk_history          : refs CrimeHistory.suspect_id (suspect_ids s)
                             (suspect_crime_history s);
  fk_scl_suspect      : refs SuspectCaseLink.suspect_id (suspect_ids s)
                             (suspect_case_links s);
  fk_scl_case         : refs SuspectCaseLink.case_id (case_ids s)
                             (suspect_case_links s);
  fk_case_links_1     : refs CaseLink.case_id_1 (case_ids s) (case_links s);
  fk_case_links_2     : refs CaseLink.case_id_2 (case_ids s) (case_links s);
  fk_timeline         : refs TimelineEvent.case_id (case_ids s) (timeline_events s);
  fk_pc_project       : refs ProjectCase.project_id (project_ids s) (project_cases s);
  fk_pc_case          : refs ProjectCase.case_id (case_ids s) (project_cases s)
}.

(** Primary keys: no two rows of a table share an id. *)
Record pk_ok (s : Store) : Prop := mk_pk_ok {
  pk_cases            : NoDup (map Case.id (cases s));
  pk_case_crime_types : NoDup (map CaseCrimeType.id (case_crime_types s));
  pk_case_tags        : NoDup (map CaseTag.id (case_tags s));
  pk_suspects         : NoDup (map Suspect.id (suspects s));
  pk_history          : NoDup (map CrimeHistory.id (suspect_crime_history s));
  pk_scl              : NoDup (map SuspectCaseLink.id (suspect_case_links s));
  pk_case_links       : NoDup (map CaseLink.id (case_links s));
  pk_timeline         : NoDup (map TimelineEvent.id (timeline_events s));
  pk_projects         : NoDup (map Project.id (projects s));
  pk_project_cases    : NoDup (map ProjectCase.id (project_cases s))
}.

(** The five UNIQUE clauses of the schema. *)
Record unique_ok (s : Store) : Prop := mk_unique_ok {
  uq_case_crime_types :
    NoDup (map (fun r => (CaseCrimeType.case_id r, CaseCrimeType.crime_type r))
               (case_crime_types s));
  uq_case_tags :
    NoDup (map (fun r => (CaseTag.case_id r, CaseTag.tag r)) (case_tags s));
  uq_scl :
    NoDup (map (fun r => (SuspectCaseLink.suspect_id r, SuspectCaseLink.case_id r,
                          SuspectCaseLink.connection_type r))
               (suspect_case_links s));
  uq_project_name : NoDup (map Project.name (projects s));
  uq_project_cases :
    NoDup (map (fun r => (ProjectCase.project_id r, ProjectCase.case_id r))
               (project_cases s))
}.

(** The CHECK clause of [case_links]. *)
Definition check_ok (s : Store) : Prop :=
  Forall (fun r => CaseLink.case_id_1 r < CaseLink.case_id_2 r) (case_links s).

(** Primary keys and UNIQUE keys together. *)
Definition keys_ok (s : Store) : Prop := pk_ok s /\ unique_ok s.

(** Some row of an association table names case [c]. *)
Definition references_case (s : Store) (c : Z) : Prop :=
  In c (map CaseCrimeType.case_id (case_crime_types s))
  \/ In c (map CaseTag.case_id (case_tags s))
  \/ In c (map SuspectCaseLink.case_id (suspect_case_links s))
  \/ In c (map CaseLink.case_id_1 (case_links s))
  \/ In c (map CaseLink.case_id_2 (case_links s))
  \/ In c (map TimelineEvent.case_id (timeline_events s))
  \/ In c (map ProjectCase.case_id (project_cases s)).

(** A case row on which no step of the migration has anything left to do:
    no legacy location waiting to be copied, the sentinel in [crime_type],
    no retired status label. *)
Definition needs_copy (r : Case.row) : bool :=
  match Case.crime_scene_lat r, Case.latitude r with
  | None, Some _ => true
  | _, _ => false
  end.

Definition retired_status (r : Case.row) : bool :=
  (Case.status r =? "Open")%string || (Case.status r =? "Linked")%string
  || (Case.status r =? "Closed")%string.

Definition settled (r : Case.row) : Prop :=
  needs_copy r = false /\ not_migrated r = false /\ retired_status r = false.

(** ** Sample data *)

(** A store with one case, one suspect and a link between them, used to
    run the statements on concrete data, and the calls that build it. *)
Definition sample_store : Store :=
  mkStore
    [Case.mk 1 "Doe File" "__migrated__" "1999-03-04" None None None
       None None None None None None 1 (Some 1) None None "Cold Case" "t0"]
    [CaseCrimeType.mk 1 1 "Homicide" 0]
    []
    [Suspect.mk 1 "J. Smith" None None "t0"]
    []
    [SuspectCaseLink.mk 1 1 1 "DNA Evidence" None "t0"]
    []
    [TimelineEvent.mk 1 1 "1999-03-05 08:00:00" "Body found" None "t0"]
    [Project.mk 1 "Harbour" None "t0"]
    [ProjectCase.mk 1 1 1 "t0"].

Definition sample_calls : list call :=
  [Add_case "Doe File" "1999-03-04" "Cold Case" "" "" true (Some 1)
     "" None None "" None None;
   Set_case_crime_types 1 ["Homicide"];
   Add_suspect "J. Smith" None None;
   Link_suspect_to_case 1 1 "DNA Evidence" "";
   Add_timeline_event 1 "1999-03-05 08:00:00" "Body found" "";
   Add_project "Harbour" "";
   Assign_case_to_project 1 1].

Definition replay (now : string) (calls : list call) (s : Store) : Store :=
  fold_left (fun s c => after now c s) calls s.

(** Two cases that occurred on the same day. *)
Definition same_day_case_1 : Case.row :=
  Case.mk 1 "Quay" "__migrated__" "2001-05-06" None None None
    None None None None None None 0 None None None "Active" "t0".

Definition same_day_case_2 : Case.row :=
  Case.mk 2 "Mill" "__migrated__" "2001-05-06" None None None
    None None None None None None 0 None None None "Active" "t1".

Definition same_day_store : Store :=
  with_cases [same_day_case_1; same_day_case_2] empty_store.

(** Cases 2 and 5 of the spec's example, with nothing else in the store. *)
Definition cases_2_and_5 : Store :=
  with_cases
    [Case.mk 2 "Mill" "__migrated__" "2001-05-06" None None None
       None None None None None None 0 None None None "Active" "t0";
     Case.mk 5 "Weir" "__migrated__" "2003-01-02" None None None
       None None None None None None 0 None None None "Active" "t0"]
    empty_store.

(** A database as an early version of the application left it: [cases]
    without the two-location columns, the murder flag and the victim
    count, a single crime type per case, a retired status label, and none
    of the newer tables. *)
Definition legacy_db : Db :=
  mkDb
    [("cases",
      ["id"; "title"; "crime_type"; "date_occurred"; "address"; "latitude";
       "longitude"; "mo_description"; "victim_profile"; "status"; "created_at"]);
     suspects_table; suspect_case_links_table; case_links_table;
     timeline_events_table]
    (with_cases
       [Case.mk 1 "Pier" "Robbery" "1998-07-01"
          (Some "Pier 4") (Some (Real 1)) (Some (Real 2))
          None None None None None None 0 None None None "Open" "t0"]
       empty_store).

(** The same two cases and one suspect, nothing linked yet. *)
Definition cases_2_and_5_suspect : Store :=
  with_suspects [Suspect.mk 1 "J. Smith" None None "t0"] cases_2_and_5.

(** ** Counting rows, repeating calls *)

(** The link rows of one suspect-case pair, and the membership rows of one
    project-case pair. *)
Definition links_of_pair (s : Store) (suspect_id case_id : Z)
  : list SuspectCaseLink.row :=
  filter (fun r => (SuspectCaseLink.suspect_id r =? suspect_id)
                   && (SuspectCaseLink.case_id r =? case_id))
         (suspect_case_links s).



(** ** Further queries and the callers' list handling *)

(** Ascending on a TEXT key. *)
Definition asc_text {A} (key : A -> string) (x y : A) : bool :=
  String.leb (key x) (key y).

(** [get_case_tags]: [ORDER BY id ASC], the labels only. *)
Definition tags_of (s : Store) (case_id : Z) : list CaseTag.row :=
  filter (fun r => CaseTag.case_id r =? case_id) (case_tags s).

Definition get_case_tags (s : Store) (case_id : Z) (out : list string) : Prop :=
  exists sel, ordered_result (asc CaseTag.id) (tags_of s case_id) sel
              /\ out = map CaseTag.tag sel.

(** [get_suspect]: [SELECT * FROM suspects WHERE id = ?], [fetchone]. *)
Definition get_suspect (s : Store) (suspect_id : Z) : option Suspect.row :=
  find (fun r => Suspect.id r =? suspect_id) (suspects s).

(** [get_all_suspects]: [ORDER BY name]. *)
Definition get_all_suspects (s : Store) (out : list Suspect.row) : Prop :=
  ordered_result (asc_text Suspect.name) (suspects s) out.

(** [get_all_projects]: [ORDER BY name ASC]. *)
Definition get_all_projects (s : Store) (out : list Project.row) : Prop :=
  ordered_result (asc_text Project.name) (projects s) out.

(** [get_project_ids_for_case]: no ORDER BY, the rows come as the scan
    yields them. *)
Definition get_project_ids_for_case (s : Store) (case_id : Z) (out : list Z) : Prop :=
  exists sel,
    Permutation (filter (fun r => ProjectCase.case_id r =? case_id) (project_cases s)) sel
    /\ out = map ProjectCase.project_id sel.

(** [case_links cl JOIN cases c1 ON cl.case_id_1 = c1.id
    JOIN cases c2 ON cl.case_id_2 = c2.id], selecting
    [cl.*, c1.title AS case1_title, c2.title AS case2_title]. *)
Definition links_with_titles (s : Store) : list (CaseLink.row * string * string) :=
  flat_map
    (fun cl =>
       flat_map
         (fun c1 =>
            map (fun c2 => (cl, Case.title c1, Case.title c2))
                (filter (fun c2 => CaseLink.case_id_2 cl =? Case.id c2) (cases s)))
         (filter (fun c1 => CaseLink.case_id_1 cl =? Case.id c1) (cases s)))
    (case_links s).

Definition link_of (x : CaseLink.row * string * string) : CaseLink.row :=
  fst (fst x).

(** [get_linked_cases]: [WHERE cl.case_id_1 = ? OR cl.case_id_2 = ?],
    [ORDER BY cl.created_at DESC]. *)
Definition get_linked_cases (s : Store) (case_id : Z)
    (out : list (CaseLink.row * string * string)) : Prop :=
  ordered_result (desc (fun x => CaseLink.created_at (link_of x)))
    (filter (fun x => (CaseLink.case_id_1 (link_of x) =? case_id)
                      || (CaseLink.case_id_2 (link_of x) =? case_id))
            (links_with_titles s))
    out.

(** [EXISTS (SELECT 1 FROM project_cases WHERE project_id = ? AND case_id = c)]. *)
Definition in_project (s : Store) (project_id c : Z) : bool :=
  existsb (fun pc => (ProjectCase.project_id pc =? project_id)
                     && (ProjectCase.case_id pc =? c))
          (project_cases s).

(** [get_all_case_links]: every link, or the links whose two cases are both
    in the project; [ORDER BY cl.created_at DESC]. *)
Definition get_all_case_links (s : Store) (project_id : option Z)
    (out : list (CaseLink.row * string * string)) : Prop :=
  match project_id with
  | None =>
      ordered_result (desc (fun x => CaseLink.created_at (link_of x)))
        (links_with_titles s) out
  | Some p =>
      ordered_result (desc (fun x => CaseLink.created_at (link_of x)))
        (filter (fun x => in_project s p (CaseLink.case_id_1 (link_of x))
                          && in_project s p (CaseLink.case_id_2 (link_of x)))
                (links_with_titles s))
        out
  end.

(** [LEFT JOIN case_crime_types cct ON cct.case_id = c.id AND cct.sort_order = 0],
    selecting [c.*, cct.crime_type AS primary_crime_type]: a case without
    such a row comes once, with NULL. *)
Definition with_primary_crime_type (s : Store) (c : Case.row)
  : list (Case.row * option string) :=
  match filter (fun cct => (CaseCrimeType.case_id cct =? Case.id c)
                           && (CaseCrimeType.sort_order cct =? 0))
               (case_crime_types s) with
  | [] => [(c, None)]
  | matches => map (fun cct => (c, Some (CaseCrimeType.crime_type cct))) matches
  end.

(** [crime_scene_lat IS NOT NULL AND crime_scene_lon IS NOT NULL]. *)
Definition has_coordinates (c : Case.row) : bool :=
  match Case.crime_scene_lat c, Case.crime_scene_lon c with
  | Some _, Some _ => true
  | _, _ => false
  end.

(** [get_cases_with_coordinates]: [ORDER BY c.date_occurred DESC]. *)
Definition get_cases_with_coordinates (s : Store) (project_id : option Z)
    (out : list (Case.row * option string)) : Prop :=
  match project_id with
  | None =>
      ordered_result (desc (fun x => Case.date_occurred (fst x)))
        (filter (fun x => has_coordinates (fst x))
                (flat_map (with_primary_crime_type s) (cases s)))
        out
  | Some p =>
      ordered_result (desc (fun x => Case.date_occurred (fst x)))
        (filter (fun x => has_coordinates (fst x))
                (flat_map (with_primary_crime_type s) (cases_in_project s p)))
        out
  end.

(** The rows of [get_linked_pairs_with_coordinates]. *)
Module LinkedPair.
Record row := mk {
  similarity_note : string;
  c1_id    : Z;
  c1_title : string;
  c1_lat   : option real;
  c1_lon   : option real;
  c2_id    : Z;
  c2_title : string;
  c2_lat   : option real;
  c2_lon   : option real
}.
End LinkedPair.

Definition linked_pairs (s : Store) : list (CaseLink.row * Case.row * Case.row) :=
  flat_map
    (fun cl =>
       flat_map
         (fun c1 =>
            map (fun c2 => (cl, c1, c2))
                (filter (fun c2 => CaseLink.case_id_2 cl =? Case.id c2) (cases s)))
         (filter (fun c1 => CaseLink.case_id_1 cl =? Case.id c1) (cases s)))
    (case_links s).

Definition linked_pair_row (x : CaseLink.row * Case.row * Case.row) : LinkedPair.row :=
  let '(cl, c1, c2) := x in
  LinkedPair.mk (CaseLink.similarity_note cl)
    (Case.id c1) (Case.title c1) (Case.crime_scene_lat c1) (Case.crime_scene_lon c1)
    (Case.id c2) (Case.title c2) (Case.crime_scene_lat c2) (Case.crime_scene_lon c2).

(** [get_linked_pairs_with_coordinates]: both cases of the link have their
    crime-scene coordinates; with a project id both are in the project.
    No ORDER BY. *)
Definition get_linked_pairs_with_coordinates (s : Store) (project_id : option Z)
    (out : list LinkedPair.row) : Prop :=
  let with_coordinates :=
    filter (fun x => let '(cl, c1, c2) := x in
                     has_coordinates c1 && has_coordinates c2)
           (linked_pairs s) in
  match project_id with
  | None => Permutation (map linked_pair_row with_coordinates) out
  | Some p =>
      Permutation
        (map linked_pair_row
             (filter (fun x => let '(cl, c1, c2) := x in
                               in_project s p (CaseLink.case_id_1 cl)
                               && in_project s p (CaseLink.case_id_2 cl))
                     with_coordinates))
        out
  end.

(** The "Assign Cases" tab of [pages/projects.py]:
    [proj_case_ids = {c["id"] for c in proj_cases}] and
    [unassigned = [c for c in all_cases if c["id"] not in proj_case_ids]]. *)
Definition unassigned (all_cases proj_cases : list Case.row) : list Case.row :=
  let proj_case_ids := map Case.id proj_cases in
  filter (fun c => negb (existsb (fun i => i =? Case.id c) proj_case_ids)) all_cases.

(** The labels of a list with every repetition of a label dropped after its
    first occurrence; [seen] are the labels already met. *)
Fixpoint first_occurrences (seen : list string) (l : list string) : list string :=
  match l with
  | [] => []
  | x :: rest =>
      if existsb (String.eqb x) seen then first_occurrences seen rest
      else x :: first_occurrences (seen ++ [x]) rest
  end.

(** ** The data of a case that outlive the migration *)

(** The values a case row holds in the columns that the migration neither
    adds nor rewrites. *)
Definition legacy_data (r : Case.row) :=
  (Case.id r, Case.title r, Case.date_occurred r, Case.address r,
   Case.latitude r, Case.longitude r, Case.mo_description r,
   Case.victim_profile r, Case.created_at r).

(** * Properties *)

(** ** Lists, keys and row ids *)

Lemma largest_id_ge (id : Z) (rest : list Z) (x : Z) :
  In x (id :: rest) -> x <= fold_right Z.max id rest.
Proof.
  induction rest as [|y rest IH]; simpl.
  - intros [->|[]]. lia.
  - intros [->|[->|H]]; [| lia |].
    + assert (x <= fold_right Z.max x rest) by (apply IH; now left). lia.
    + assert (x <= fold_right Z.max id rest) by (apply IH; now right). lia.
Qed.

Lemma next_rowid_fresh (ids : list Z) : ~ In (next_rowid ids) ids.
Proof.
  intros H. destruct ids as [|y ids]; [exact H|].
  apply largest_id_ge in H. unfold next_rowid in H. lia.
Qed.

Lemma existsb_false_iff {A} (f : A -> bool) (l : list A) :
  existsb f l = false <-> forall x, In x l -> f x = false.
Proof.
  induction l as [|y l IH]; simpl.
  - split; [tauto | reflexivity].
  - rewrite orb_false_iff, IH. split.
    + intros [Hy Hl] x [->|Hx]; auto.
    + intros H. split; [apply H; now left | intros x Hx; apply H; now right].
Qed.

Lemma mem_id {A} (key : A -> Z) (l : list A) (c : Z) :
  existsb (fun r => key r =? c) l = true <-> In c (map key l).
Proof.
  rewrite existsb_exists, in_map_iff. split.
  - intros [r [Hr E]]. exists r. apply Z.eqb_eq in E. tauto.
  - intros [r [E Hr]]. exists r. split; [assumption | now apply Z.eqb_eq].
Qed.

Lemma not_mem_id {A} (key : A -> Z) (l : list A) (c : Z) :
  existsb (fun r => key r =? c) l = false <-> ~ In c (map key l).
Proof.
  rewrite <- mem_id. destruct (existsb _ l); split; congruence.
Qed.

Lemma has_case_iff (s : Store) (c : Z) : has_case s c = true <-> In c (case_ids s).
Proof. apply mem_id. Qed.

Lemma has_suspect_iff (s : Store) (x : Z) :
  has_suspect s x = true <-> In x (suspect_ids s).
Proof. apply mem_id. Qed.

Lemma has_project_iff (s : Store) (p : Z) :
  has_project s p = true <-> In p (project_ids s).
Proof. apply mem_id. Qed.

Lemma keep_In {A} (m : A -> bool) (l : list A) (x : A) :
  In x (keep m l) <-> In x l /\ m x = false.
Proof. unfold keep. rewrite filter_In, negb_true_iff. tauto. Qed.

Lemma keep_none {A} (m : A -> bool) (l : list A) :
  existsb m l = false -> keep m l = l.
Proof.
  unfold keep. induction l as [|y l IH]; simpl; [reflexivity|].
  rewrite orb_false_iff. intros [-> H]. simpl. now rewrite IH.
Qed.

Lemma keep_id_absent {A} (key : A -> Z) (l : list A) (c : Z) :
  ~ In c (map key l) -> keep (fun r => key r =? c) l = l.
Proof. intros H. apply keep_none. now apply not_mem_id. Qed.

Lemma keep_removes {A} (key : A -> Z) (l : list A) (c : Z) :
  ~ In c (map key (keep (fun r => key r =? c) l)).
Proof.
  rewrite in_map_iff. intros [r [E H]]. apply keep_In in H.
  destruct H as [_ H]. apply Z.eqb_neq in H. congruence.
Qed.

Lemma filter_keep_nil {A} (m : A -> bool) (l : list A) :
  filter m (keep m l) = [].
Proof.
  unfold keep. induction l as [|y l IH]; simpl; [reflexivity|].
  destruct (m y) eqn:E; simpl; [assumption|]. now rewrite E.
Qed.

Lemma NoDup_map_filter {A B} (f : A -> B) (g : A -> bool) (l : list A) :
  NoDup (map f l) -> NoDup (map f (filter g l)).
Proof.
  induction l as [|y l IH]; simpl; [trivial|].
  intros H. apply NoDup_cons_iff in H. destruct H as [Hy Hl].
  destruct (g y); simpl; [|auto].
  constructor; [|auto].
  rewrite in_map_iff in *. intros [x [E Hx]]. apply Hy.
  exists x. apply filter_In in Hx. tauto.
Qed.

Lemma NoDup_map_keep {A B} (f : A -> B) (m : A -> bool) (l : list A) :
  NoDup (map f l) -> NoDup (map f (keep m l)).
Proof. apply NoDup_map_filter. Qed.

Lemma NoDup_map_snoc {A B} (f : A -> B) (l : list A) (x : A) :
  NoDup (map f l) -> ~ In (f x) (map f l) -> NoDup (map f (l ++ [x])).
Proof.
  intros Hl Hx. rewrite map_app. simpl.
  apply NoDup_app; [assumption | repeat constructor; simpl; tauto |].
  intros y Hy [<-|[]]. contradiction.
Qed.

Lemma NoDup_ids_snoc {A} (key : A -> Z) (l : list A) (x : A) :
  NoDup (map key l) -> key x = next_rowid (map key l) ->
  NoDup (map key (l ++ [x])).
Proof.
  intros Hl E. apply NoDup_map_snoc; [assumption|].
  rewrite E. apply next_rowid_fresh.
Qed.

Lemma find_snoc_fresh {A} (key : A -> Z) (l : list A) (x : A) (c : Z) :
  key x = c -> ~ In c (map key l) ->
  find (fun r => key r =? c) (l ++ [x]) = Some x.
Proof.
  intros <-. induction l as [|y l IH]; simpl; intros H.
  - now rewrite Z.eqb_refl.
  - destruct (key y =? key x) eqn:E.
    + apply Z.eqb_eq in E. tauto.
    + apply IH. tauto.
Qed.

(** ** ORDER BY *)

Section OrderByFacts.
Variable A : Type.
Variable before : A -> A -> bool.
Hypothesis before_total : forall x y, before x y = true \/ before y x = true.
Hypothesis before_trans :
  forall x y z, before x y = true -> before y z = true -> before x z = true.

Lemma insert_row_perm (x : A) (l : list A) :
  Permutation (x :: l) (insert_row before x l).
Proof.
  induction l as [|y l IH]; simpl; [reflexivity|].
  destruct (before x y); [reflexivity|].
  rewrite perm_swap. now apply perm_skip.
Qed.

Lemma insert_row_sorted (x : A) (l : list A) :
  StronglySorted (fun a b => before a b = true) l ->
  StronglySorted (fun a b => before a b = true) (insert_row before x l).
Proof.
  induction 1 as [|y l Hl IH Hy]; simpl.
  - repeat constructor.
  - destruct (before x y) eqn:E.
    + constructor; [now constructor|].
      constructor; [assumption|].
      eapply Forall_impl; [|exact Hy]. intros z Hz. now apply before_trans with y.
    + constructor; [assumption|].
      assert (Hyx : before y x = true)
        by (destruct (before_total x y); congruence).
      eapply Permutation_Forall; [apply insert_row_perm|].
      now constructor.
Qed.

Lemma order_by_ordered (rows : list A) :
  ordered_result before rows (order_by before rows).
Proof.
  unfold ordered_result, order_by. induction rows as [|x rows [IHp IHs]]; simpl.
  - split; constructor.
  - split.
    + rewrite <- insert_row_perm. now apply perm_skip.
    + now apply insert_row_sorted.
Qed.
End OrderByFacts.

Lemma ordered_result_In {A} (before : A -> A -> bool) (rows out : list A) (x : A) :
  ordered_result before rows out -> (In x out <-> In x rows).
Proof.
  intros [Hp _]. split; intros H.
  - eapply Permutation_in; [symmetry; exact Hp | exact H].
  - eapply Permutation_in; [exact Hp | exact H].
Qed.

Lemma ascii_compare_trans_le (a b c : ascii) :
  Ascii.compare a b <> Gt -> Ascii.compare b c <> Gt ->
  Ascii.compare a c <> Gt
  /\ (Ascii.compare a c = Eq -> Ascii.compare a b = Eq /\ Ascii.compare b c = Eq).
Proof.
  unfold Ascii.compare.
  rewrite !N.compare_gt_iff, !N.compare_eq_iff. intros H1 H2. split; lia.
Qed.

Lemma string_leb_trans (a b c : string) :
  String.leb a b = true -> String.leb b c = true -> String.leb a c = true.
Proof.
  unfold String.leb. revert b c.
  induction a as [|x a IH]; intros [|y b] [|z c]; simpl; try congruence.
  intros H1 H2.
  assert (Hxy : Ascii.compare x y <> Gt) by (destruct (Ascii.compare x y); congruence).
  assert (Hyz : Ascii.compare y z <> Gt) by (destruct (Ascii.compare y z); congruence).
  destruct (ascii_compare_trans_le _ _ _ Hxy Hyz) as [Hxz Heq].
  destruct (Ascii.compare x z) eqn:E; try congruence.
  destruct (Heq eq_refl) as [E1 E2]. rewrite E1 in H1. rewrite E2 in H2.
  now apply IH with b.
Qed.

Lemma desc_total {A} (key : A -> string) (x y : A) :
  desc key x y = true \/ desc key y x = true.
Proof. unfold desc. apply String.leb_total. Qed.

Lemma desc_trans {A} (key : A -> string) (x y z : A) :
  desc key x y = true -> desc key y z = true -> desc key x z = true.
Proof. unfold desc. intros H1 H2. now apply string_leb_trans with (key y). Qed.

Lemma asc_total {A} (key : A -> Z) (x y : A) :
  asc key x y = true \/ asc key y x = true.
Proof. unfold asc. rewrite !Z.leb_le. lia. Qed.

Lemma asc_trans {A} (key : A -> Z) (x y z : A) :
  asc key x y = true -> asc key y z = true -> asc key x z = true.
Proof. unfold asc. rewrite !Z.leb_le. lia. Qed.

Lemma string_compare_refl (a : string) : String.compare a a = Eq.
Proof.
  pose proof (String.compare_antisym a a) as H.
  destruct (String.compare a a); simpl in H; congruence.
Qed.

Lemma string_compare_lt_leb (a b : string) :
  String.compare a b = Lt -> String.leb a b = true /\ String.leb b a = false.
Proof.
  intros H. unfold String.leb. rewrite (String.compare_antisym b a), H. auto.
Qed.

Lemma string_compare_lt_trans (a b c : string) :
  String.compare a b = Lt -> String.compare b c = Lt -> String.compare a c = Lt.
Proof.
  intros H1 H2.
  destruct (string_compare_lt_leb _ _ H1) as [L1 N1].
  destruct (string_compare_lt_leb _ _ H2) as [L2 N2].
  pose proof (string_leb_trans _ _ _ L1 L2) as L.
  destruct (String.compare a c) eqn:E; [| reflexivity |].
  - apply String.compare_eq_iff in E. subst c.
    pose proof (String.leb_antisym _ _ L1 L2). subst b.
    rewrite string_compare_refl in H1. discriminate.
  - unfold String.leb in L. rewrite E in L. discriminate.
Qed.

Lemma history_before_total (x y : CrimeHistory.row) :
  history_before x y = true \/ history_before y x = true.
Proof.
  unfold history_before.
  destruct (CrimeHistory.date_of_crime x) as [dx|],
           (CrimeHistory.date_of_crime y) as [dy|];
    auto; try apply String.leb_total.
  rewrite (String.compare_antisym dx dy).
  destruct (String.compare dy dx) eqn:E; simpl; auto; apply String.leb_total.
Qed.

Lemma history_before_trans (x y z : CrimeHistory.row) :
  history_before x y = true -> history_before y z = true ->
  history_before x z = true.
Proof.
  unfold history_before.
  destruct (CrimeHistory.date_of_crime x) as [dx|],
           (CrimeHistory.date_of_crime y) as [dy|],
           (CrimeHistory.date_of_crime z) as [dz|];
    intros H1 H2; try discriminate; try reflexivity;
    [| exact (string_leb_trans _ _ _ H2 H1)].
  destruct (String.compare dy dx) eqn:E1; try discriminate;
    destruct (String.compare dz dy) eqn:E2; try discriminate.
  - apply String.compare_eq_iff in E1, E2. subst. rewrite string_compare_refl.
    exact (string_leb_trans _ _ _ H2 H1).
  - apply String.compare_eq_iff in E1. subst. now rewrite E2.
  - apply String.compare_eq_iff in E2. subst. now rewrite E1.
  - now rewrite (string_compare_lt_trans _ _ _ E2 E1).
Qed.

(** ** Cascading deletes *)

Lemma keep_ext {A} (m1 m2 : A -> bool) (l : list A) :
  (forall r, m1 r = m2 r) -> keep m1 l = keep m2 l.
Proof. intros H. unfold keep. apply filter_ext. intros r. now rewrite H. Qed.

Lemma keep_keep_or {A} (m1 m2 : A -> bool) (l : list A) :
  keep m2 (keep m1 l) = keep (fun r => m1 r || m2 r) l.
Proof.
  unfold keep. induction l as [|y l IH]; simpl; [reflexivity|].
  destruct (m1 y); simpl; [assumption|]. destruct (m2 y); simpl; now rewrite IH.
Qed.

(** The rows deleted by [WHERE id = c] take with them the children whose
    key is [c], when there is such a row, and none otherwise. *)
Lemma names_deleted {A} (key : A -> Z) (c x : Z) (l : list A) :
  existsb (fun d => key d =? x) (filter (fun d => key d =? c) l)
  = (x =? c) && existsb (fun d => key d =? c) l.
Proof.
  induction l as [|y l IH]; simpl; [now rewrite andb_false_r|].
  destruct (Z.eqb_spec (key y) c) as [E|E]; simpl.
  - rewrite IH, E. destruct (Z.eqb_spec c x) as [<-|N].
    + now rewrite Z.eqb_refl.
    + simpl. destruct (Z.eqb_spec x c); [congruence | reflexivity].
  - exact IH.
Qed.

Lemma cascade_present {A B} (key : A -> Z) (fk : B -> Z) (c : Z)
    (l : list A) (children : list B) :
  existsb (fun d => key d =? c) l = true ->
  cascade key fk (filter (fun d => key d =? c) l) children
  = keep (fun r => fk r =? c) children.
Proof.
  intros H. unfold cascade. apply keep_ext. intros r.
  now rewrite names_deleted, H, andb_true_r.
Qed.

Lemma cascade_absent {A B} (key : A -> Z) (fk : B -> Z) (c : Z)
    (l : list A) (children : list B) :
  existsb (fun d => key d =? c) l = false ->
  cascade key fk (filter (fun d => key d =? c) l) children = children.
Proof.
  intros H. unfold cascade. apply keep_none, existsb_false_iff. intros r _.
  now rewrite names_deleted, H, andb_false_r.
Qed.

Lemma delete_case_cases (s : Store) (c : Z) :
  delete_case s c =
  if has_case s c then
    Ok (mkStore
          (keep (fun r => Case.id r =? c) (cases s))
          (keep (fun r => CaseCrimeType.case_id r =? c) (case_crime_types s))
          (keep (fun r => CaseTag.case_id r =? c) (case_tags s))
          (suspects s)
          (suspect_crime_history s)
          (keep (fun r => SuspectCaseLink.case_id r =? c) (suspect_case_links s))
          (keep (fun r => (CaseLink.case_id_1 r =? c) || (CaseLink.case_id_2 r =? c))
                (case_links s))
          (keep (fun r => TimelineEvent.case_id r =? c) (timeline_events s))
          (projects s)
          (keep (fun r => ProjectCase.case_id r =? c) (project_cases s)))
  else Ok s.
Proof.
  unfold delete_case, has_case.
  destruct (existsb (fun r => Case.id r =? c) (cases s)) eqn:E.
  - rewrite !cascade_present by assumption. now rewrite keep_keep_or.
  - rewrite !cascade_absent by assumption. rewrite keep_none by assumption.
    now destruct s.
Qed.

Lemma delete_suspect_cases (s : Store) (x : Z) :
  delete_suspect s x =
  if has_suspect s x then
    Ok (mkStore
          (cases s) (case_crime_types s) (case_tags s)
          (keep (fun r => Suspect.id r =? x) (suspects s))
          (keep (fun r => CrimeHistory.suspect_id r =? x) (suspect_crime_history s))
          (keep (fun r => SuspectCaseLink.suspect_id r =? x) (suspect_case_links s))
          (case_links s) (timeline_events s) (projects s) (project_cases s))
  else Ok s.
Proof.
  unfold delete_suspect, has_suspect.
  destruct (existsb (fun r => Suspect.id r =? x) (suspects s)) eqn:E.
  - now rewrite !cascade_present by assumption.
  - rewrite !cascade_absent by assumption. rewrite keep_none by assumption.
    now destruct s.
Qed.

Lemma delete_project_cases (s : Store) (p : Z) :
  delete_project s p =
  if has_project s p then
    Ok (with_project_cases
          (keep (fun r => ProjectCase.project_id r =? p) (project_cases s))
          (with_projects (keep (fun r => Project.id r =? p) (projects s)) s))
  else Ok s.
Proof.
  unfold delete_project, has_project.
  destruct (existsb (fun r => Project.id r =? p) (projects s)) eqn:E.
  - now rewrite !cascade_present by assumption.
  - rewrite !cascade_absent by assumption. rewrite keep_none by assumption.
    now destruct s.
Qed.

(** ** Deleting by an id that is not there *)

(** C10.  For an identifier that no row of the corresponding table carries,
    each delete operation ([delete_case], [delete_suspect],
    [delete_suspect_case_link], [delete_case_link], [delete_timeline_event],
    [delete_suspect_crime_history_entry], [delete_project]) returns without
    an error and leaves the whole store as it was. *)
Theorem delete_absent_id_changes_nothing (s : Store) (x : Z) :
  (~ In x (case_ids s) -> delete_case s x = Ok s)
  /\ (~ In x (suspect_ids s) -> delete_suspect s x = Ok s)
  /\ (~ In x (map SuspectCaseLink.id (suspect_case_links s)) ->
      delete_suspect_case_link s x = Ok s)
  /\ (~ In x (map CaseLink.id (case_links s)) -> delete_case_link s x = Ok s)
  /\ (~ In x (map TimelineEvent.id (timeline_events s)) ->
      delete_timeline_event s x = Ok s)
  /\ (~ In x (map CrimeHistory.id (suspect_crime_history s)) ->
      delete_suspect_crime_history_entry s x = Ok s)
  /\ (~ In x (project_ids s) -> delete_project s x = Ok s).
Proof.
  repeat split; intros H.
  - rewrite delete_case_cases. apply not_mem_id in H. unfold has_case. now rewrite H.
  - rewrite delete_suspect_cases. apply not_mem_id in H. unfold has_suspect.
    now rewrite H.
  - unfold delete_suspect_case_link. rewrite (keep_id_absent _ _ _ H).
    now destruct s.
  - unfold delete_case_link. rewrite (keep_id_absent _ _ _ H). now destruct s.
  - unfold delete_timeline_event. rewrite (keep_id_absent _ _ _ H). now destruct s.
  - unfold delete_suspect_crime_history_entry. rewrite (keep_id_absent _ _ _ H).
    now destruct s.
  - rewrite delete_project_cases. apply not_mem_id in H. unfold has_project.
    now rewrite H.
Qed.

Lemma delete_absent_id_changes_nothing_witness :
  delete_case sample_store 7 = Ok sample_store
  /\ delete_suspect sample_store 7 = Ok sample_store
  /\ delete_suspect_case_link sample_store 7 = Ok sample_store
  /\ delete_case_link sample_store 7 = Ok sample_store
  /\ delete_timeline_event sample_store 7 = Ok sample_store
  /\ delete_suspect_crime_history_entry sample_store 7 = Ok sample_store
  /\ delete_project sample_store 7 = Ok sample_store.
Proof.
  destruct (delete_absent_id_changes_nothing sample_store 7)
    as (H1 & H2 & H3 & H4 & H5 & H6 & H7).
  refine (conj (H1 _) (conj (H2 _) (conj (H3 _) (conj (H4 _)
            (conj (H5 _) (conj (H6 _) (H7 _)))))));
    simpl; intros H; decompose [or] H; try discriminate; assumption.
Defined.

(** ** Empty text is stored as NULL *)

Lemma snoc_row_by_id {A} (key : A -> Z) (tbl : list A) (new r : A) :
  key new = next_rowid (map key tbl) ->
  In r (tbl ++ [new]) -> key r = key new -> r = new.
Proof.
  intros Hnew Hin E. apply in_app_or in Hin. destruct Hin as [Hin|[<-|[]]]; [|reflexivity].
  exfalso. apply (next_rowid_fresh (map key tbl)).
  rewrite <- Hnew, <- E. now apply in_map.
Qed.

Lemma links_with_names_In (s : Store) (c : Z) (scl : SuspectCaseLink.row) (n : string) :
  In (scl, n) (links_with_names s c) <->
  In scl (suspect_case_links s) /\ SuspectCaseLink.case_id scl = c
  /\ exists su, In su (suspects s)
                /\ SuspectCaseLink.suspect_id scl = Suspect.id su
                /\ n = Suspect.name su.
Proof.
  unfold links_with_names. rewrite in_flat_map. split.
  - intros [l [Hl H]]. apply filter_In in Hl. destruct Hl as [Hl Hc].
    apply in_map_iff in H. destruct H as [su [E Hsu]].
    apply filter_In in Hsu. destruct Hsu as [Hsu Hid].
    injection E as <- <-. apply Z.eqb_eq in Hc, Hid. eauto 8.
  - intros [Hl [Hc [su [Hsu [Hid ->]]]]]. exists scl. split.
    + apply filter_In. split; [assumption | now apply Z.eqb_eq].
    + apply in_map_iff. exists su. split; [reflexivity|].
      apply filter_In. split; [assumption | now apply Z.eqb_eq].
Qed.

(** C9.  An optional free-text argument given as the empty string is stored
    as NULL, and NULL is what the matching read returns: the crime-scene
    address, body-found address, MO description and victim profile of
    [add_case] (read back by [get_case]); the notes of
    [add_suspect_crime_history] and of [link_suspect_to_case], the
    description of [add_timeline_event] and of [add_project]. *)
Theorem empty_text_is_stored_as_null (now : string) (s : Store) :
  (forall title date status mo vp im vc csa clat clon bfa blat blon,
      exists s' id r,
        add_case now s title date status mo vp im vc csa clat clon bfa blat blon
          = Ok (s', id)
        /\ get_case s' id = Some r
        /\ (csa = "" -> Case.crime_scene_address r = None)
        /\ (bfa = "" -> Case.body_found_address r = None)
        /\ (mo = "" -> Case.mo_description r = None)
        /\ (vp = "" -> Case.victim_profile r = None))
  /\ (forall x ct d cs,
         In x (suspect_ids s) ->
         exists s' id,
           add_suspect_crime_history now s x ct d cs "" = Ok (s', id)
           /\ (exists out, get_suspect_crime_history s' x out)
           /\ forall out, get_suspect_crime_history s' x out ->
                (exists r, In r out /\ CrimeHistory.id r = id)
                /\ forall r, In r out -> CrimeHistory.id r = id ->
                             CrimeHistory.notes r = None)
  /\ (forall x c t,
         In x (suspect_ids s) -> In c (case_ids s) ->
         ~ In (x, c, t)
              (map (fun r => (SuspectCaseLink.suspect_id r, SuspectCaseLink.case_id r,
                              SuspectCaseLink.connection_type r))
                   (suspect_case_links s)) ->
         exists s' id,
           link_suspect_to_case now s x c t "" = Ok (s', id)
           /\ (exists out, get_suspect_links_for_case s' c out)
           /\ forall out, get_suspect_links_for_case s' c out ->
                (exists r, In r out /\ SuspectCaseLink.id (fst r) = id)
                /\ forall r, In r out -> SuspectCaseLink.id (fst r) = id ->
                             SuspectCaseLink.notes (fst r) = None)
  /\ (forall c ts title,
         In c (case_ids s) ->
         exists s' id,
           add_timeline_event now s c ts title "" = Ok (s', id)
           /\ (exists out, get_timeline_events s' c out)
           /\ forall out, get_timeline_events s' c out ->
                (exists r, In r out /\ TimelineEvent.id r = id)
                /\ forall r, In r out -> TimelineEvent.id r = id ->
                             TimelineEvent.description r = None)
  /\ (forall name,
         ~ In name (map Project.name (projects s)) ->
         exists s' id r,
           add_project now s name "" = Ok (s', id)
           /\ get_project s' id = Some r
           /\ Project.description r = None).
Proof.
  repeat apply conj.
  - intros. eexists _, _, _. split; [reflexivity|]. split.
    + unfold get_case. simpl.
      apply (find_snoc_fresh Case.id (cases s)); [reflexivity|].
      apply next_rowid_fresh.
    + simpl. repeat split; intros ->; reflexivity.
  - intros x ct d cs Hx. unfold add_suspect_crime_history.
    apply has_suspect_iff in Hx. rewrite Hx.
    eexists _, _. split; [reflexivity|]. split.
    + eexists. apply order_by_ordered;
        [apply history_before_total | apply history_before_trans].
    + intros out Hout. split.
      * eexists. split;
          [ apply (ordered_result_In _ Hout); simpl; apply filter_In;
            split; [apply in_or_app; right; now left | apply Z.eqb_refl]
          | reflexivity ].
      * intros r Hr E. apply (ordered_result_In _ Hout) in Hr.
        apply filter_In in Hr. destruct Hr as [Hr _]. simpl in Hr.
        apply (snoc_row_by_id CrimeHistory.id) in Hr; [now subst r | reflexivity | exact E].
  - intros x c t Hx Hc Hu. unfold link_suspect_to_case.
    assert (Hdup : existsb
              (fun r => (SuspectCaseLink.suspect_id r =? x)
                        && (SuspectCaseLink.case_id r =? c)
                        && (SuspectCaseLink.connection_type r =? t)%string)
              (suspect_case_links s) = false).
    { apply existsb_false_iff. intros r Hr.
      destruct (_ && _) eqn:E; [|reflexivity]. exfalso. apply Hu.
      apply andb_prop in E. destruct E as [E E3].
      apply andb_prop in E. destruct E as [E1 E2].
      apply Z.eqb_eq in E1, E2. apply String.eqb_eq in E3. subst.
      apply in_map_iff. now exists r. }
    rewrite Hdup. pose proof Hx as Hx'.
    apply has_suspect_iff in Hx. apply has_case_iff in Hc. rewrite Hx, Hc. simpl.
    eexists _, _. split; [reflexivity|]. split.
    + eexists. apply order_by_ordered; [apply desc_total | apply desc_trans].
    + intros out Hout. split.
      * apply in_map_iff in Hx'. destruct Hx' as [su [Esu Hsu]].
        eexists (_, Suspect.name su). split;
          [ apply (ordered_result_In _ Hout); apply links_with_names_In; simpl;
            split; [apply in_or_app; right; now left|];
            split; [reflexivity|]; exists su; auto
          | reflexivity ].
      * intros [r n] Hr E. apply (ordered_result_In _ Hout) in Hr.
        apply links_with_names_In in Hr. destruct Hr as [Hr _]. simpl in *.
        apply (snoc_row_by_id SuspectCaseLink.id) in Hr;
          [now subst r | reflexivity | exact E].
  - intros c ts title Hc. unfold add_timeline_event.
    apply has_case_iff in Hc. rewrite Hc.
    eexists _, _. split; [reflexivity|]. split.
    + eexists. apply order_by_ordered; [apply desc_total | apply desc_trans].
    + intros out Hout. split.
      * eexists. split;
          [ apply (ordered_result_In _ Hout); simpl; apply filter_In;
            split; [apply in_or_app; right; now left | apply Z.eqb_refl]
          | reflexivity ].
      * intros r Hr E. apply (ordered_result_In _ Hout) in Hr.
        apply filter_In in Hr. destruct Hr as [Hr _]. simpl in Hr.
        apply (snoc_row_by_id TimelineEvent.id) in Hr;
          [now subst r | reflexivity | exact E].
  - intros name Hn. unfold add_project.
    assert (Hdup : existsb (fun r => (Project.name r =? name)%string) (projects s) = false).
    { apply existsb_false_iff. intros r Hr.
      destruct (String.eqb_spec (Project.name r) name); [|reflexivity].
      exfalso. apply Hn. apply in_map_iff. now exists r. }
    rewrite Hdup. eexists _, _, _. split; [reflexivity|]. split.
    + unfold get_project. simpl.
      apply (find_snoc_fresh Project.id (projects s)); [reflexivity|].
      apply next_rowid_fresh.
    + reflexivity.
Qed.

Lemma empty_text_is_stored_as_null_witness :
  (exists s' id r,
      add_case "t9" sample_store "Roe File" "2001-01-01" "Active" "" "" false None
        "" None None "" None None = Ok (s', id)
      /\ get_case s' id = Some r
      /\ Case.crime_scene_address r = None
      /\ Case.body_found_address r = None
      /\ Case.mo_description r = None
      /\ Case.victim_profile r = None)
  /\ (exists s' id,
         add_suspect_crime_history "t9" sample_store 1 "Fraud" None "Suspected" ""
           = Ok (s', id)
         /\ exists out, get_suspect_crime_history s' 1 out)
  /\ (exists s' id,
         link_suspect_to_case "t9" sample_store 1 1 "Known Associate" ""
           = Ok (s', id)
         /\ exists out, get_suspect_links_for_case s' 1 out)
  /\ (exists s' id,
         add_timeline_event "t9" sample_store 1 "1999-03-06 10:00:00" "Autopsy" ""
           = Ok (s', id)
         /\ exists out, get_timeline_events s' 1 out)
  /\ (exists s' id r,
         add_project "t9" sample_store "Riverside" "" = Ok (s', id)
         /\ get_project s' id = Some r
         /\ Project.description r = None).
Proof.
  destruct (empty_text_is_stored_as_null "t9" sample_store)
    as (H1 & H2 & H3 & H4 & H5).
  refine (conj _ (conj _ (conj _ (conj _ _)))).
  - destruct (H1 "Roe File" "2001-01-01" "Active" "" "" false None
                 "" None None "" None None)
      as (s' & id & r & E & G & A & B & C & D).
    exists s', id, r. auto 10.
  - destruct (H2 1 "Fraud" None "Suspected") as (s' & id & E & O & _).
    + simpl. auto.
    + exists s', id. auto.
  - destruct (H3 1 1 "Known Associate") as (s' & id & E & O & _).
    + simpl. auto.
    + simpl. auto.
    + simpl. intros [H|[]]. discriminate.
    + exists s', id. auto.
  - destruct (H4 1 "1999-03-06 10:00:00" "Autopsy") as (s' & id & E & O & _).
    + simpl. auto.
    + exists s', id. auto.
  - destruct (H5 "Riverside") as (s' & id & r & E & G & D).
    + simpl. intros [H|[]]. discriminate.
    + exists s', id, r. auto.
Defined.

(** ** Rows an operation keeps, adds or rewrites *)

Lemma refs_keep {A} (fk : A -> Z) (ids : list Z) (m : A -> bool) (tbl : list A) :
  refs fk ids tbl -> refs fk ids (keep m tbl).
Proof.
  unfold refs. rewrite !Forall_forall. intros H r Hr.
  apply keep_In in Hr. now apply H.
Qed.

Lemma refs_snoc {A} (fk : A -> Z) (ids : list Z) (tbl : list A) (x : A) :
  refs fk ids tbl -> In (fk x) ids -> refs fk ids (tbl ++ [x]).
Proof.
  unfold refs. intros H Hx. apply Forall_app. split; [assumption|].
  now repeat constructor.
Qed.

Lemma refs_parent_snoc {A B} (fk : A -> Z) (key : B -> Z) (l : list B) (x : B)
    (tbl : list A) :
  refs fk (map key l) tbl -> refs fk (map key (l ++ [x])) tbl.
Proof.
  unfold refs. apply Forall_impl. intros r Hr.
  rewrite map_app. apply in_or_app. now left.
Qed.

Lemma refs_cascade {A B} (fk : A -> Z) (key : B -> Z) (c : Z) (m : A -> bool)
    (l : list B) (tbl : list A) :
  (forall r, m r = false -> fk r <> c) ->
  refs fk (map key l) tbl ->
  refs fk (map key (keep (fun p => key p =? c) l)) (keep m tbl).
Proof.
  unfold refs. rewrite !Forall_forall. intros Hm H r Hr.
  apply keep_In in Hr. destruct Hr as [Hr Hmr].
  specialize (H r Hr). apply in_map_iff in H. destruct H as [p [E Hp]].
  apply in_map_iff. exists p. split; [assumption|].
  apply keep_In. split; [assumption|].
  apply Z.eqb_neq. rewrite E. now apply Hm.
Qed.

Lemma map_key_rewrite {A} (key : A -> Z) (f : A -> A) (m : A -> bool) (l : list A) :
  (forall r, key (f r) = key r) ->
  map key (map (fun r => if m r then f r else r) l) = map key l.
Proof.
  intros Hf. rewrite map_map. apply map_ext. intros r.
  destruct (m r); [apply Hf | reflexivity].
Qed.

Lemma map_key_map {A} (key : A -> Z) (f : A -> A) (l : list A) :
  (forall r, key (f r) = key r) -> map key (map f l) = map key l.
Proof. intros Hf. rewrite map_map. now apply map_ext. Qed.

Lemma case_update_id (fields : list Case.assignment) (r : Case.row) :
  Case.id (Case.update fields r) = Case.id r.
Proof.
  unfold Case.update. revert r.
  induction fields as [|a fields IH]; intros r; simpl; [reflexivity|].
  rewrite IH. now destruct a.
Qed.

Lemma suspect_update_id (fields : list Suspect.assignment) (r : Suspect.row) :
  Suspect.id (Suspect.update fields r) = Suspect.id r.
Proof.
  unfold Suspect.update. revert r.
  induction fields as [|a fields IH]; intros r; simpl; [reflexivity|].
  rewrite IH. now destruct a.
Qed.

Lemma project_update_id (fields : list Project.assignment) (r : Project.row) :
  Project.id (Project.update fields r) = Project.id r.
Proof.
  unfold Project.update. revert r.
  induction fields as [|a fields IH]; intros r; simpl; [reflexivity|].
  rewrite IH. now destruct a.
Qed.

Lemma copy_location_id (r : Case.row) : Case.id (copy_location r) = Case.id r.
Proof.
  unfold copy_location.
  now destruct (Case.crime_scene_lat r), (Case.latitude r).
Qed.

Lemma migrate_status_row_id (r : Case.row) :
  Case.id (migrate_status_row r) = Case.id r.
Proof.
  unfold migrate_status_row.
  destruct (_ || _); simpl; try reflexivity;
    match goal with |- context [if ?b then _ else _] => now destruct b end.
Qed.

(** The loop of [set_case_crime_types] keeps what holds of every row and
    of the keys. *)
Lemma insert_crime_types_rows (P : CaseCrimeType.row -> Prop) parent c :
  forall cts i tbl tbl',
    insert_crime_types parent c i cts tbl = Ok tbl' ->
    (parent = true -> forall id ct k, P (CaseCrimeType.mk id c ct k)) ->
    Forall P tbl -> Forall P tbl'.
Proof.
  induction cts as [|ct cts IH]; simpl; intros i tbl tbl' H Hnew Htbl.
  - now injection H as <-.
  - destruct (existsb _ tbl); [now apply IH with (i + 1) tbl|].
    destruct parent; [|discriminate].
    apply IH with (i + 1) (tbl ++ [CaseCrimeType.mk (next_rowid (map CaseCrimeType.id tbl)) c ct i])%list;
      try assumption.
    apply Forall_app. split; [assumption|]. repeat constructor. now apply Hnew.
Qed.

Lemma pair_key_absent {A} (k1 : A -> Z) (k2 : A -> string) (c : Z) (t : string)
    (tbl : list A) :
  existsb (fun r => (k1 r =? c) && (k2 r =? t)%string) tbl = false ->
  ~ In (c, t) (map (fun r => (k1 r, k2 r)) tbl).
Proof.
  intros H Hin. apply in_map_iff in Hin. destruct Hin as [r [E Hr]].
  injection E as E1 E2.
  rewrite existsb_false_iff in H. specialize (H r Hr).
  apply Z.eqb_eq in E1. apply String.eqb_eq in E2. rewrite E1, E2 in H. discriminate.
Qed.

Lemma insert_crime_types_keys parent c :
  forall cts i tbl tbl',
    insert_crime_types parent c i cts tbl = Ok tbl' ->
    NoDup (map CaseCrimeType.id tbl) /\
    NoDup (map (fun r => (CaseCrimeType.case_id r, CaseCrimeType.crime_type r)) tbl) ->
    NoDup (map CaseCrimeType.id tbl') /\
    NoDup (map (fun r => (CaseCrimeType.case_id r, CaseCrimeType.crime_type r)) tbl').
Proof.
  induction cts as [|ct cts IH]; simpl; intros i tbl tbl' H [Hid Hkey].
  - injection H as <-. now split.
  - destruct (existsb _ tbl) eqn:E; [now apply IH with (i + 1) tbl|].
    destruct parent; [|discriminate].
    eapply IH; [exact H|]. split.
    + now apply NoDup_ids_snoc.
    + apply NoDup_map_snoc; [assumption|]. simpl.
      now apply (pair_key_absent CaseCrimeType.case_id CaseCrimeType.crime_type).
Qed.

Lemma insert_tags_rows (P : CaseTag.row -> Prop) parent c :
  forall tags tbl tbl',
    insert_tags parent c tags tbl = Ok tbl' ->
    (parent = true -> forall id t, P (CaseTag.mk id c t)) ->
    Forall P tbl -> Forall P tbl'.
Proof.
  induction tags as [|t tags IH]; simpl; intros tbl tbl' H Hnew Htbl.
  - now injection H as <-.
  - destruct (existsb _ tbl); [now apply IH with tbl|].
    destruct parent; [|discriminate].
    apply IH with (tbl ++ [CaseTag.mk (next_rowid (map CaseTag.id tbl)) c t])%list;
      try assumption.
    apply Forall_app. split; [assumption|]. repeat constructor. now apply Hnew.
Qed.

Lemma insert_tags_keys parent c :
  forall tags tbl tbl',
    insert_tags parent c tags tbl = Ok tbl' ->
    NoDup (map CaseTag.id tbl) /\
    NoDup (map (fun r => (CaseTag.case_id r, CaseTag.tag r)) tbl) ->
    NoDup (map CaseTag.id tbl') /\
    NoDup (map (fun r => (CaseTag.case_id r, CaseTag.tag r)) tbl').
Proof.
  induction tags as [|t tags IH]; simpl; intros tbl tbl' H [Hid Hkey].
  - injection H as <-. now split.
  - destruct (existsb _ tbl) eqn:E; [now apply IH with tbl|].
    destruct parent; [|discriminate].
    eapply IH; [exact H|]. split.
    + now apply NoDup_ids_snoc.
    + apply NoDup_map_snoc; [assumption|]. simpl.
      now apply (pair_key_absent CaseTag.case_id CaseTag.tag).
Qed.

(** ** [migrate_db] on the current schema *)

Lemma migrate_db_current_schema (s : Store) :
  migrate_db (mkDb current_schema s)
  = (mkDb current_schema (rename_statuses (move_crime_types true (copy_locations s))),
     Ok tt).
Proof. reflexivity. Qed.

Lemma migrate_store_steps (s : Store) :
  migrate_store s = rename_statuses (move_crime_types true (copy_locations s)).
Proof. reflexivity. Qed.

Lemma mark_migrated_id (r : Case.row) : Case.id (mark_migrated r) = Case.id r.
Proof. unfold mark_migrated. now destruct (not_migrated r). Qed.

(** What one row of step 4 leaves alone. *)
Lemma migrate_crime_type_row_others (b : bool) (s : Store) (r : Case.row) :
  let s' := migrate_crime_type_row b s r in
  cases s' = cases s /\ case_tags s' = case_tags s /\ suspects s' = suspects s
  /\ suspect_crime_history s' = suspect_crime_history s
  /\ suspect_case_links s' = suspect_case_links s
  /\ case_links s' = case_links s /\ timeline_events s' = timeline_events s
  /\ projects s' = projects s /\ project_cases s' = project_cases s.
Proof.
  unfold migrate_crime_type_row. destruct b; [|now repeat split].
  destruct (insert_crime_types _ _ _ _ _); now repeat split.
Qed.

Lemma migrate_crime_type_rows_others (b : bool) (sel : list Case.row) :
  forall s,
    let s' := fold_left (migrate_crime_type_row b) sel s in
    cases s' = cases s /\ case_tags s' = case_tags s /\ suspects s' = suspects s
    /\ suspect_crime_history s' = suspect_crime_history s
    /\ suspect_case_links s' = suspect_case_links s
    /\ case_links s' = case_links s /\ timeline_events s' = timeline_events s
    /\ projects s' = projects s /\ project_cases s' = project_cases s.
Proof.
  induction sel as [|r sel IH]; intros s; simpl; [now repeat split|].
  destruct (IH (migrate_crime_type_row b s r)) as (H1 & H2 & H3 & H4 & H5 & H6 & H7 & H8 & H9).
  destruct (migrate_crime_type_row_others b s r)
    as (G1 & G2 & G3 & G4 & G5 & G6 & G7 & G8 & G9).
  simpl in *. repeat split; congruence.
Qed.

(** What the inserts of step 4 keep: a property of every row, and the keys. *)
Lemma migrate_crime_type_rows_refs (b : bool) (sel : list Case.row) :
  forall s,
    refs CaseCrimeType.case_id (case_ids s) (case_crime_types s) ->
    refs CaseCrimeType.case_id (case_ids s)
         (case_crime_types (fold_left (migrate_crime_type_row b) sel s)).
Proof.
  induction sel as [|r sel IH]; intros s H; simpl; [assumption|].
  destruct (migrate_crime_type_row_others b s r) as (G1 & _).
  simpl in G1. unfold case_ids in *. rewrite <- G1. apply IH. rewrite G1.
  unfold migrate_crime_type_row. destruct b; [|assumption].
  destruct (insert_crime_types _ _ _ _ _) eqn:E; [|assumption]. simpl.
  eapply insert_crime_types_rows; [exact E | | exact H].
  intros Hp ? ? ?. simpl. now apply has_case_iff.
Qed.

Lemma migrate_crime_type_rows_keys (b : bool) (sel : list Case.row) :
  forall s,
    NoDup (map CaseCrimeType.id (case_crime_types s)) /\
    NoDup (map (fun r => (CaseCrimeType.case_id r, CaseCrimeType.crime_type r))
               (case_crime_types s)) ->
    let s' := fold_left (migrate_crime_type_row b) sel s in
    NoDup (map CaseCrimeType.id (case_crime_types s')) /\
    NoDup (map (fun r => (CaseCrimeType.case_id r, CaseCrimeType.crime_type r))
               (case_crime_types s')).
Proof.
  induction sel as [|r sel IH]; intros s H; simpl; [assumption|].
  apply IH. unfold migrate_crime_type_row. destruct b; [|assumption].
  destruct (insert_crime_types _ _ _ _ _) eqn:E; [|assumption]. simpl.
  eapply insert_crime_types_keys; [exact E | exact H].
Qed.

(** The tables of the store after step 4, and after the whole migration. *)
Lemma move_crime_types_tables (b : bool) (s : Store) :
  let s' := move_crime_types b s in
  map Case.id (cases s') = map Case.id (cases s)
  /\ case_tags s' = case_tags s /\ suspects s' = suspects s
  /\ suspect_crime_history s' = suspect_crime_history s
  /\ suspect_case_links s' = suspect_case_links s
  /\ case_links s' = case_links s /\ timeline_events s' = timeline_events s
  /\ projects s' = projects s /\ project_cases s' = project_cases s
  /\ exists sel,
       case_crime_types s'
       = case_crime_types (fold_left (migrate_crime_type_row b) sel s).
Proof.
  unfold move_crime_types.
  destruct (filter not_migrated (cases s)) as [|r sel].
  - simpl. repeat split. now exists [].
  - generalize (r :: sel). intros l.
    destruct (migrate_crime_type_rows_others b l s)
      as (G1 & G2 & G3 & G4 & G5 & G6 & G7 & G8 & G9).
    cbv zeta in *. cbn [cases case_crime_types case_tags suspects
      suspect_crime_history suspect_case_links case_links timeline_events
      projects project_cases with_cases].
    rewrite map_key_map by apply mark_migrated_id. rewrite G1.
    repeat split; try assumption. now exists l.
Qed.

Lemma migrate_store_tables (s : Store) :
  let s' := migrate_store s in
  map Case.id (cases s') = map Case.id (cases s)
  /\ case_tags s' = case_tags s /\ suspects s' = suspects s
  /\ suspect_crime_history s' = suspect_crime_history s
  /\ suspect_case_links s' = suspect_case_links s
  /\ case_links s' = case_links s /\ timeline_events s' = timeline_events s
  /\ projects s' = projects s /\ project_cases s' = project_cases s
  /\ exists sel,
       case_crime_types s'
       = case_crime_types (fold_left (migrate_crime_type_row true) sel (copy_locations s)).
Proof.
  rewrite migrate_store_steps.
  destruct (move_crime_types_tables true (copy_locations s))
    as (G1 & G2 & G3 & G4 & G5 & G6 & G7 & G8 & G9 & G10).
  cbv zeta in *. unfold rename_statuses.
  cbn [cases case_crime_types case_tags suspects
      suspect_crime_history suspect_case_links case_links timeline_events
      projects project_cases with_cases].
  rewrite map_key_map by apply migrate_status_row_id. rewrite G1.
  unfold copy_locations at 1. cbn [cases with_cases].
  rewrite map_key_map by apply copy_location_id.
  repeat split; assumption.
Qed.

(** ** The integrity constraints hold after every call *)

(** Unfolds the call at hand and splits on the tests it makes, innermost
    first, so that the goal speaks of the store the call commits. *)
Ltac open_call :=
  unfold after, committed, inserted;
  rewrite ?delete_case_cases, ?delete_suspect_cases, ?delete_project_cases;
  unfold add_case, update_case, set_case_crime_types, set_case_tags,
    add_suspect, update_suspect, add_suspect_crime_history,
    delete_suspect_crime_history_entry, link_suspect_to_case,
    delete_suspect_case_link, link_cases, delete_case_link, add_timeline_event,
    delete_timeline_event, add_project, update_project,
    assign_case_to_project, unassign_case_from_project, bind;
  repeat match goal with
         | |- context [match ?x with _ => _ end] =>
             lazymatch x with
             | context [match _ with _ => _ end] => fail
             | _ => destruct x eqn:?
             end
         end.

Ltac store_fields :=
  unfold case_ids, suspect_ids, project_ids in *;
  cbn [cases case_crime_types case_tags suspects suspect_crime_history
       suspect_case_links case_links timeline_events projects project_cases
       with_cases with_case_crime_types with_case_tags with_suspects
       with_suspect_crime_history with_suspect_case_links with_case_links
       with_timeline_events with_projects with_project_cases].

Ltac ids_unchanged :=
  rewrite map_key_rewrite
    by (apply case_update_id || apply suspect_update_id || apply project_update_id).

Ltac parent_present :=
  repeat match goal with
         | H : _ && _ = true |- _ => apply andb_prop in H; destruct H
         end;
  simpl;
  first [ apply has_case_iff | apply has_suspect_iff | apply has_project_iff ];
  assumption.

Lemma fk_ok_migrate_store (s : Store) : fk_ok s -> fk_ok (migrate_store s).
Proof.
  intros H.
  destruct (migrate_store_tables s)
    as (G1 & G2 & G3 & G4 & G5 & G6 & G7 & G8 & G9 & sel & G10).
  cbv zeta in *. destruct H. constructor; unfold case_ids, suspect_ids, project_ids in *;
    rewrite ?G1, ?G2, ?G3, ?G4, ?G5, ?G6, ?G7, ?G8, ?G9, ?G10; try assumption.
  pose proof (migrate_crime_type_rows_refs true sel (copy_locations s)) as R.
  unfold case_ids in R. unfold copy_locations in R at 1 2 3.
  cbn [cases with_cases case_crime_types] in R.
  rewrite map_key_map in R by apply copy_location_id. now apply R.
Qed.

Lemma fk_ok_after (now : string) (c : call) (s : Store) :
  fk_ok s -> fk_ok (after now c s).
Proof.
  intros H. destruct c; [.. | exact (fk_ok_migrate_store H)];
    open_call; try assumption;
    destruct H; constructor; store_fields; try assumption;
    try (apply refs_keep; assumption);
    try (apply refs_parent_snoc; assumption);
    try (ids_unchanged; assumption);
    try (apply refs_cascade;
         [ intros r Hr; try (apply orb_false_elim in Hr; destruct Hr);
           apply Z.eqb_neq; assumption
         | assumption ]);
    try (apply refs_snoc; [assumption | parent_present]).
  - eapply insert_crime_types_rows; [eassumption | | now apply refs_keep].
    intros Hp ? ? ?. simpl. now apply has_case_iff.
  - eapply insert_tags_rows; [eassumption | | now apply refs_keep].
    intros Hp ? ?. simpl. now apply has_case_iff.
Qed.

Lemma Forall_keep {A} (P : A -> Prop) (m : A -> bool) (l : list A) :
  Forall P l -> Forall P (keep m l).
Proof.
  rewrite !Forall_forall. intros H r Hr. apply keep_In in Hr. now apply H.
Qed.

Lemma check_ok_migrate_store (s : Store) : check_ok s -> check_ok (migrate_store s).
Proof.
  unfold check_ok. intros H.
  destruct (migrate_store_tables s) as (_ & _ & _ & _ & _ & E & _).
  cbv zeta in E. now rewrite E.
Qed.

Lemma check_ok_after (now : string) (c : call) (s : Store) :
  check_ok s -> check_ok (after now c s).
Proof.
  intros H. destruct c; [.. | exact (check_ok_migrate_store H)];
    unfold check_ok in *; open_call; try assumption; store_fields; try assumption;
    try (apply Forall_keep; assumption).
  apply Forall_app. split; [assumption|]. repeat constructor. simpl.
  apply negb_false_iff in Heqb. now apply Z.ltb_lt.
Qed.

Lemma triple_key_absent (x c : Z) (t : string) (tbl : list SuspectCaseLink.row) :
  existsb (fun r => (SuspectCaseLink.suspect_id r =? x)
                    && (SuspectCaseLink.case_id r =? c)
                    && (SuspectCaseLink.connection_type r =? t)%string) tbl = false
  <-> ~ In (x, c, t)
           (map (fun r => (SuspectCaseLink.suspect_id r, SuspectCaseLink.case_id r,
                           SuspectCaseLink.connection_type r)) tbl).
Proof.
  rewrite existsb_false_iff, in_map_iff. split.
  - intros H [r [E Hr]]. injection E as E1 E2 E3. specialize (H r Hr).
    apply Z.eqb_eq in E1, E2. apply String.eqb_eq in E3.
    rewrite E1, E2, E3 in H. discriminate.
  - intros H r Hr. destruct (_ && _) eqn:E; [|reflexivity]. exfalso. apply H.
    apply andb_prop in E. destruct E as [E E3].
    apply andb_prop in E. destruct E as [E1 E2].
    apply Z.eqb_eq in E1, E2. apply String.eqb_eq in E3. subst. now exists r.
Qed.

Lemma membership_absent (p c : Z) (tbl : list ProjectCase.row) :
  existsb (fun r => (ProjectCase.project_id r =? p) && (ProjectCase.case_id r =? c))
          tbl = false
  <-> ~ In (p, c) (map (fun r => (ProjectCase.project_id r, ProjectCase.case_id r)) tbl).
Proof.
  rewrite existsb_false_iff, in_map_iff. split.
  - intros H [r [E Hr]]. injection E as E1 E2. specialize (H r Hr).
    apply Z.eqb_eq in E1, E2. rewrite E1, E2 in H. discriminate.
  - intros H r Hr. destruct (_ && _) eqn:E; [|reflexivity]. exfalso. apply H.
    apply andb_prop in E. destruct E as [E1 E2].
    apply Z.eqb_eq in E1, E2. subst. now exists r.
Qed.

Lemma name_absent (n : string) (tbl : list Project.row) :
  existsb (fun r => (Project.name r =? n)%string) tbl = false
  <-> ~ In n (map Project.name tbl).
Proof.
  rewrite existsb_false_iff, in_map_iff. split.
  - intros H [r [E Hr]]. specialize (H r Hr).
    apply String.eqb_eq in E. congruence.
  - intros H r Hr. destruct (String.eqb_spec (Project.name r) n); [|reflexivity].
    exfalso. apply H. now exists r.
Qed.

(** Renaming the project with id [p] keeps the names distinct when no other
    project carries the new name. *)
Lemma rename_keeps_names_distinct (p : Z) (f : Project.row -> Project.row)
    (l : list Project.row) :
  NoDup (map Project.id l) -> NoDup (map Project.name l) ->
  (forall r q, In r l -> Project.id r = p -> In q l -> Project.id q <> p ->
               Project.name q <> Project.name (f r)) ->
  NoDup (map Project.name (map (fun r => if Project.id r =? p then f r else r) l)).
Proof.
  induction l as [|y l IH]; simpl; intros Hid Hname Hchk; [constructor|].
  apply NoDup_cons_iff in Hid. destruct Hid as [Hy Hid].
  apply NoDup_cons_iff in Hname. destruct Hname as [Hny Hname].
  constructor.
  - rewrite map_map, in_map_iff. intros [q [E Hq]].
    destruct (Z.eqb_spec (Project.id y) p) as [Ey|Ey];
      destruct (Z.eqb_spec (Project.id q) p) as [Eq|Eq].
    + apply Hy. apply in_map_iff. exists q. split; [congruence | assumption].
    + apply (Hchk y q); auto.
    + apply (Hchk q y); auto.
    + apply Hny. apply in_map_iff. now exists q.
  - apply IH; try assumption. intros r q Hr E Hq Hne. apply Hchk; auto.
Qed.

Lemma update_project_check (p : Z) (fields : list Project.assignment)
    (l : list Project.row) :
  existsb
    (fun r => (Project.id r =? p)
              && existsb (fun q => negb (Project.id q =? p)
                                   && (Project.name q =?
                                       Project.name (Project.update fields r))%string) l)
    l = false ->
  forall r q, In r l -> Project.id r = p -> In q l -> Project.id q <> p ->
              Project.name q <> Project.name (Project.update fields r).
Proof.
  intros H r q Hr Er Hq Eq En.
  rewrite existsb_false_iff in H. specialize (H r Hr).
  apply Z.eqb_eq in Er. rewrite Er in H. simpl in H.
  rewrite existsb_false_iff in H. specialize (H q Hq).
  apply Z.eqb_neq in Eq. rewrite Eq in H. simpl in H.
  apply String.eqb_neq in H. contradiction.
Qed.

Lemma keys_ok_migrate_store (s : Store) : keys_ok s -> keys_ok (migrate_store s).
Proof.
  intros [Hp Hu].
  destruct (migrate_store_tables s)
    as (G1 & G2 & G3 & G4 & G5 & G6 & G7 & G8 & G9 & sel & G10).
  cbv zeta in *.
  destruct (migrate_crime_type_rows_keys true sel (copy_locations s)) as [K1 K2];
    [split; [apply Hp | apply Hu]|].
  destruct Hp, Hu. split; constructor;
    rewrite ?G1, ?G2, ?G3, ?G4, ?G5, ?G6, ?G7, ?G8, ?G9, ?G10; assumption.
Qed.

Lemma keys_ok_after (now : string) (c : call) (s : Store) :
  keys_ok s -> keys_ok (after now c s).
Proof.
  intros H. destruct c; [.. | exact (keys_ok_migrate_store H)];
    open_call; try assumption;
    destruct H as [[] []]; split; constructor; store_fields; try assumption;
    try (apply NoDup_map_keep; assumption);
    try (ids_unchanged; assumption);
    try (apply NoDup_ids_snoc; [assumption | reflexivity]).
  - eapply insert_crime_types_keys; [eassumption|].
    split; now apply NoDup_map_keep.
  - eapply insert_crime_types_keys; [eassumption|].
    split; now apply NoDup_map_keep.
  - eapply insert_tags_keys; [eassumption|]. split; now apply NoDup_map_keep.
  - eapply insert_tags_keys; [eassumption|]. split; now apply NoDup_map_keep.
  - apply NoDup_map_snoc; [assumption|]. simpl. now apply triple_key_absent.
  - apply NoDup_map_snoc; [assumption|]. simpl. now apply name_absent.
  - apply rename_keeps_names_distinct; try assumption.
    now apply update_project_check.
  - apply NoDup_map_snoc; [assumption|]. simpl. now apply membership_absent.
Qed.

Lemma keys_ok_empty : keys_ok empty_store.
Proof. split; constructor; constructor. Qed.

Lemma fk_ok_empty : fk_ok empty_store.
Proof. constructor; constructor. Qed.

Lemma reachable_keys_ok (s : Store) : reachable s -> keys_ok s.
Proof.
  induction 1; [apply keys_ok_empty | now apply keys_ok_after].
Qed.

Lemma reachable_fk_ok (s : Store) : reachable s -> fk_ok s.
Proof.
  induction 1; [apply fk_ok_empty | now apply fk_ok_after].
Qed.

Lemma reachable_check_ok (s : Store) : reachable s -> check_ok s.
Proof.
  induction 1; [constructor | now apply check_ok_after].
Qed.

(** ** Deleting a case *)

Lemma delete_case_present (s : Store) (c : Z) :
  In c (case_ids s) ->
  delete_case s c =
  Ok (mkStore
        (keep (fun r => Case.id r =? c) (cases s))
        (keep (fun r => CaseCrimeType.case_id r =? c) (case_crime_types s))
        (keep (fun r => CaseTag.case_id r =? c) (case_tags s))
        (suspects s)
        (suspect_crime_history s)
        (keep (fun r => SuspectCaseLink.case_id r =? c) (suspect_case_links s))
        (keep (fun r => (CaseLink.case_id_1 r =? c) || (CaseLink.case_id_2 r =? c))
              (case_links s))
        (keep (fun r => TimelineEvent.case_id r =? c) (timeline_events s))
        (projects s)
        (keep (fun r => ProjectCase.case_id r =? c) (project_cases s))).
Proof.
  intros H. rewrite delete_case_cases. apply has_case_iff in H. now rewrite H.
Qed.

Lemma keep_either_removes (c : Z) (l : list CaseLink.row) :
  let kept := keep (fun r => (CaseLink.case_id_1 r =? c) || (CaseLink.case_id_2 r =? c)) l in
  ~ In c (map CaseLink.case_id_1 kept) /\ ~ In c (map CaseLink.case_id_2 kept).
Proof.
  simpl. split; rewrite in_map_iff; intros [r [E H]]; apply keep_In in H;
    destruct H as [_ H]; apply orb_false_elim in H; destruct H as [H1 H2];
    apply Z.eqb_neq in H1, H2; congruence.
Qed.

(** C2.  Deleting a case that is in the store removes its row and, by the
    cascades, every crime-type association, tag, suspect link, case link
    (in either position), timeline event and project membership naming
    it, so that no row of any association table references it afterwards;
    suspects, their history and projects are left alone.  And "no
    association references a missing parent" holds of the empty store and
    is kept by every call, hence holds of every store the operations can
    reach. *)
Theorem delete_case_leaves_no_reference :
  (forall s c,
      In c (case_ids s) ->
      exists s',
        delete_case s c = Ok s'
        /\ ~ In c (case_ids s')
        /\ ~ references_case s' c
        /\ suspects s' = suspects s
        /\ suspect_crime_history s' = suspect_crime_history s
        /\ projects s' = projects s)
  /\ (forall now call s, fk_ok s -> fk_ok (after now call s))
  /\ (forall s, reachable s -> fk_ok s).
Proof.
  split; [|split].
  - intros s c H. rewrite (delete_case_present _ _ H). eexists. split; [reflexivity|].
    unfold case_ids, references_case. simpl.
    destruct (keep_either_removes c (case_links s)) as [L1 L2]. simpl in L1, L2.
    repeat split; try reflexivity; try apply keep_removes.
    intros R. decompose [or] R;
      try (now eapply keep_removes; eassumption); contradiction.
  - intros. now apply fk_ok_after.
  - apply reachable_fk_ok.
Qed.

Lemma reachable_replay (now : string) (calls : list call) :
  forall s, reachable s -> reachable (replay now calls s).
Proof.
  unfold replay. induction calls as [|c calls IH]; intros s H; simpl; [assumption|].
  apply IH. now constructor.
Qed.

Lemma sample_store_reachable : reachable sample_store.
Proof.
  change sample_store with (replay "t0" sample_calls empty_store).
  apply reachable_replay. constructor.
Qed.

Lemma delete_case_leaves_no_reference_witness :
  (exists s', delete_case sample_store 1 = Ok s'
              /\ ~ In 1 (case_ids s') /\ ~ references_case s' 1)
  /\ fk_ok (after "t9" (Delete_case 1) sample_store)
  /\ fk_ok sample_store.
Proof.
  destruct delete_case_leaves_no_reference as (H1 & H2 & H3).
  pose proof (H3 sample_store sample_store_reachable) as Hfk.
  split; [|split].
  - destruct (H1 sample_store 1) as (s' & E & A & B & _).
    + simpl. auto.
    + exists s'. auto.
  - apply H2. exact Hfk.
  - exact Hfk.
Defined.

(** ** Case links *)

(** C6.  [link_cases c c note] fails for every [c]: the CHECK constraint
    [case_id_1 < case_id_2] rejects the row.  A call that succeeds adds one
    row whose two ids are the smaller and the larger argument, whichever
    order they were given in; and in every store the operations can reach
    each case link has its two ids in strictly ascending order. *)
Theorem case_links_ascending_no_self_link :
  (forall now s c note, link_cases now s c c note = Err CheckViolation)
  /\ (forall now s a b note s' id,
         link_cases now s a b note = Ok (s', id) ->
         exists r, case_links s' = (case_links s ++ [r])%list
                   /\ CaseLink.id r = id
                   /\ CaseLink.case_id_1 r = Z.min a b
                   /\ CaseLink.case_id_2 r = Z.max a b
                   /\ CaseLink.case_id_1 r < CaseLink.case_id_2 r)
  /\ (forall now s a b note, link_cases now s a b note = link_cases now s b a note)
  /\ (forall s, reachable s -> check_ok s).
Proof.
  repeat apply conj.
  - intros. unfold link_cases. now rewrite Z.min_id, Z.max_id, Z.ltb_irrefl.
  - intros now s a b note s' id H. unfold link_cases in H.
    destruct (Z.min a b <? Z.max a b) eqn:E; [|discriminate]. simpl in H.
    destruct (has_case s (Z.min a b) && has_case s (Z.max a b)); [|discriminate].
    injection H as <- <-. eexists. split; [reflexivity|]. simpl.
    apply Z.ltb_lt in E. auto.
  - intros. unfold link_cases. now rewrite (Z.min_comm a b), (Z.max_comm a b).
  - apply reachable_check_ok.
Qed.

Lemma case_links_ascending_no_self_link_witness :
  (exists r, case_links (inserted cases_2_and_5 (link_cases "t1" cases_2_and_5 5 2 "note"))
             = [r]
             /\ CaseLink.case_id_1 r = 2 /\ CaseLink.case_id_2 r = 5)
  /\ check_ok sample_store.
Proof.
  destruct case_links_ascending_no_self_link as (_ & H2 & _ & H4).
  split.
  - destruct (H2 "t1" cases_2_and_5 5 2 "note"
                 (inserted cases_2_and_5 (link_cases "t1" cases_2_and_5 5 2 "note")) 1)
      as (r & E & _ & A & B & _).
    + reflexivity.
    + exists r. auto.
  - apply H4. apply sample_store_reachable.
Defined.

(** C1 (the code departs from the specification).  [link_cases] never raises a
    uniqueness violation, since [case_links] declares no UNIQUE constraint:
    with cases 2 and 5 in the store, [link_cases 5 2 "note"] followed by
    [link_cases 2 5 "note2"] succeeds twice and leaves two rows for the
    pair (2, 5). *)
Theorem link_cases_accepts_a_linked_pair :
  (forall now s a b note, link_cases now s a b note <> Err UniqueViolation)
  /\ exists s1,
       link_cases "t1" cases_2_and_5 5 2 "note" = Ok (s1, 1)
       /\ exists s2,
            link_cases "t2" s1 2 5 "note2" = Ok (s2, 2)
            /\ case_links s2 = [CaseLink.mk 1 2 5 "note" "t1";
                                CaseLink.mk 2 2 5 "note2" "t2"].
Proof.
  split.
  - intros now s a b note. unfold link_cases.
    destruct (negb _); [discriminate|]. destruct (_ && _); discriminate.
  - eexists. split; [reflexivity|]. eexists. split; reflexivity.
Qed.

(** ** Suspect-case links *)

Lemma triple_key_present (x c : Z) (t : string) (tbl : list SuspectCaseLink.row) :
  existsb (fun r => (SuspectCaseLink.suspect_id r =? x)
                    && (SuspectCaseLink.case_id r =? c)
                    && (SuspectCaseLink.connection_type r =? t)%string) tbl = true
  <-> In (x, c, t)
         (map (fun r => (SuspectCaseLink.suspect_id r, SuspectCaseLink.case_id r,
                         SuspectCaseLink.connection_type r)) tbl).
Proof.
  rewrite existsb_exists, in_map_iff. split.
  - intros [r [Hr E]]. exists r. split; [|assumption].
    apply andb_prop in E. destruct E as [E E3].
    apply andb_prop in E. destruct E as [E1 E2].
    apply Z.eqb_eq in E1, E2. apply String.eqb_eq in E3. now subst.
  - intros [r [E Hr]]. exists r. split; [assumption|].
    injection E as <- <- <-. now rewrite !Z.eqb_refl, String.eqb_refl.
Qed.

Lemma filter_no_match {A} (m : A -> bool) (l : list A) :
  (forall r, In r l -> m r = false) -> filter m l = [].
Proof.
  induction l as [|y l IH]; simpl; intros H; [reflexivity|].
  rewrite (H y) by now left. apply IH. intros r Hr. apply H. now right.
Qed.

Lemma links_of_pair_none (s : Store) (x c : Z) :
  ~ In (x, c) (map (fun r => (SuspectCaseLink.suspect_id r, SuspectCaseLink.case_id r))
                   (suspect_case_links s)) ->
  forall r, In r (suspect_case_links s) ->
            (SuspectCaseLink.suspect_id r =? x) && (SuspectCaseLink.case_id r =? c) = false.
Proof.
  intros H r Hr. destruct (_ && _) eqn:E; [|reflexivity]. exfalso. apply H.
  apply andb_prop in E. destruct E as [E1 E2]. apply Z.eqb_eq in E1, E2.
  apply in_map_iff. exists r. subst. auto.
Qed.

(** C5.  [link_suspect_to_case] raises the uniqueness violation exactly when
    a link with the same (suspect, case, connection type) is stored; no
    other failure of the call is that error, and a call that raises leaves
    the store as it was.  For a suspect and a case that exist and are not
    yet linked, the first link succeeds, repeating it fails with the
    uniqueness violation, and linking with another connection type
    succeeds and leaves two rows for the pair. *)
Theorem link_suspect_to_case_unique_per_type
    (now : string) (s : Store) (x c : Z) (t notes : string) :
  let triples (s : Store) :=
    map (fun r => (SuspectCaseLink.suspect_id r, SuspectCaseLink.case_id r,
                   SuspectCaseLink.connection_type r)) (suspect_case_links s) in
  (link_suspect_to_case now s x c t notes = Err UniqueViolation
   <-> In (x, c, t) (triples s))
  /\ (forall e, link_suspect_to_case now s x c t notes = Err e ->
                after now (Link_suspect_to_case x c t notes) s = s)
  /\ (In x (suspect_ids s) -> In c (case_ids s) -> ~ In (x, c, t) (triples s) ->
      exists s' id,
        link_suspect_to_case now s x c t notes = Ok (s', id)
        /\ suspect_case_links s'
           = (suspect_case_links s
                ++ [SuspectCaseLink.mk id x c t (or_None notes) now])%list)
  /\ (forall now' t' notes',
         In x (suspect_ids s) -> In c (case_ids s) ->
         ~ In (x, c) (map (fun r => (SuspectCaseLink.suspect_id r,
                                     SuspectCaseLink.case_id r))
                          (suspect_case_links s)) ->
         t' <> t ->
         exists s1 id1 s2 id2,
           link_suspect_to_case now s x c t notes = Ok (s1, id1)
           /\ link_suspect_to_case now' s1 x c t notes' = Err UniqueViolation
           /\ link_suspect_to_case now' s1 x c t' notes' = Ok (s2, id2)
           /\ List.length (links_of_pair s2 x c) = 2%nat).
Proof.
  cbv zeta. split; [|split; [|split]].
  - unfold link_suspect_to_case. rewrite <- triple_key_present.
    destruct (existsb _ (suspect_case_links s)); [split; intros; reflexivity|].
    destruct (_ && _); split; intros H; discriminate H.
  - intros e H. unfold after, inserted. now rewrite H.
  - intros Hx Hc Hn. unfold link_suspect_to_case.
    apply triple_key_absent in Hn. rewrite Hn.
    apply has_suspect_iff in Hx. apply has_case_iff in Hc. rewrite Hx, Hc. simpl.
    eexists _, _. split; reflexivity.
  - intros now' t' notes' Hx Hc Hn Ht.
    pose proof (links_of_pair_none _ _ _ Hn) as Hnone.
    apply has_suspect_iff in Hx. apply has_case_iff in Hc.
    assert (E0 : forall u,
               existsb (fun r => (SuspectCaseLink.suspect_id r =? x)
                                 && (SuspectCaseLink.case_id r =? c)
                                 && (SuspectCaseLink.connection_type r =? u)%string)
                       (suspect_case_links s) = false).
    { intros u. apply existsb_false_iff. intros r Hr. now rewrite (Hnone r Hr). }
    unfold link_suspect_to_case at 1. rewrite E0, Hx, Hc. simpl.
    eexists _, _, _, _. split; [reflexivity|].
    unfold link_suspect_to_case, has_suspect, has_case. simpl.
    rewrite !existsb_app, !E0. simpl.
    rewrite !Z.eqb_refl, String.eqb_refl. simpl.
    assert (Et : (t =? t')%string = false) by (apply String.eqb_neq; congruence).
    rewrite Et. simpl. unfold has_suspect, has_case in Hx, Hc. rewrite Hx, Hc. simpl.
    split; [reflexivity|]. split; [reflexivity|].
    unfold links_of_pair. simpl. rewrite <- app_assoc, filter_app.
    rewrite (filter_no_match _ _ Hnone). simpl. now rewrite !Z.eqb_refl.
Qed.

Lemma link_suspect_to_case_unique_per_type_witness :
  link_suspect_to_case "t9" sample_store 1 1 "DNA Evidence" "" = Err UniqueViolation
  /\ (exists s' id,
         link_suspect_to_case "t9" sample_store 1 1 "Known Associate" "" = Ok (s', id))
  /\ (exists s1 id1 s2 id2,
         link_suspect_to_case "t1" cases_2_and_5_suspect 1 2 "DNA Evidence" ""
           = Ok (s1, id1)
         /\ link_suspect_to_case "t2" s1 1 2 "DNA Evidence" "" = Err UniqueViolation
         /\ link_suspect_to_case "t2" s1 1 2 "Known Associate" "" = Ok (s2, id2)
         /\ List.length (links_of_pair s2 1 2) = 2%nat).
Proof.
  split; [|split].
  - apply (link_suspect_to_case_unique_per_type "t9" sample_store 1 1 "DNA Evidence" "").
    simpl. auto.
  - destruct (link_suspect_to_case_unique_per_type
                "t9" sample_store 1 1 "Known Associate" "") as (_ & _ & H & _).
    destruct H as (s' & id & E & _).
    + simpl. auto.
    + simpl. auto.
    + simpl. intros [H|[]]. discriminate.
    + now exists s', id.
  - destruct (link_suspect_to_case_unique_per_type
                "t1" cases_2_and_5_suspect 1 2 "DNA Evidence" "") as (_ & _ & _ & H).
    apply (H "t2" "Known Associate" "").
    + simpl. auto.
    + simpl. auto.
    + simpl. tauto.
    + discriminate.
Defined.

(** ** Project membership *)

Lemma membership_present (p c : Z) (tbl : list ProjectCase.row) :
  existsb (fun r => (ProjectCase.project_id r =? p) && (ProjectCase.case_id r =? c))
          tbl = true
  <-> In (p, c) (map (fun r => (ProjectCase.project_id r, ProjectCase.case_id r)) tbl).
Proof.
  rewrite existsb_exists, in_map_iff. split.
  - intros [r [Hr E]]. exists r. split; [|assumption].
    apply andb_prop in E. destruct E as [E1 E2]. apply Z.eqb_eq in E1, E2. now subst.
  - intros [r [E Hr]]. exists r. split; [assumption|].
    injection E as <- <-. now rewrite !Z.eqb_refl.
Qed.






(** ** Crime types of a case *)

Lemma keep_app {A} (m : A -> bool) (l1 l2 : list A) :
  keep m (l1 ++ l2) = (keep m l1 ++ keep m l2)%list.
Proof. apply filter_app. Qed.

Lemma keep_keep {A} (m : A -> bool) (l : list A) : keep m (keep m l) = keep m l.
Proof.
  apply keep_none. apply existsb_false_iff. intros r Hr. now apply keep_In in Hr.
Qed.

Lemma no_pair_after_keep (c : Z) (ct : string) (l : list CaseCrimeType.row) :
  existsb (fun r => (CaseCrimeType.case_id r =? c)
                    && (CaseCrimeType.crime_type r =? ct)%string)
          (keep (fun r => CaseCrimeType.case_id r =? c) l) = false.
Proof.
  apply existsb_false_iff. intros r Hr. apply keep_In in Hr.
  destruct Hr as [_ Hr]. now rewrite Hr.
Qed.

Lemma set_case_crime_types_pair (s : Store) (c : Z) (X Y : string) :
  In c (case_ids s) -> X <> Y ->
  exists i j,
    set_case_crime_types s c [X; Y]
    = Ok (with_case_crime_types
            (keep (fun r => CaseCrimeType.case_id r =? c) (case_crime_types s)
               ++ [CaseCrimeType.mk i c X 0; CaseCrimeType.mk j c Y 1]) s).
Proof.
  intros Hc Hne. apply has_case_iff in Hc.
  unfold set_case_crime_types. simpl. rewrite no_pair_after_keep, Hc.
  rewrite existsb_app, no_pair_after_keep. simpl.
  assert (E : (X =? Y)%string = false) by now apply String.eqb_neq.
  rewrite E, andb_false_r. simpl. rewrite <- app_assoc. simpl.
  eexists _, _. reflexivity.
Qed.

Lemma ordered_pair {A} (before : A -> A -> bool) (a b : A) (sel : list A) :
  before a b = true -> before b a = false ->
  (ordered_result before [a; b] sel <-> sel = [a; b]).
Proof.
  intros Hab Hba. split.
  - intros [Hp Hs]. apply Permutation_length_2_inv in Hp.
    destruct Hp as [->| ->]; [reflexivity|].
    inversion Hs as [|? ? _ Hall]; subst. inversion Hall; subst. congruence.
  - intros ->. split; [reflexivity|]. repeat constructor. assumption.
Qed.

Lemma two_crime_types_read (s : Store) (c : Z) (r1 r2 : CaseCrimeType.row) :
  crime_types_of s c = [r1; r2] ->
  CaseCrimeType.sort_order r1 < CaseCrimeType.sort_order r2 ->
  (forall out, get_case_crime_types s c out
               <-> out = [CaseCrimeType.crime_type r1; CaseCrimeType.crime_type r2])
  /\ (forall o, get_primary_crime_type s c o
                <-> o = Some (CaseCrimeType.crime_type r1)).
Proof.
  intros E Hlt.
  assert (H12 : asc CaseCrimeType.sort_order r1 r2 = true)
    by (unfold asc; apply Z.leb_le; lia).
  assert (H21 : asc CaseCrimeType.sort_order r2 r1 = false)
    by (unfold asc; apply Z.leb_gt; lia).
  unfold get_case_crime_types, get_primary_crime_type. rewrite E. split.
  - intros out. split.
    + intros [sel [Hs ->]]. apply ordered_pair in Hs; [now subst | assumption..].
    + intros ->. exists [r1; r2]. split; [now apply ordered_pair | reflexivity].
  - intros o. split.
    + intros [sel [Hs ->]]. apply ordered_pair in Hs; [now subst | assumption..].
    + intros ->. exists [r1; r2]. split; [now apply ordered_pair | reflexivity].
Qed.

Lemma crime_types_of_replaced (s : Store) (c : Z) (l : list CaseCrimeType.row) :
  Forall (fun r => CaseCrimeType.case_id r = c) l ->
  crime_types_of
    (with_case_crime_types
       (keep (fun r => CaseCrimeType.case_id r =? c) (case_crime_types s) ++ l) s) c
  = l.
Proof.
  intros H. unfold crime_types_of. simpl. rewrite filter_app, filter_keep_nil. simpl.
  induction H as [|r l Hr Hl IH]; simpl; [reflexivity|].
  apply Z.eqb_eq in Hr. now rewrite Hr, IH.
Qed.

(** C4.  For a case in the store and two distinct crime types [A] and [B]:
    after [set_case_crime_types c [A; B]] the crime types read back are
    exactly [A; B] and the primary type is [A]; a following
    [set_case_crime_types c [B; A]] leaves, for this case, exactly the two
    rows (B, 0) and (A, 1), so the types read back are [B; A] and the
    primary type is [B]; the rows of other cases are untouched. *)
Theorem set_case_crime_types_replaces_in_order (s : Store) (c : Z) (A B : string) :
  In c (case_ids s) -> A <> B ->
  exists s1,
    set_case_crime_types s c [A; B] = Ok s1
    /\ (forall out, get_case_crime_types s1 c out <-> out = [A; B])
    /\ (forall o, get_primary_crime_type s1 c o <-> o = Some A)
    /\ exists s2,
         set_case_crime_types s1 c [B; A] = Ok s2
         /\ (exists i j, crime_types_of s2 c
                         = [CaseCrimeType.mk i c B 0; CaseCrimeType.mk j c A 1])
         /\ (forall out, get_case_crime_types s2 c out <-> out = [B; A])
         /\ (forall o, get_primary_crime_type s2 c o <-> o = Some B)
         /\ keep (fun r => CaseCrimeType.case_id r =? c) (case_crime_types s2)
            = keep (fun r => CaseCrimeType.case_id r =? c) (case_crime_types s).
Proof.
  intros Hc Hne.
  destruct (@set_case_crime_types_pair s c A B Hc Hne) as (i & j & E1).
  eexists. split; [exact E1|].
  match type of E1 with _ = Ok ?v => set (s1 := v) in * end.
  assert (R1 : crime_types_of s1 c
               = [CaseCrimeType.mk i c A 0; CaseCrimeType.mk j c B 1])
    by (apply crime_types_of_replaced; repeat constructor).
  destruct (@two_crime_types_read s1 c _ _ R1) as [G1 P1]; [simpl; lia|].
  split; [exact G1|]. split; [exact P1|].
  assert (Hc1 : In c (case_ids s1)) by exact Hc.
  destruct (@set_case_crime_types_pair s1 c B A Hc1 (not_eq_sym Hne)) as (i' & j' & E2).
  eexists. split; [exact E2|].
  match type of E2 with _ = Ok ?v => set (s2 := v) in * end.
  assert (R2 : crime_types_of s2 c
               = [CaseCrimeType.mk i' c B 0; CaseCrimeType.mk j' c A 1])
    by (apply crime_types_of_replaced; repeat constructor).
  destruct (@two_crime_types_read s2 c _ _ R2) as [G2 P2]; [simpl; lia|].
  split; [now exists i', j'|]. split; [exact G2|]. split; [exact P2|].
  unfold s2, s1. simpl. rewrite !keep_app, !keep_keep. simpl.
  now rewrite !Z.eqb_refl, !app_nil_r.
Qed.

Lemma set_case_crime_types_replaces_in_order_witness :
  exists s1 s2,
    set_case_crime_types sample_store 1 ["Homicide"; "Arson"] = Ok s1
    /\ get_case_crime_types s1 1 ["Homicide"; "Arson"]
    /\ get_primary_crime_type s1 1 (Some "Homicide")
    /\ set_case_crime_types s1 1 ["Arson"; "Homicide"] = Ok s2
    /\ get_case_crime_types s2 1 ["Arson"; "Homicide"]
    /\ get_primary_crime_type s2 1 (Some "Arson").
Proof.
  destruct (@set_case_crime_types_replaces_in_order sample_store 1 "Homicide" "Arson")
    as (s1 & E1 & G1 & P1 & s2 & E2 & _ & G2 & P2 & _).
  - simpl. auto.
  - discriminate.
  - exists s1, s2. repeat split; try assumption.
    + now apply G1.
    + now apply P1.
    + now apply G2.
    + now apply P2.
Defined.

(** ** The stable evaluation of each query is one of its results *)

Lemma hd_error_map {A B} (f : A -> B) (l : list A) :
  hd_error (map f l) = option_map f (hd_error l).
Proof. now destruct l. Qed.

Lemma runs_are_results (s : Store) :
  (forall c, get_case_crime_types s c (get_case_crime_types_run s c))
  /\ (forall c, get_primary_crime_type s c (get_primary_crime_type_run s c))
  /\ (forall x, get_suspect_crime_history s x (get_suspect_crime_history_run s x))
  /\ (forall c, get_suspect_links_for_case s c (get_suspect_links_for_case_run s c))
  /\ (forall c, get_timeline_events s c (get_timeline_events_run s c)).
Proof.
  repeat apply conj.
  - intros c. eexists. split; [|reflexivity].
    apply order_by_ordered; [apply asc_total | apply asc_trans].
  - intros c. eexists. split; [|apply hd_error_map].
    apply order_by_ordered; [apply asc_total | apply asc_trans].
  - intros x. apply order_by_ordered;
      [apply history_before_total | apply history_before_trans].
  - intros c. apply order_by_ordered; [apply desc_total | apply desc_trans].
  - intros c. apply order_by_ordered; [apply desc_total | apply desc_trans].
Qed.

(** ** Listing cases *)

Lemma at_most_one_row_per_key {A K} (key : A -> K) (m : A -> bool) (k : K)
    (l : list A) :
  (forall r, m r = true -> key r = k) ->
  NoDup (map key l) -> (List.length (filter m l) <= 1)%nat.
Proof.
  intros Hm. induction l as [|y l IH]; simpl; intros Hnd; [lia|].
  apply NoDup_cons_iff in Hnd. destruct Hnd as [Hy Hnd].
  destruct (m y) eqn:E; [|now apply IH].
  rewrite filter_no_match; [simpl; lia|].
  intros r Hr. destruct (m r) eqn:Er; [|reflexivity].
  exfalso. apply Hy. rewrite (Hm y E), <- (Hm r Er). now apply in_map.
Qed.

Lemma cases_in_project_In (s : Store) (p : Z) (r : Case.row) :
  In r (cases_in_project s p) <->
  In r (cases s)
  /\ In (p, Case.id r)
        (map (fun pc => (ProjectCase.project_id pc, ProjectCase.case_id pc))
             (project_cases s)).
Proof.
  unfold cases_in_project. rewrite in_flat_map. split.
  - intros [c [Hc H]]. apply in_map_iff in H. destruct H as [pc [<- Hpc]].
    apply filter_In in Hpc. destruct Hpc as [Hpc E].
    apply andb_prop in E. destruct E as [E1 E2]. apply Z.eqb_eq in E1, E2.
    split; [assumption|]. apply in_map_iff. exists pc. split; [congruence | assumption].
  - intros [Hr H]. apply in_map_iff in H. destruct H as [pc [E Hpc]].
    injection E as E1 E2. exists r. split; [assumption|].
    apply in_map_iff. exists pc. split; [reflexivity|].
    apply filter_In. split; [assumption|]. now rewrite E1, E2, !Z.eqb_refl.
Qed.

Lemma cases_in_project_ids (s : Store) (p : Z) :
  NoDup (map Case.id (cases s)) ->
  NoDup (map (fun pc => (ProjectCase.project_id pc, ProjectCase.case_id pc))
             (project_cases s)) ->
  NoDup (map Case.id (cases_in_project s p)).
Proof.
  intros Hid Hpc. unfold cases_in_project.
  induction (cases s) as [|y l IH]; simpl; [constructor|].
  apply NoDup_cons_iff in Hid. destruct Hid as [Hy Hid]. specialize (IH Hid).
  set (rest := flat_map _ l) in *.
  assert (Hrest : forall x, In x (map Case.id rest) -> In x (map Case.id l)).
  { intros x Hx. apply in_map_iff in Hx. destruct Hx as [r [<- Hr]].
    apply in_flat_map in Hr. destruct Hr as [c [Hc Hr]].
    apply in_map_iff in Hr. destruct Hr as [_ [<- _]]. now apply in_map. }
  pose proof (@at_most_one_row_per_key _ _
                (fun pc => (ProjectCase.project_id pc, ProjectCase.case_id pc))
                (fun pc => (ProjectCase.case_id pc =? Case.id y)
                           && (ProjectCase.project_id pc =? p))
                (p, Case.id y) (project_cases s)) as Hle.
  destruct (filter _ (project_cases s)) as [|a [|b t]].
  - exact IH.
  - simpl. constructor; [|exact IH]. intros Hin. apply Hy. now apply Hrest.
  - exfalso. simpl in Hle. assert (S (S (List.length t)) <= 1)%nat; [|lia].
    apply Hle; [|assumption]. intros r E.
    apply andb_prop in E. destruct E as [E1 E2]. apply Z.eqb_eq in E1, E2. congruence.
Qed.

(** The sorter keeps what the scan delivered: rows that the keys do not
    tell apart stay in the order [R] in which they came. *)
Section StableSort.
Variable A : Type.
Variable before : A -> A -> bool.
Variable R : A -> A -> Prop.
Hypothesis before_total : forall x y, before x y = true \/ before y x = true.
Hypothesis before_trans :
  forall x y z, before x y = true -> before y z = true -> before x z = true.

Lemma insert_row_stable (x : A) (l : list A) :
  Forall (R x) l ->
  StronglySorted (fun a b => before a b = true /\ (before b a = true -> R a b)) l ->
  StronglySorted (fun a b => before a b = true /\ (before b a = true -> R a b))
                 (insert_row before x l).
Proof.
  intros Hx Hs. induction Hs as [|y l Hl IH Hy]; simpl.
  - repeat constructor.
  - inversion Hx as [|? ? Hxy Hxl]; subst.
    destruct (before x y) eqn:E.
    + constructor; [now constructor|].
      constructor; [now split|].
      rewrite Forall_forall in Hy, Hxl. apply Forall_forall. intros z Hz.
      split; [|intros _; now apply Hxl].
      apply before_trans with y; [assumption | now apply Hy].
    + constructor; [now apply IH|].
      eapply Permutation_Forall; [apply insert_row_perm|].
      constructor; [|assumption].
      split; [destruct (before_total x y); congruence | congruence].
Qed.

Lemma order_by_stable (l : list A) :
  StronglySorted R l ->
  StronglySorted (fun a b => before a b = true /\ (before b a = true -> R a b))
                 (order_by before l).
Proof.
  induction 1 as [|x l Hl IH Hx]; simpl; [constructor|].
  apply insert_row_stable; [|exact IH].
  eapply Permutation_Forall; [|exact Hx].
  apply (@order_by_ordered A before before_total before_trans l).
Qed.

Lemma filter_insert_row (f : A -> bool) (x : A) (l : list A) :
  StronglySorted (fun a b => before a b = true) l ->
  filter f (insert_row before x l)
  = if f x then insert_row before x (filter f l) else filter f l.
Proof.
  induction 1 as [|y l Hl IH Hy]; simpl.
  - now destruct (f x).
  - destruct (before x y) eqn:E; simpl.
    + destruct (f x) eqn:Fx; [|reflexivity].
      destruct (f y) eqn:Fy; simpl; [now rewrite E|].
      destruct (filter f l) as [|z t] eqn:Ft; simpl; [reflexivity|].
      assert (Hz : before x z = true).
      { apply before_trans with y; [assumption|].
        rewrite Forall_forall in Hy. apply Hy.
        apply (proj1 (filter_In f z l)). rewrite Ft. now left. }
      now rewrite Hz.
    + rewrite IH. destruct (f y) eqn:Fy; simpl.
      * destruct (f x); [now rewrite E | reflexivity].
      * reflexivity.
Qed.

Lemma filter_order_by (f : A -> bool) (l : list A) :
  filter f (order_by before l) = order_by before (filter f l).
Proof.
  induction l as [|x l IH]; simpl; [reflexivity|].
  rewrite filter_insert_row
    by apply (@order_by_ordered A before before_total before_trans l).
  rewrite IH. now destruct (f x).
Qed.
End StableSort.

Lemma order_by_perm {A} (before : A -> A -> bool) (l : list A) :
  Permutation l (order_by before l).
Proof.
  induction l as [|x l IH]; simpl; [constructor|].
  rewrite <- insert_row_perm. now apply perm_skip.
Qed.

Lemma rowid_scan_sorted {A} (rowid : A -> Z) (l : list A) :
  NoDup (map rowid l) ->
  StronglySorted (fun x y => rowid x < rowid y) (rowid_scan rowid l).
Proof.
  intros Hnd. unfold rowid_scan.
  assert (Hnd' : NoDup (map rowid (order_by (asc rowid) l))).
  { eapply Permutation_NoDup; [|exact Hnd].
    apply Permutation_map, order_by_perm. }
  destruct (@order_by_ordered _ (asc rowid) (@asc_total _ rowid) (@asc_trans _ rowid) l)
    as [_ Hs].
  induction Hs as [|x t Ht IH Hx]; [constructor|].
  simpl in Hnd'. apply NoDup_cons_iff in Hnd'. destruct Hnd' as [Hx' Hnd'].
  constructor; [now apply IH|].
  rewrite Forall_forall in Hx. apply Forall_forall. intros y Hy.
  specialize (Hx y Hy). unfold asc in Hx. apply Z.leb_le in Hx.
  assert (rowid x <> rowid y); [|lia].
  intros E. apply Hx'. rewrite E. now apply in_map.
Qed.

Lemma rowid_scan_in_order {A} (rowid : A -> Z) (l : list A) :
  StronglySorted Z.lt (map rowid l) -> rowid_scan rowid l = l.
Proof.
  unfold rowid_scan. induction l as [|x l IH]; simpl; intros Hs; [reflexivity|].
  inversion Hs as [|? ? Hl Hx]; subst. rewrite (IH Hl).
  destruct l as [|y l]; simpl; [reflexivity|].
  inversion Hx as [|? ? Hxy _]; subst.
  unfold asc at 1. now rewrite (proj2 (Z.leb_le (rowid x) (rowid y))) by lia.
Qed.

Lemma flat_map_filter {A} (f : A -> bool) (g : A -> list A) (l : list A) :
  (forall x, In x l -> g x = if f x then [x] else []) ->
  flat_map g l = filter f l.
Proof.
  induction l as [|x l IH]; simpl; intros H; [reflexivity|].
  rewrite (H x) by now left. rewrite IH by (intros y Hy; apply H; now right).
  now destruct (f x).
Qed.

Lemma existsb_same {A} (f g : A -> bool) (l : list A) :
  (forall x, f x = g x) -> existsb f l = existsb g l.
Proof.
  intros H. induction l as [|x l IH]; simpl; [reflexivity|]. now rewrite H, IH.
Qed.

Lemma cases_in_project_filter (s : Store) (p : Z) :
  NoDup (map (fun pc => (ProjectCase.project_id pc, ProjectCase.case_id pc))
             (project_cases s)) ->
  cases_in_project s p = filter (fun c => in_project s p (Case.id c)) (cases s).
Proof.
  intros Hpc. unfold cases_in_project. apply flat_map_filter. intros c _.
  unfold in_project.
  pose proof (@at_most_one_row_per_key _ _
                (fun pc => (ProjectCase.project_id pc, ProjectCase.case_id pc))
                (fun pc => (ProjectCase.case_id pc =? Case.id c)
                           && (ProjectCase.project_id pc =? p))
                (p, Case.id c) (project_cases s)) as Hle.
  assert (E : existsb (fun pc => (ProjectCase.project_id pc =? p)
                                 && (ProjectCase.case_id pc =? Case.id c))
                      (project_cases s)
              = existsb (fun pc => (ProjectCase.case_id pc =? Case.id c)
                                   && (ProjectCase.project_id pc =? p))
                        (project_cases s)).
  { apply existsb_same. intros pc. apply andb_comm. }
  rewrite E.
  destruct (filter _ (project_cases s)) as [|a [|b t]] eqn:F.
  - rewrite (proj2 (existsb_false_iff _ _)); [reflexivity|].
    intros pc Hpc0. cbv beta.
    destruct ((ProjectCase.case_id pc =? Case.id c)
              && (ProjectCase.project_id pc =? p)) eqn:Em; [|reflexivity].
    assert (Hin : In pc (filter (fun pc => (ProjectCase.case_id pc =? Case.id c)
                                           && (ProjectCase.project_id pc =? p))
                                (project_cases s)))
      by (apply filter_In; split; assumption).
    rewrite F in Hin. contradiction.
  - assert (Ha : In a (filter (fun pc => (ProjectCase.case_id pc =? Case.id c)
                                         && (ProjectCase.project_id pc =? p))
                              (project_cases s))) by (rewrite F; now left).
    apply filter_In in Ha.
    rewrite (proj2 (existsb_exists _ _)); [reflexivity|]. now exists a.
  - exfalso. simpl in Hle. assert (S (S (List.length t)) <= 1)%nat; [|lia].
    apply Hle; [|assumption]. intros r Er.
    apply andb_prop in Er. destruct Er as [E1 E2]. apply Z.eqb_eq in E1, E2. congruence.
Qed.

(** *** The cases table is held in ascending id *)

Lemma ids_in_order_snoc (ids : list Z) :
  StronglySorted Z.lt ids -> StronglySorted Z.lt (ids ++ [next_rowid ids]).
Proof.
  intros Hs.
  assert (Hall : Forall (fun x => x < next_rowid ids) ids).
  { apply Forall_forall. intros x Hx. destruct ids as [|y ids]; [contradiction|].
    apply largest_id_ge in Hx. unfold next_rowid. lia. }
  revert Hall. generalize (next_rowid ids) as n.
  induction Hs as [|x l Hl IH Hx]; intros n Hall; simpl.
  - repeat constructor.
  - inversion Hall as [|? ? Hxn Hln]; subst.
    constructor; [now apply IH|].
    apply Forall_app. split; [assumption | now repeat constructor].
Qed.

Lemma ids_in_order_keep {A} (key : A -> Z) (m : A -> bool) (l : list A) :
  StronglySorted Z.lt (map key l) -> StronglySorted Z.lt (map key (keep m l)).
Proof.
  unfold keep. induction l as [|x l IH]; simpl; intros Hs; [constructor|].
  inversion Hs as [|? ? Hl Hx]; subst.
  destruct (negb (m x)); [|now apply IH]. simpl. constructor; [now apply IH|].
  rewrite Forall_forall in Hx. apply Forall_forall. intros y Hy. apply Hx.
  apply in_map_iff in Hy. destruct Hy as [r [<- Hr]].
  apply filter_In in Hr. now apply in_map.
Qed.

Lemma cases_in_order_after (now : string) (c : call) (s : Store) :
  StronglySorted Z.lt (map Case.id (cases s)) ->
  StronglySorted Z.lt (map Case.id (cases (after now c s))).
Proof.
  intros H. destruct c;
    [.. | unfold after; destruct (migrate_store_tables s) as [E _];
          rewrite E; exact H];
    open_call; store_fields; try assumption.
  - rewrite map_app. simpl. now apply ids_in_order_snoc.
  - ids_unchanged. assumption.
  - now apply ids_in_order_keep.
Qed.

Lemma reachable_cases_in_order (s : Store) :
  reachable s -> StronglySorted Z.lt (map Case.id (cases s)).
Proof.
  induction 1; [constructor | now apply cases_in_order_after].
Qed.

(** C8.  In a store whose keys hold, [get_all_cases] without a project
    returns a rearrangement of the cases table, so each case exactly once,
    in descending order of [date_occurred], and cases with equal dates in
    ascending order of their ids: the order is fixed by the two keys.  With
    a project id it returns exactly the cases that have a membership row
    for that project, each once, in the same order: it is the full listing
    with the other cases left out.  In every store the application can
    reach, the table holds the cases in ascending id in the order in which
    they were inserted, so the second key is the insertion order and the
    listing is the stable sort of the table by date. *)
Theorem get_all_cases_each_case_once_by_date (s : Store) :
  keys_ok s ->
  let in_order :=
    StronglySorted
      (fun x y => String.leb (Case.date_occurred y) (Case.date_occurred x) = true
                  /\ (Case.date_occurred x = Case.date_occurred y ->
                      Case.id x < Case.id y)) in
  (Permutation (cases s) (get_all_cases s None)
   /\ NoDup (map Case.id (get_all_cases s None))
   /\ in_order (get_all_cases s None))
  /\ (forall p,
         (forall r, In r (get_all_cases s (Some p)) <->
                    In r (cases s)
                    /\ In (p, Case.id r)
                          (map (fun pc => (ProjectCase.project_id pc,
                                           ProjectCase.case_id pc))
                               (project_cases s)))
         /\ NoDup (map Case.id (get_all_cases s (Some p)))
         /\ in_order (get_all_cases s (Some p))
         /\ get_all_cases s (Some p)
            = filter (fun c => in_project s p (Case.id c)) (get_all_cases s None))
  /\ (reachable s ->
      StronglySorted Z.lt (map Case.id (cases s))
      /\ get_all_cases s None = order_by (desc Case.date_occurred) (cases s)).
Proof.
  intros [Hpk Huq] in_order.
  assert (Hsorted : forall l, NoDup (map Case.id l) ->
            in_order (order_by (desc Case.date_occurred) (rowid_scan Case.id l))).
  { intros l Hnd. unfold in_order.
    eapply StronglySorted_ind with
      (P := StronglySorted
              (fun x y => String.leb (Case.date_occurred y) (Case.date_occurred x) = true
                          /\ (Case.date_occurred x = Case.date_occurred y ->
                              Case.id x < Case.id y)));
      [constructor | |
       apply (@order_by_stable _ (desc Case.date_occurred)
                 (fun x y => Case.id x < Case.id y)
                 (@desc_total _ Case.date_occurred) (@desc_trans _ Case.date_occurred)
                 (rowid_scan Case.id l) (rowid_scan_sorted Case.id l Hnd))].
    intros a t _ IH Ha. constructor; [exact IH|].
    eapply Forall_impl; [|exact Ha]. simpl. intros y [H1 H2].
    split; [exact H1|]. intros E. apply H2. unfold desc. rewrite E.
    destruct (String.leb_total (Case.date_occurred y) (Case.date_occurred y)); assumption. }
  assert (Hperm : forall l, Permutation l
                              (order_by (desc Case.date_occurred) (rowid_scan Case.id l))).
  { intros l. unfold rowid_scan.
    rewrite <- order_by_perm. apply order_by_perm. }
  split; [|split].
  - split; [apply Hperm|]. split; [|now apply Hsorted, Hpk].
    eapply Permutation_NoDup; [apply Permutation_map, Hperm | apply Hpk].
  - intros p. simpl.
    assert (Hids : NoDup (map Case.id (cases_in_project s p)))
      by (apply cases_in_project_ids; [apply Hpk | apply Huq]).
    split; [|split; [|split]].
    + intros r. rewrite <- cases_in_project_In. split; intros H.
      * eapply Permutation_in; [symmetry; apply Hperm | exact H].
      * eapply Permutation_in; [apply Hperm | exact H].
    + eapply Permutation_NoDup; [apply Permutation_map, Hperm | exact Hids].
    + now apply Hsorted.
    + rewrite (@cases_in_project_filter s p (uq_project_cases Huq)).
      unfold rowid_scan.
      rewrite (@filter_order_by _ (desc Case.date_occurred)
                 (@desc_total _ Case.date_occurred) (@desc_trans _ Case.date_occurred)).
      now rewrite (@filter_order_by _ (asc Case.id)
                     (@asc_total _ Case.id) (@asc_trans _ Case.id)).
  - intros Hr. pose proof (reachable_cases_in_order Hr) as Hs.
    split; [exact Hs|]. simpl. now rewrite (rowid_scan_in_order Case.id).
Qed.

Lemma get_all_cases_each_case_once_by_date_witness :
  get_all_cases same_day_store None = [same_day_case_1; same_day_case_2]
  /\ NoDup (map Case.id (get_all_cases same_day_store None))
  /\ StronglySorted
       (fun x y => String.leb (Case.date_occurred y) (Case.date_occurred x) = true
                   /\ (Case.date_occurred x = Case.date_occurred y ->
                       Case.id x < Case.id y))
       (get_all_cases same_day_store None)
  /\ get_all_cases sample_store (Some 1)
     = filter (fun c => in_project sample_store 1 (Case.id c))
              (get_all_cases sample_store None).
Proof.
  assert (K : keys_ok same_day_store).
  { split; constructor; simpl; repeat constructor; simpl; intros H; intuition lia. }
  destruct (@get_all_cases_each_case_once_by_date same_day_store K)
    as ((_ & Hnd & Hs) & _).
  destruct (@get_all_cases_each_case_once_by_date sample_store
              (reachable_keys_ok sample_store_reachable)) as (_ & Hp & _).
  split; [reflexivity|]. split; [exact Hnd|]. split; [exact Hs|].
  apply (Hp 1).
Defined.

(** ** Migration reaches a fixed point *)

Lemma with_cases_same (s : Store) : with_cases (cases s) s = s.
Proof. now destruct s. Qed.

Lemma map_fixed {A} (f : A -> A) (l : list A) :
  (forall x, In x l -> f x = x) -> map f l = l.
Proof.
  intros H. rewrite <- (map_id l) at 2. now apply map_ext_in.
Qed.

Lemma filter_nil_none {A} (f : A -> bool) (l : list A) :
  filter f l = [] -> forall x, In x l -> f x = false.
Proof.
  intros E x Hx. destruct (f x) eqn:Ex; [|reflexivity].
  assert (H : In x (filter f l)) by (apply filter_In; auto).
  rewrite E in H. contradiction.
Qed.

Lemma copy_location_fixed (r : Case.row) : needs_copy r = false -> copy_location r = r.
Proof.
  unfold needs_copy, copy_location.
  destruct (Case.crime_scene_lat r), (Case.latitude r); congruence.
Qed.

Lemma copy_location_done (r : Case.row) : needs_copy (copy_location r) = false.
Proof.
  unfold needs_copy, copy_location.
  destruct (Case.crime_scene_lat r) eqn:E1, (Case.latitude r) eqn:E2; simpl;
    rewrite ?E1, ?E2; reflexivity.
Qed.

Lemma mark_migrated_fixed (r : Case.row) : not_migrated r = false -> mark_migrated r = r.
Proof. unfold mark_migrated. now intros ->. Qed.

Lemma mark_migrated_done (r : Case.row) : not_migrated (mark_migrated r) = false.
Proof. unfold mark_migrated. destruct (not_migrated r) eqn:E; [reflexivity | exact E]. Qed.

Lemma mark_migrated_needs_copy (r : Case.row) :
  needs_copy (mark_migrated r) = needs_copy r.
Proof. unfold mark_migrated. now destruct (not_migrated r). Qed.

Lemma migrate_status_row_fixed (r : Case.row) :
  retired_status r = false -> migrate_status_row r = r.
Proof.
  unfold retired_status, migrate_status_row. intros H.
  apply orb_false_elim in H. destruct H as [H H3]. rewrite H. simpl. now rewrite H3.
Qed.

Lemma migrate_status_row_done (r : Case.row) :
  retired_status (migrate_status_row r) = false.
Proof.
  unfold retired_status, migrate_status_row.
  destruct ((Case.status r =? "Open")%string || (Case.status r =? "Linked")%string)
    eqn:E; simpl; [reflexivity|].
  destruct (Case.status r =? "Closed")%string eqn:E3; simpl; [reflexivity|].
  now rewrite E, E3.
Qed.

Lemma migrate_status_row_others (r : Case.row) :
  needs_copy (migrate_status_row r) = needs_copy r
  /\ not_migrated (migrate_status_row r) = not_migrated r.
Proof.
  unfold migrate_status_row.
  destruct (_ || _); simpl;
    match goal with
    | |- context [if ?b then _ else _] => now destruct b
    | _ => now split
    end.
Qed.

Lemma cases_after_move (b : bool) (s : Store) :
  cases (move_crime_types b s) = map mark_migrated (cases s).
Proof.
  unfold move_crime_types. destruct (filter not_migrated (cases s)) as [|r sel] eqn:E.
  - symmetry. apply map_fixed. intros x Hx. apply mark_migrated_fixed.
    now apply (filter_nil_none _ _ E).
  - generalize (r :: sel). intros l. cbv zeta. cbn [cases with_cases].
    now destruct (migrate_crime_type_rows_others b l s) as (-> & _).
Qed.

Lemma copy_locations_again (s : Store) :
  copy_locations (copy_locations s) = copy_locations s.
Proof.
  unfold copy_locations, with_cases. simpl. f_equal.
  apply map_fixed. intros r Hr. apply in_map_iff in Hr. destruct Hr as [r0 [<- _]].
  apply copy_location_fixed, copy_location_done.
Qed.

Lemma move_crime_types_again (b : bool) (s : Store) :
  move_crime_types b (move_crime_types b s) = move_crime_types b s.
Proof.
  unfold move_crime_types at 1. rewrite cases_after_move.
  rewrite filter_no_match; [reflexivity|].
  intros r Hr. apply in_map_iff in Hr. destruct Hr as [r0 [<- _]].
  apply mark_migrated_done.
Qed.

Lemma rename_statuses_again (s : Store) :
  rename_statuses (rename_statuses s) = rename_statuses s.
Proof.
  unfold rename_statuses, with_cases. simpl. f_equal.
  apply map_fixed. intros r Hr. apply in_map_iff in Hr. destruct Hr as [r0 [<- _]].
  apply migrate_status_row_fixed, migrate_status_row_done.
Qed.

(** *** The two schema steps, from any schema *)

Lemma find_snoc {A} (f : A -> bool) (l : list A) (x : A) :
  find f (l ++ [x])
  = match find f l with
    | Some y => Some y
    | None => if f x then Some x else None
    end.
Proof.
  induction l as [|y l IH]; simpl; [reflexivity|]. now destruct (f y).
Qed.

Lemma create_existing (sch : schema) (t : string * list string) :
  columns_of (fst t) sch <> None -> create_table_if_not_exists sch t = sch.
Proof.
  unfold create_table_if_not_exists. now destruct (columns_of (fst t) sch).
Qed.

Lemma columns_of_created (sch : schema) (t : string * list string) (name : string) :
  columns_of name (create_table_if_not_exists sch t)
  = match columns_of name sch with
    | Some c => Some c
    | None => if (fst t =? name)%string then Some (snd t) else None
    end.
Proof.
  unfold create_table_if_not_exists.
  destruct (columns_of (fst t) sch) eqn:E.
  - destruct (columns_of name sch) eqn:E2; [reflexivity|].
    destruct (String.eqb_spec (fst t) name); [congruence | reflexivity].
  - unfold columns_of. rewrite find_snoc.
    destruct (find _ sch); [reflexivity|]. now destruct (fst t =? name)%string.
Qed.

Lemma created_tables_keep (L : list (string * list string)) (name : string) (c : list string) :
  forall sch, columns_of name sch = Some c ->
              columns_of name (fold_left create_table_if_not_exists L sch) = Some c.
Proof.
  induction L as [|t L IH]; intros sch H; simpl; [assumption|].
  apply IH. now rewrite columns_of_created, H.
Qed.

Lemma created_tables_other (L : list (string * list string)) (name : string) :
  ~ In name (map fst L) ->
  forall sch, columns_of name (fold_left create_table_if_not_exists L sch)
              = columns_of name sch.
Proof.
  induction L as [|t L IH]; intros Hn sch; simpl; [reflexivity|].
  simpl in Hn. rewrite IH by tauto. rewrite columns_of_created.
  destruct (columns_of name sch); [reflexivity|].
  destruct (String.eqb_spec (fst t) name); [tauto | reflexivity].
Qed.

Lemma created_tables_exist (L : list (string * list string)) :
  forall sch t, In t L ->
                columns_of (fst t) (fold_left create_table_if_not_exists L sch) <> None.
Proof.
  induction L as [|a L IH]; intros sch t Hin; [contradiction|].
  destruct Hin as [<-|H]; simpl.
  - destruct (columns_of (fst a) (create_table_if_not_exists sch a)) eqn:E.
    + erewrite created_tables_keep by eassumption. discriminate.
    + rewrite columns_of_created, String.eqb_refl in E.
      now destruct (columns_of (fst a) sch).
  - now apply IH.
Qed.

Lemma created_tables_fixed (L : list (string * list string)) :
  forall sch, (forall t, In t L -> columns_of (fst t) sch <> None) ->
              fold_left create_table_if_not_exists L sch = sch.
Proof.
  induction L as [|a L IH]; intros sch H; simpl; [reflexivity|].
  rewrite create_existing by (apply H; now left).
  apply IH. intros t Ht. apply H. now right.
Qed.

Lemma migrate_new_tables_again (db : Db) (s' : Store) :
  migrate_new_tables (mkDb (tables (migrate_new_tables db)) s')
  = mkDb (tables (migrate_new_tables db)) s'.
Proof.
  unfold migrate_new_tables. cbn [tables rows]. f_equal.
  apply created_tables_fixed. intros t Ht. now apply created_tables_exist.
Qed.

Lemma columns_of_extended (col : string) (sch : schema) (have : list string) :
  columns_of "cases" sch = Some have ->
  columns_of "cases"
    (map (fun t => if (fst t =? "cases")%string
                   then (fst t, (snd t ++ [col])%list) else t) sch)
  = Some (have ++ [col])%list.
Proof.
  unfold columns_of. induction sch as [|t sch IH]; simpl; [discriminate|].
  destruct (fst t =? "cases")%string eqn:E; simpl; rewrite E.
  - simpl. now intros [= <-].
  - exact IH.
Qed.

Lemma has_column_iff (col : string) (have : list string) :
  existsb (String.eqb col) have = true <-> In col have.
Proof.
  rewrite existsb_exists. split.
  - intros [x [Hx E]]. apply String.eqb_eq in E. now subst.
  - intros H. exists col. split; [assumption | apply String.eqb_refl].
Qed.

Lemma add_columns_no_table (L : list (string * (Case.row -> Case.row))) (db : Db) :
  columns_of "cases" (tables db) = None -> fold_left try_add_column L db = db.
Proof.
  intros H. induction L as [|x L IH]; simpl; [reflexivity|].
  unfold try_add_column at 2, add_column. now rewrite H.
Qed.

Lemma add_columns_present (L : list (string * (Case.row -> Case.row))) (db : Db)
    (have : list string) :
  columns_of "cases" (tables db) = Some have ->
  (forall x, In x L -> In (fst x) have) ->
  fold_left try_add_column L db = db.
Proof.
  intros H. induction L as [|x L IH]; simpl; intros HL; [reflexivity|].
  unfold try_add_column at 2, add_column. rewrite H.
  assert (E : existsb (String.eqb (fst x)) have = true)
    by (apply has_column_iff, HL; now left).
  rewrite E. apply IH. intros y Hy. apply HL. now right.
Qed.

Lemma add_columns_adds (L : list (string * (Case.row -> Case.row))) :
  forall (db : Db) (have : list string),
    columns_of "cases" (tables db) = Some have ->
    exists have',
      columns_of "cases" (tables (fold_left try_add_column L db)) = Some have'
      /\ incl have have'
      /\ forall x, In x L -> In (fst x) have'.
Proof.
  induction L as [|x L IH]; intros db have H; simpl.
  - exists have. split; [assumption|]. split; [apply incl_refl | contradiction].
  - assert (G : exists have1,
               columns_of "cases" (tables (try_add_column db x)) = Some have1
               /\ incl have have1 /\ In (fst x) have1).
    { unfold try_add_column, add_column. rewrite H.
      destruct (existsb (String.eqb (fst x)) have) eqn:E.
      - exists have. split; [assumption|]. split; [apply incl_refl|].
        now apply has_column_iff.
      - exists (have ++ [fst x])%list. cbn [tables].
        split; [now apply columns_of_extended|].
        split; [now apply incl_appl, incl_refl|].
        apply in_or_app. right. now left. }
    destruct G as (have1 & H1 & I1 & X1).
    destruct (IH (try_add_column db x) have1 H1) as (have' & H' & I' & X').
    exists have'. split; [assumption|]. split; [now apply incl_tran with have1|].
    intros y [<-|Hy]; [now apply I' | now apply X'].
Qed.

Lemma migrate_add_columns_again (db : Db) (s' : Store) :
  let sch2 := tables (migrate_new_tables (migrate_add_columns db)) in
  migrate_add_columns (mkDb sch2 s') = mkDb sch2 s'.
Proof.
  cbv zeta. unfold migrate_add_columns.
  set (db1 := fold_left try_add_column new_cols db).
  assert (E : columns_of "cases" (tables (migrate_new_tables db1))
              = columns_of "cases" (tables db1)).
  { unfold migrate_new_tables. cbn [tables]. apply created_tables_other.
    simpl. intros H. decompose [or] H; try discriminate; assumption. }
  destruct (columns_of "cases" (tables db)) as [have|] eqn:H.
  - destruct (@add_columns_adds new_cols db have H) as (have' & H' & _ & X').
    fold db1 in H'. apply add_columns_present with have'.
    + cbn [tables]. now rewrite E.
    + exact X'.
  - apply add_columns_no_table. cbn [tables]. rewrite E. unfold db1.
    now rewrite add_columns_no_table.
Qed.

(** *** The three data steps *)

Lemma copy_locations_fixed (s : Store) :
  Forall (fun r => needs_copy r = false) (cases s) -> copy_locations s = s.
Proof.
  intros H. unfold copy_locations. rewrite map_fixed; [apply with_cases_same|].
  intros r Hr. apply copy_location_fixed. rewrite Forall_forall in H. now apply H.
Qed.

Lemma move_crime_types_fixed (b : bool) (s : Store) :
  Forall (fun r => not_migrated r = false) (cases s) -> move_crime_types b s = s.
Proof.
  intros H. unfold move_crime_types. rewrite filter_no_match; [reflexivity|].
  intros r Hr. rewrite Forall_forall in H. now apply H.
Qed.

Lemma rename_statuses_fixed (s : Store) :
  Forall (fun r => retired_status r = false) (cases s) -> rename_statuses s = s.
Proof.
  intros H. unfold rename_statuses. rewrite map_fixed; [apply with_cases_same|].
  intros r Hr. apply migrate_status_row_fixed. rewrite Forall_forall in H. now apply H.
Qed.

Lemma copied_and_moved (b : bool) (s : Store) :
  let s4 := move_crime_types b (copy_locations s) in
  copy_locations s4 = s4 /\ move_crime_types b s4 = s4.
Proof.
  cbv zeta. split; [|apply move_crime_types_again].
  apply copy_locations_fixed. rewrite cases_after_move.
  unfold copy_locations. cbn [cases with_cases]. rewrite !Forall_map.
  apply Forall_forall. intros r _.
  rewrite mark_migrated_needs_copy. apply copy_location_done.
Qed.

Lemma migrated_rows_settled (b : bool) (s : Store) :
  Forall settled (cases (rename_statuses (move_crime_types b (copy_locations s)))).
Proof.
  unfold rename_statuses. cbn [cases with_cases]. rewrite cases_after_move.
  unfold copy_locations. cbn [cases with_cases]. rewrite !Forall_map.
  apply Forall_forall. intros r _.
  destruct (migrate_status_row_others (mark_migrated (copy_location r))) as [E1 E2].
  repeat split.
  - now rewrite E1, mark_migrated_needs_copy, copy_location_done.
  - now rewrite E2, mark_migrated_done.
  - apply migrate_status_row_done.
Qed.

Lemma settled_fixed (b : bool) (s : Store) :
  Forall settled (cases s) ->
  copy_locations s = s /\ move_crime_types b s = s /\ rename_statuses s = s.
Proof.
  intros H. repeat split.
  - apply copy_locations_fixed. eapply Forall_impl; [|exact H]. now intros r [? _].
  - apply move_crime_types_fixed. eapply Forall_impl; [|exact H]. now intros r (_ & ? & _).
  - apply rename_statuses_fixed. eapply Forall_impl; [|exact H]. now intros r (_ & _ & ?).
Qed.

(** Steps 3 to 5, run again on what they left, change nothing and end the
    same way. *)
Ltac known_columns :=
  repeat first
    [ progress cbn [tables rows fst]
    | match goal with
      | H : has_columns _ _ _ = _ |- _ => rewrite H
      end ].

Lemma migrate_data_again (db2 : Db) :
  migrate_data (fst (migrate_data db2)) = migrate_data db2.
Proof.
  destruct db2 as [sch s].
  unfold migrate_data, migrate_location, migrate_crime_types, migrate_status.
  cbn [tables rows].
  destruct (has_columns "cases"
              ["crime_scene_address"; "address"; "crime_scene_lat"; "latitude";
               "crime_scene_lon"; "longitude"] sch) eqn:B3;
    known_columns; [|reflexivity].
  destruct (has_columns "cases" ["id"; "crime_type"] sch) eqn:B4;
    known_columns; [|rewrite copy_locations_again; known_columns; reflexivity].
  destruct (has_columns "case_crime_types" ["case_id"; "crime_type"; "sort_order"] sch)
    as [|] eqn:Bt;
    match goal with
    | |- context [move_crime_types ?v _] =>
        destruct (copied_and_moved v s) as [C4 M4]; cbv zeta in C4, M4;
        destruct (@settled_fixed v _ (migrated_rows_settled v s)) as (F1 & F2 & F3)
    end;
    destruct (has_columns "cases" ["status"] sch) eqn:B5; known_columns.
  all: try (rewrite F1; known_columns; rewrite F2; known_columns; now rewrite F3).
  all: rewrite C4; known_columns; rewrite M4; known_columns; reflexivity.
Qed.

Lemma migrate_data_tables (db2 : Db) :
  tables (fst (migrate_data db2)) = tables db2.
Proof.
  unfold migrate_data, migrate_location, migrate_crime_types, migrate_status.
  destruct (has_columns "cases" _ (tables db2)); [|reflexivity]. cbn [tables].
  destruct (has_columns "cases" _ (tables db2)); [|reflexivity]. cbn [tables].
  destruct (has_columns "cases" _ (tables db2)); reflexivity.
Qed.

(** A second run of [migrate_db], from any database whatever its schema,
    leaves the database as the first run left it and ends the same way. *)
Lemma migrate_db_again (db : Db) :
  migrate_db (fst (migrate_db db)) = migrate_db db.
Proof.
  remember (fst (migrate_db db)) as R eqn:HR.
  assert (ER : R = mkDb (tables (migrate_new_tables (migrate_add_columns db))) (rows R)).
  { rewrite HR. unfold migrate_db. rewrite <- migrate_data_tables.
    now destruct (fst (migrate_data _)). }
  assert (E12 : migrate_new_tables (migrate_add_columns R) = R).
  { rewrite ER. rewrite migrate_add_columns_again. apply migrate_new_tables_again. }
  unfold migrate_db at 1. rewrite E12, HR. apply migrate_data_again.
Qed.

Lemma migrate_add_columns_settled (db : Db) :
  migrate_add_columns (migrate_add_columns db) = migrate_add_columns db.
Proof.
  unfold migrate_add_columns.
  destruct (columns_of "cases" (tables db)) as [have|] eqn:H.
  - destruct (@add_columns_adds new_cols db have H) as (have' & H' & _ & X').
    now apply add_columns_present with have'.
  - rewrite (add_columns_no_table new_cols db H). now apply add_columns_no_table.
Qed.

Lemma migrate_new_tables_settled (db : Db) :
  migrate_new_tables (migrate_new_tables db) = migrate_new_tables db.
Proof.
  transitivity (migrate_new_tables (mkDb (tables (migrate_new_tables db)) (rows db)));
    [reflexivity|].
  now rewrite migrate_new_tables_again.
Qed.

(** C3.  A second run of [migrate_db] changes nothing: from any database,
    the second run leaves the schema and every row of every table as the
    first run left them and ends as the first run ended.  On the schema
    [init_db] creates, whatever rows the tables hold, the first run does
    not raise and keeps the schema; on the database [init_db] makes of an
    empty file it changes nothing at all.  Each of the five steps, run
    again on its own result, returns that result. *)
Theorem migrate_db_second_run_changes_nothing :
  (forall db, migrate_db (fst (migrate_db db)) = migrate_db db)
  /\ (forall s,
         let db := mkDb (tables (init_db empty_db)) s in
         snd (migrate_db db) = Ok tt /\ tables (fst (migrate_db db)) = tables db)
  /\ migrate_db (init_db empty_db) = (init_db empty_db, Ok tt)
  /\ (forall db, migrate_add_columns (migrate_add_columns db) = migrate_add_columns db)
  /\ (forall db, migrate_new_tables (migrate_new_tables db) = migrate_new_tables db)
  /\ (forall db, (db' <- migrate_location db ;; migrate_location db')
                 = migrate_location db)
  /\ (forall db, (db' <- migrate_crime_types db ;; migrate_crime_types db')
                 = migrate_crime_types db)
  /\ (forall db, (db' <- migrate_status db ;; migrate_status db')
                 = migrate_status db).
Proof.
  repeat apply conj.
  - apply migrate_db_again.
  - intros s. cbv zeta. fold current_schema.
    now rewrite migrate_db_current_schema.
  - reflexivity.
  - apply migrate_add_columns_settled.
  - apply migrate_new_tables_settled.
  - intros [sch s]. unfold migrate_location. cbn [tables rows].
    destruct (has_columns _ _ sch) eqn:B; simpl; [|reflexivity].
    unfold migrate_location. cbn [tables rows]. now rewrite B, copy_locations_again.
  - intros [sch s]. unfold migrate_crime_types. cbn [tables rows].
    destruct (has_columns "cases" _ sch) eqn:B; simpl; [|reflexivity].
    unfold migrate_crime_types. cbn [tables rows].
    now rewrite B, move_crime_types_again.
  - intros [sch s]. unfold migrate_status. cbn [tables rows].
    destruct (has_columns _ _ sch) eqn:B; simpl; [|reflexivity].
    unfold migrate_status. cbn [tables rows]. now rewrite B, rename_statuses_again.
Qed.

(** The migration at work on a legacy database: the eight columns and the
    five tables are added, the location is copied, the crime type moves to
    [case_crime_types], the status is renamed; the second run finds
    nothing to do. *)
Example legacy_db_migrates :
  exists db1,
    migrate_db legacy_db = (db1, Ok tt)
    /\ cases (rows db1)
       = [Case.mk 1 "Pier" "__migrated__" "1998-07-01"
            (Some "Pier 4") (Some (Real 1)) (Some (Real 2))
            (Some "Pier 4") (Some (Real 1)) (Some (Real 2))
            None None None 0 None None None "Active" "t0"]
    /\ case_crime_types (rows db1) = [CaseCrimeType.mk 1 1 "Robbery" 0]
    /\ has_columns "cases" (map fst new_cols) (tables db1) = true
    /\ map fst (tables db1)
       = ["cases"; "suspects"; "suspect_case_links"; "case_links"; "timeline_events";
          "case_crime_types"; "case_tags"; "suspect_crime_history"; "projects";
          "project_cases"]
    /\ migrate_db db1 = (db1, Ok tt).
Proof.
  eexists. split; [reflexivity|]. repeat split.
Qed.

(** * Further properties *)

(** ** Reads that have one result *)

(** Two rearrangements of the same rows that both agree with the ORDER BY
    keys are the same list, when no two rows tie. *)
Lemma sorted_rearrangements_equal {A} (R : A -> A -> Prop) (l1 : list A) :
  forall l2,
    Permutation l1 l2 -> StronglySorted R l1 -> StronglySorted R l2 ->
    (forall x y, In x l1 -> In y l1 -> R x y -> R y x -> x = y) ->
    l1 = l2.
Proof.
  induction l1 as [|a l1 IH]; intros l2 Hp H1 H2 Hanti.
  - apply Permutation_nil in Hp. now subst.
  - destruct l2 as [|b l2]; [apply Permutation_sym, Permutation_nil in Hp; discriminate|].
    inversion H1 as [|? ? S1 F1]; subst. inversion H2 as [|? ? S2 F2]; subst.
    assert (E : a = b).
    { assert (Ha : In a (b :: l2)) by (eapply Permutation_in; [exact Hp | now left]).
      assert (Hb : In b (a :: l1))
        by (eapply Permutation_in; [symmetry; exact Hp | now left]).
      destruct Ha as [Ha|Ha]; [now subst|]. destruct Hb as [Hb|Hb]; [now subst|].
      rewrite Forall_forall in F1, F2.
      apply Hanti; [now left | now right | now apply F1 | now apply F2]. }
    subst b. f_equal. apply IH.
    + now apply Permutation_cons_inv in Hp.
    + assumption.
    + assumption.
    + intros x y Hx Hy. apply Hanti; now right.
Qed.

Lemma same_key_same_row {A K} (key : A -> K) (l : list A) (x y : A) :
  NoDup (map key l) -> In x l -> In y l -> key x = key y -> x = y.
Proof.
  induction l as [|a l IH]; simpl; intros Hnd Hx Hy E; [contradiction|].
  apply NoDup_cons_iff in Hnd. destruct Hnd as [Ha Hnd].
  destruct Hx as [<-|Hx], Hy as [<-|Hy]; auto.
  - exfalso. apply Ha. rewrite E. now apply in_map.
  - exfalso. apply Ha. rewrite <- E. now apply in_map.
Qed.

Lemma ordered_result_unique {A} (before : A -> A -> bool) (rows out1 out2 : list A) :
  (forall x y, In x rows -> In y rows ->
               before x y = true -> before y x = true -> x = y) ->
  ordered_result before rows out1 -> ordered_result before rows out2 -> out1 = out2.
Proof.
  intros Hanti [P1 S1] [P2 S2].
  apply sorted_rearrangements_equal with (R := fun x y => before x y = true);
    try assumption.
  - now rewrite <- P1.
  - intros x y Hx Hy. apply Hanti; eapply Permutation_in; try eassumption;
      now symmetry.
Qed.

(** Rows already in increasing order of an integer key are the one result
    of ordering them by that key. *)
Lemma increasing_rows_read_back {A} (key : A -> Z) (rows out : list A) :
  StronglySorted (fun x y => key x < key y) rows ->
  ordered_result (asc key) rows out -> out = rows.
Proof.
  intros Hs Hout. symmetry.
  assert (Hnd : NoDup (map key rows)).
  { clear Hout. induction Hs as [|a l Hl IH Ha]; simpl; [constructor|].
    constructor; [|assumption].
    rewrite in_map_iff. intros [y [E Hy]]. rewrite Forall_forall in Ha.
    specialize (Ha y Hy). lia. }
  apply ordered_result_unique with (before := asc key) (rows := rows); try assumption.
  - intros x y Hx Hy H1 H2. unfold asc in H1, H2.
    apply Z.leb_le in H1. apply Z.leb_le in H2.
    apply same_key_same_row with (key := key) (l := rows); auto.
    now apply Z.le_antisymm.
  - split; [reflexivity|]. clear Hout Hnd.
    induction Hs as [|a l Hl IH Ha]; constructor; [assumption|].
    apply Forall_forall. intros y Hy. rewrite Forall_forall in Ha.
    specialize (Ha y Hy). unfold asc. apply Z.leb_le. lia.
Qed.

Lemma increasing_rows_ordered {A} (key : A -> Z) (rows : list A) :
  StronglySorted (fun x y => key x < key y) rows ->
  ordered_result (asc key) rows rows.
Proof.
  intros Hs. split; [reflexivity|].
  induction Hs as [|a l Hl IH Ha]; constructor; [assumption|].
  apply Forall_forall. intros y Hy. rewrite Forall_forall in Ha.
  specialize (Ha y Hy). unfold asc. apply Z.leb_le. lia.
Qed.

Lemma next_rowid_above (ids : list Z) (x : Z) : In x ids -> x < next_rowid ids.
Proof.
  intros H. destruct ids as [|y ids]; [contradiction|].
  apply largest_id_ge in H. unfold next_rowid. lia.
Qed.

(** ** Replacing the crime types and the tags of a case *)

Lemma pair_seen {A} (k1 : A -> Z) (k2 : A -> string) (c : Z) (t : string)
    (tbl : list A) :
  existsb (fun r => (k1 r =? c) && (k2 r =? t)%string) tbl
  = existsb (String.eqb t) (map k2 (filter (fun r => k1 r =? c) tbl)).
Proof.
  induction tbl as [|r tbl IH]; simpl; [reflexivity|].
  destruct (k1 r =? c); simpl; [|assumption].
  now rewrite IH, (String.eqb_sym t).
Qed.

Lemma first_is_first (l : list string) : hd_error (first_occurrences [] l) = hd_error l.
Proof. now destruct l. Qed.

Lemma insert_crime_types_added (c : Z) :
  forall cts i tbl,
  exists added,
    insert_crime_types true c i cts tbl = Ok (tbl ++ added)%list
    /\ map CaseCrimeType.crime_type added
       = first_occurrences
           (map CaseCrimeType.crime_type
                (filter (fun r => CaseCrimeType.case_id r =? c) tbl)) cts
    /\ Forall (fun r => CaseCrimeType.case_id r = c /\ i <= CaseCrimeType.sort_order r)
              added
    /\ StronglySorted
         (fun x y => CaseCrimeType.sort_order x < CaseCrimeType.sort_order y) added.
Proof.
  induction cts as [|ct cts IH]; intros i tbl; simpl.
  - exists []. rewrite app_nil_r. repeat split; constructor.
  - rewrite (pair_seen CaseCrimeType.case_id CaseCrimeType.crime_type).
    destruct (existsb (String.eqb ct) _) eqn:E.
    + destruct (IH (i + 1) tbl) as (added & H1 & H2 & H3 & H4).
      exists added. repeat split; try assumption.
      eapply Forall_impl; [|exact H3]. simpl. intros r [? ?]. split; [assumption | lia].
    + set (r0 := CaseCrimeType.mk (next_rowid (map CaseCrimeType.id tbl)) c ct i).
      destruct (IH (i + 1) (tbl ++ [r0])%list) as (added & H1 & H2 & H3 & H4).
      exists (r0 :: added). rewrite H1, <- app_assoc. simpl.
      split; [reflexivity|]. split; [|split].
      * f_equal. rewrite H2, filter_app, map_app. simpl. now rewrite Z.eqb_refl.
      * constructor; [simpl; split; [reflexivity | lia]|].
        eapply Forall_impl; [|exact H3]. simpl. intros r [? ?]. split; [assumption | lia].
      * constructor; [assumption|].
        eapply Forall_impl; [|exact H3]. simpl. intros r [? ?]. lia.
Qed.

Lemma insert_tags_added (c : Z) :
  forall tags tbl,
  exists added,
    insert_tags true c tags tbl = Ok (tbl ++ added)%list
    /\ map CaseTag.tag added
       = first_occurrences
           (map CaseTag.tag (filter (fun r => CaseTag.case_id r =? c) tbl)) tags
    /\ Forall (fun r => CaseTag.case_id r = c
                        /\ forall x, In x (map CaseTag.id tbl) -> x < CaseTag.id r)
              added
    /\ StronglySorted (fun x y => CaseTag.id x < CaseTag.id y) added.
Proof.
  induction tags as [|t tags IH]; intros tbl; simpl.
  - exists []. rewrite app_nil_r. repeat split; constructor.
  - rewrite (pair_seen CaseTag.case_id CaseTag.tag).
    destruct (existsb (String.eqb t) _) eqn:E.
    + apply IH.
    + set (r0 := CaseTag.mk (next_rowid (map CaseTag.id tbl)) c t).
      destruct (IH (tbl ++ [r0])%list) as (added & H1 & H2 & H3 & H4).
      exists (r0 :: added). rewrite H1, <- app_assoc. simpl.
      split; [reflexivity|]. split; [|split].
      * f_equal. rewrite H2, filter_app, map_app. simpl. now rewrite Z.eqb_refl.
      * constructor; [simpl; split; [reflexivity | apply next_rowid_above]|].
        eapply Forall_impl; [|exact H3]. simpl. intros r [? Hr]. split; [assumption|].
        intros x Hx. apply Hr. rewrite map_app. apply in_or_app. now left.
      * constructor; [assumption|].
        eapply Forall_impl; [|exact H3]. simpl. intros r [_ Hr]. apply Hr.
        rewrite map_app. apply in_or_app. right. now left.
Qed.

Lemma filter_all {A} (f : A -> bool) (l : list A) :
  Forall (fun r => f r = true) l -> filter f l = l.
Proof.
  induction 1 as [|r l Hr Hl IH]; simpl; [reflexivity|]. now rewrite Hr, IH.
Qed.

Lemma filter_keep_other {A} (key : A -> Z) (c c' : Z) (l : list A) :
  c' <> c ->
  filter (fun r => key r =? c') (keep (fun r => key r =? c) l)
  = filter (fun r => key r =? c') l.
Proof.
  intros Hne. unfold keep. induction l as [|r l IH]; simpl; [reflexivity|].
  destruct (Z.eqb_spec (key r) c) as [E1|E1]; simpl.
  - rewrite IH. destruct (Z.eqb_spec (key r) c'); [congruence | reflexivity].
  - now rewrite IH.
Qed.

(** X1.  For a case that is in the store and any list of crime types,
    [set_case_crime_types] succeeds; afterwards [get_case_crime_types]
    returns the list with every repeated label dropped after its first
    occurrence, in the caller's order, and [get_primary_crime_type] returns
    the first label of the list (nothing for the empty list).  The rows of
    other cases and all other tables are left as they were. *)
Theorem set_case_crime_types_reads_back (s : Store) (c : Z) (cts : list string) :
  In c (case_ids s) ->
  exists s',
    set_case_crime_types s c cts = Ok s'
    /\ (forall out, get_case_crime_types s' c out <-> out = first_occurrences [] cts)
    /\ (forall o, get_primary_crime_type s' c o <-> o = hd_error cts)
    /\ (forall c', c' <> c -> crime_types_of s' c' = crime_types_of s c')
    /\ with_case_crime_types (case_crime_types s) s' = s.
Proof.
  intros Hc. apply has_case_iff in Hc. unfold set_case_crime_types. rewrite Hc.
  destruct (insert_crime_types_added c cts 0
              (keep (fun r => CaseCrimeType.case_id r =? c) (case_crime_types s)))
    as (added & E & Hm & Hc' & Hs).
  rewrite E. simpl. eexists. split; [reflexivity|].
  rewrite filter_keep_nil in Hm. simpl in Hm.
  assert (R : crime_types_of
                (with_case_crime_types
                   (keep (fun r => CaseCrimeType.case_id r =? c) (case_crime_types s)
                      ++ added) s) c = added).
  { unfold crime_types_of. simpl. rewrite filter_app, filter_keep_nil. simpl.
    apply filter_all. eapply Forall_impl; [|exact Hc']. simpl.
    intros r [-> _]. apply Z.eqb_refl. }
  split; [|split; [|split]].
  - intros out. unfold get_case_crime_types. rewrite R. split.
    + intros [sel [Hsel ->]]. apply increasing_rows_read_back in Hsel; [|assumption].
      now subst.
    + intros ->. exists added. split; [now apply increasing_rows_ordered | now symmetry].
  - intros o. unfold get_primary_crime_type. rewrite R. split.
    + intros [sel [Hsel ->]]. apply increasing_rows_read_back in Hsel; [|assumption].
      subst sel. now rewrite <- hd_error_map, Hm, first_is_first.
    + intros ->. exists added. split; [now apply increasing_rows_ordered|].
      now rewrite <- hd_error_map, Hm, first_is_first.
  - intros c' Hne. unfold crime_types_of. simpl. rewrite filter_app.
    assert (Ha : filter (fun r => CaseCrimeType.case_id r =? c') added = []).
    { apply filter_no_match. intros r Hr. rewrite Forall_forall in Hc'.
      destruct (Hc' r Hr) as [-> _]. now apply Z.eqb_neq. }
    rewrite Ha, app_nil_r. now apply filter_keep_other.
  - now destruct s.
Qed.

Lemma set_case_crime_types_reads_back_witness :
  exists s',
    set_case_crime_types sample_store 1 ["Arson"; "Fraud"; "Arson"; "Theft"] = Ok s'
    /\ get_case_crime_types s' 1 ["Arson"; "Fraud"; "Theft"]
    /\ get_primary_crime_type s' 1 (Some "Arson").
Proof.
  destruct (@set_case_crime_types_reads_back sample_store 1
              ["Arson"; "Fraud"; "Arson"; "Theft"]) as (s' & E & G & P & _).
  - simpl. auto.
  - exists s'. split; [exact E|]. split; [now apply G | now apply P].
Defined.

(** X2.  For a case that is in the store and any list of tags,
    [set_case_tags] succeeds and [get_case_tags] then returns the tags in
    the caller's order, each once: a tag given twice is kept at its first
    place.  The tags of other cases are left as they were. *)
Theorem set_case_tags_reads_back (s : Store) (c : Z) (tags : list string) :
  In c (case_ids s) ->
  exists s',
    set_case_tags s c tags = Ok s'
    /\ (forall out, get_case_tags s' c out <-> out = first_occurrences [] tags)
    /\ (forall c', c' <> c -> tags_of s' c' = tags_of s c')
    /\ with_case_tags (case_tags s) s' = s.
Proof.
  intros Hc. apply has_case_iff in Hc. unfold set_case_tags. rewrite Hc.
  destruct (insert_tags_added c tags
              (keep (fun r => CaseTag.case_id r =? c) (case_tags s)))
    as (added & E & Hm & Hc' & Hs).
  rewrite E. simpl. eexists. split; [reflexivity|].
  rewrite filter_keep_nil in Hm. simpl in Hm.
  assert (R : tags_of
                (with_case_tags
                   (keep (fun r => CaseTag.case_id r =? c) (case_tags s) ++ added) s) c
              = added).
  { unfold tags_of. simpl. rewrite filter_app, filter_keep_nil. simpl.
    apply filter_all. eapply Forall_impl; [|exact Hc']. simpl.
    intros r [-> _]. apply Z.eqb_refl. }
  split; [|split].
  - intros out. unfold get_case_tags. rewrite R. split.
    + intros [sel [Hsel ->]]. apply increasing_rows_read_back in Hsel; [|assumption].
      now subst.
    + intros ->. exists added. split; [now apply increasing_rows_ordered | now symmetry].
  - intros c' Hne. unfold tags_of. simpl. rewrite filter_app.
    assert (Ha : filter (fun r => CaseTag.case_id r =? c') added = []).
    { apply filter_no_match. intros r Hr. rewrite Forall_forall in Hc'.
      destruct (Hc' r Hr) as [-> _]. now apply Z.eqb_neq. }
    rewrite Ha, app_nil_r. now apply filter_keep_other.
  - now destruct s.
Qed.

Lemma set_case_tags_reads_back_witness :
  exists s',
    set_case_tags sample_store 1 ["Indoor"; "Domestic"; "Indoor"] = Ok s'
    /\ get_case_tags s' 1 ["Indoor"; "Domestic"].
Proof.
  destruct (@set_case_tags_reads_back sample_store 1 ["Indoor"; "Domestic"; "Indoor"])
    as (s' & E & G & _).
  - simpl. auto.
  - exists s'. split; [exact E | now apply G].
Defined.

Lemma no_match_after_keep {A} (k1 : A -> Z) (k2 : A -> string) (c : Z) (t : string)
    (l : list A) :
  existsb (fun r => (k1 r =? c) && (k2 r =? t)%string) (keep (fun r => k1 r =? c) l)
  = false.
Proof. now rewrite pair_seen, filter_keep_nil. Qed.

Lemma refs_absent {A} (fk : A -> Z) (ids : list Z) (tbl : list A) (c : Z) :
  refs fk ids tbl -> ~ In c ids -> ~ In c (map fk tbl).
Proof.
  intros Hr Hc Hin. apply in_map_iff in Hin. destruct Hin as [r [<- Hin]].
  unfold refs in Hr. rewrite Forall_forall in Hr. auto.
Qed.

(** X3.  For a case id that is not in the store, [set_case_crime_types] and
    [set_case_tags] with a non-empty list raise the foreign-key error (the
    first INSERT names a missing parent; OR IGNORE does not cover it), and
    with the empty list they succeed and, in a store whose foreign keys
    hold, change nothing. *)
Theorem set_for_missing_case (s : Store) (c : Z) :
  ~ In c (case_ids s) ->
  (forall ct cts, set_case_crime_types s c (ct :: cts) = Err ForeignKeyViolation)
  /\ (forall t tags, set_case_tags s c (t :: tags) = Err ForeignKeyViolation)
  /\ (fk_ok s -> set_case_crime_types s c [] = Ok s /\ set_case_tags s c [] = Ok s).
Proof.
  intros Hc.
  assert (Hp : has_case s c = false).
  { destruct (has_case s c) eqn:E; [|reflexivity]. now apply has_case_iff in E. }
  split; [|split].
  - intros ct cts. unfold set_case_crime_types. rewrite Hp. simpl.
    now rewrite (no_match_after_keep CaseCrimeType.case_id CaseCrimeType.crime_type).
  - intros t tags. unfold set_case_tags. rewrite Hp. simpl.
    now rewrite (no_match_after_keep CaseTag.case_id CaseTag.tag).
  - intros Hfk. unfold set_case_crime_types, set_case_tags. simpl.
    rewrite (keep_id_absent CaseCrimeType.case_id), (keep_id_absent CaseTag.case_id).
    + now destruct s.
    + eapply refs_absent; [apply (fk_case_tags Hfk) | exact Hc].
    + eapply refs_absent; [apply (fk_case_crime_types Hfk) | exact Hc].
Qed.

Lemma set_for_missing_case_witness :
  set_case_crime_types sample_store 7 ["Arson"] = Err ForeignKeyViolation
  /\ set_case_tags sample_store 7 ["Indoor"] = Err ForeignKeyViolation
  /\ set_case_crime_types sample_store 7 [] = Ok sample_store
  /\ set_case_tags sample_store 7 [] = Ok sample_store.
Proof.
  assert (H7 : ~ In 7 (case_ids sample_store)) by (simpl; lia).
  destruct (@set_for_missing_case sample_store 7 H7) as (H1 & H2 & H3).
  destruct (H3 (reachable_fk_ok sample_store_reachable)) as [H4 H5].
  exact (conj (H1 _ _) (conj (H2 _ _) (conj H4 H5))).
Defined.

(** ** Reading back what was written *)

Lemma find_other_snoc {A} (key : A -> Z) (l : list A) (x : A) (j : Z) :
  j <> key x ->
  find (fun r => key r =? j) (l ++ [x]) = find (fun r => key r =? j) l.
Proof.
  intros Hj. rewrite find_snoc. destruct (find _ l); [reflexivity|].
  destruct (Z.eqb_spec (key x) j); [congruence | reflexivity].
Qed.

Lemma find_absent {A} (key : A -> Z) (l : list A) (c : Z) :
  ~ In c (map key l) -> find (fun r => key r =? c) l = None.
Proof.
  intros Hc. destruct (find _ l) eqn:E; [|reflexivity].
  apply find_some in E. destruct E as [Hin E]. apply Z.eqb_eq in E.
  exfalso. apply Hc. rewrite <- E. now apply in_map.
Qed.


Lemma find_updated {A} (key : A -> Z) (f : A -> A) (c : Z) (l : list A) :
  (forall r, key (f r) = key r) ->
  find (fun r => key r =? c) (map (fun r => if key r =? c then f r else r) l)
  = option_map f (find (fun r => key r =? c) l).
Proof.
  intros Hf. induction l as [|r l IH]; simpl; [reflexivity|].
  destruct (key r =? c) eqn:E.
  - now rewrite Hf, E.
  - now rewrite E.
Qed.

Lemma find_other_updated {A} (key : A -> Z) (f : A -> A) (c j : Z) (l : list A) :
  (forall r, key (f r) = key r) ->
  j <> c ->
  find (fun r => key r =? j) (map (fun r => if key r =? c then f r else r) l)
  = find (fun r => key r =? j) l.
Proof.
  intros Hf Hj. induction l as [|r l IH]; simpl; [reflexivity|].
  destruct (Z.eqb_spec (key r) c) as [E|E].
  - rewrite Hf. destruct (Z.eqb_spec (key r) j); [congruence | assumption].
  - now rewrite IH.
Qed.




(** X6.  [update_suspect] always succeeds and rewrites the suspect with the
    given id and nothing else; [add_suspect] always succeeds, and
    [get_suspect] on the id it returns gives back the name, description and
    aliases passed, while every other id reads as before. *)
Theorem suspect_written_then_read (now : string) (s : Store) :
  (forall name description known_aliases,
      exists s' id,
        add_suspect now s name description known_aliases = Ok (s', id)
        /\ Forall (fun j => j < id) (suspect_ids s)
        /\ get_suspect s' id = Some (Suspect.mk id name description known_aliases now)
        /\ (forall j, j <> id -> get_suspect s' j = get_suspect s j)
        /\ with_suspects (suspects s) s' = s)
  /\ (forall x fields,
         exists s',
           update_suspect s x fields = Ok s'
           /\ get_suspect s' x = option_map (Suspect.update fields) (get_suspect s x)
           /\ (forall j, j <> x -> get_suspect s' j = get_suspect s j)
           /\ suspect_ids s' = suspect_ids s
           /\ with_suspects (suspects s) s' = s).
Proof.
  split.
  - intros name description known_aliases. unfold add_suspect.
    do 2 eexists. split; [reflexivity|]. split; [|split; [|split]].
    + apply Forall_forall. intros j Hj. now apply next_rowid_above.
    + unfold get_suspect. simpl.
      apply find_snoc_fresh; [reflexivity | apply next_rowid_fresh].
    + intros j Hj. unfold get_suspect. simpl. now apply find_other_snoc.
    + now destruct s.
  - intros x fields. unfold update_suspect. destruct fields as [|a fields].
    + exists s. split; [reflexivity|]. split; [now destruct (get_suspect s x)|].
      split; [reflexivity|]. split; [reflexivity | now destruct s].
    + change (update_suspect s x (a :: fields))
        with (Ok (with_suspects
                    (map (fun r => if Suspect.id r =? x
                                   then Suspect.update (a :: fields) r else r)
                         (suspects s)) s)).
      generalize (a :: fields) as fs. intros fs.
      eexists. split; [reflexivity|].
      unfold get_suspect, suspect_ids, with_suspects, suspects at 1 3 5.
      split; [|split; [|split]].
      * apply (find_updated Suspect.id). apply suspect_update_id.
      * intros j Hj.
        apply (find_other_updated Suspect.id); [apply suspect_update_id | exact Hj].
      * apply map_key_rewrite. apply suspect_update_id.
      * now destruct s.
Qed.

(** ** An insert undone by the delete of the new id *)

Lemma keep_new_row {A} (key : A -> Z) (l : list A) (x : A) :
  key x = next_rowid (map key l) ->
  keep (fun r => key r =? next_rowid (map key l)) (l ++ [x]) = l.
Proof.
  intros E. rewrite keep_app, keep_id_absent.
  - unfold keep. simpl. rewrite E, Z.eqb_refl. simpl. apply app_nil_r.
  - apply next_rowid_fresh.
Qed.

Lemma keep_unreferenced {A} (fk : A -> Z) (ids : list Z) (tbl : list A) :
  refs fk ids tbl -> keep (fun r => fk r =? next_rowid ids) tbl = tbl.
Proof.
  intros Hr. apply keep_id_absent. eapply refs_absent; [exact Hr|].
  apply next_rowid_fresh.
Qed.

(** X7.  In a store whose foreign keys hold, deleting the row an insert has
    just added gives back the store as it was before the insert: the new
    id is one no other row names, so the cascades find nothing.  This holds
    for cases, suspects and projects with their deletes, for history
    entries, suspect-case links, case links and timeline events, and for a
    new project membership removed by [unassign_case_from_project]. *)
Theorem insert_then_delete_restores (now : string) (s : Store) :
  fk_ok s ->
  (forall title date status mo vp im vc csa clat clon bfa blat blon,
      exists s' id,
        add_case now s title date status mo vp im vc csa clat clon bfa blat blon
          = Ok (s', id)
        /\ delete_case s' id = Ok s)
  /\ (forall name description aliases,
         exists s' id,
           add_suspect now s name description aliases = Ok (s', id)
           /\ delete_suspect s' id = Ok s)
  /\ (forall name description s' id,
         add_project now s name description = Ok (s', id) ->
         delete_project s' id = Ok s)
  /\ (forall x ct d cs notes s' id,
         add_suspect_crime_history now s x ct d cs notes = Ok (s', id) ->
         delete_suspect_crime_history_entry s' id = Ok s)
  /\ (forall x c t notes s' id,
         link_suspect_to_case now s x c t notes = Ok (s', id) ->
         delete_suspect_case_link s' id = Ok s)
  /\ (forall a b note s' id,
         link_cases now s a b note = Ok (s', id) ->
         delete_case_link s' id = Ok s)
  /\ (forall c ts title description s' id,
         add_timeline_event now s c ts title description = Ok (s', id) ->
         delete_timeline_event s' id = Ok s)
  /\ (forall p c s',
         ~ In (p, c) (map (fun r => (ProjectCase.project_id r, ProjectCase.case_id r))
                          (project_cases s)) ->
         assign_case_to_project now s p c = Ok s' ->
         unassign_case_from_project s' p c = Ok s).
Proof.
  intros Hfk. destruct Hfk as [F1 F2 F3 F4 F5 F6 F7 F8 F9 F10].
  split; [|split; [|split; [|split; [|split; [|split; [|split]]]]]].
  - intros. unfold add_case. do 2 eexists. split; [reflexivity|].
    rewrite delete_case_cases.
    match goal with |- context [has_case ?s' ?i] =>
      assert (Hh : has_case s' i = true)
    end.
    { apply has_case_iff. unfold case_ids. simpl. rewrite map_app.
      apply in_or_app. right. now left. }
    rewrite Hh. simpl.
    match goal with |- context [keep _ (_ ++ [?r])] =>
      rewrite (@keep_new_row _ Case.id (cases s) r) by reflexivity
    end.
    simpl Case.id. fold (case_ids s).
    rewrite (keep_unreferenced F1), (keep_unreferenced F2), (keep_unreferenced F5),
      (keep_unreferenced F8), (keep_unreferenced F10).
    rewrite <- keep_keep_or, (keep_unreferenced F6), (keep_unreferenced F7).
    now destruct s.
  - intros. unfold add_suspect. do 2 eexists. split; [reflexivity|].
    rewrite delete_suspect_cases.
    match goal with |- context [has_suspect ?s' ?i] =>
      assert (Hh : has_suspect s' i = true)
    end.
    { apply has_suspect_iff. unfold suspect_ids. simpl. rewrite map_app.
      apply in_or_app. right. now left. }
    rewrite Hh. simpl.
    match goal with |- context [keep _ (_ ++ [?r])] =>
      rewrite (@keep_new_row _ Suspect.id (suspects s) r) by reflexivity
    end.
    simpl Suspect.id. fold (suspect_ids s).
    rewrite (keep_unreferenced F3), (keep_unreferenced F4).
    now destruct s.
  - intros name description s' id. unfold add_project.
    destruct (existsb _ (projects s)); [discriminate|].
    intros E. injection E as <- <-. rewrite delete_project_cases.
    match goal with |- context [has_project ?s' ?i] =>
      assert (Hh : has_project s' i = true)
    end.
    { apply has_project_iff. unfold project_ids. simpl. rewrite map_app.
      apply in_or_app. right. now left. }
    rewrite Hh. simpl.
    match goal with |- context [keep _ (_ ++ [?r])] =>
      rewrite (@keep_new_row _ Project.id (projects s) r) by reflexivity
    end.
    simpl Project.id. fold (project_ids s).
    rewrite (keep_unreferenced F9).
    now destruct s.
  - intros x ct d cs notes s' id. unfold add_suspect_crime_history.
    destruct (has_suspect s x); [|discriminate].
    intros E. injection E as <- <-. unfold delete_suspect_crime_history_entry. simpl.
    match goal with |- context [keep _ (_ ++ [?r])] =>
      rewrite (@keep_new_row _ CrimeHistory.id (suspect_crime_history s) r) by reflexivity
    end.
    now destruct s.
  - intros x c t notes s' id. unfold link_suspect_to_case.
    destruct (existsb _ (suspect_case_links s)); [discriminate|].
    destruct (has_suspect s x && has_case s c); [|discriminate].
    intros E. injection E as <- <-. unfold delete_suspect_case_link. simpl.
    match goal with |- context [keep _ (_ ++ [?r])] =>
      rewrite (@keep_new_row _ SuspectCaseLink.id (suspect_case_links s) r) by reflexivity
    end.
    now destruct s.
  - intros a b note s' id. unfold link_cases.
    destruct (negb (Z.min a b <? Z.max a b)); [discriminate|].
    destruct (has_case s (Z.min a b) && has_case s (Z.max a b)); [|discriminate].
    intros E. injection E as <- <-. unfold delete_case_link. simpl.
    match goal with |- context [keep _ (_ ++ [?r])] =>
      rewrite (@keep_new_row _ CaseLink.id (case_links s) r) by reflexivity
    end.
    now destruct s.
  - intros c ts title description s' id. unfold add_timeline_event.
    destruct (has_case s c); [|discriminate].
    intros E. injection E as <- <-. unfold delete_timeline_event. simpl.
    match goal with |- context [keep _ (_ ++ [?r])] =>
      rewrite (@keep_new_row _ TimelineEvent.id (timeline_events s) r) by reflexivity
    end.
    now destruct s.
  - intros p c s' Hpc. unfold assign_case_to_project.
    apply membership_absent in Hpc. rewrite Hpc.
    destruct (has_project s p && has_case s c); [|discriminate].
    intros E. injection E as <-. unfold unassign_case_from_project. simpl.
    rewrite keep_app, keep_none by exact Hpc.
    unfold keep. simpl. rewrite !Z.eqb_refl. simpl. rewrite app_nil_r.
    now destruct s.
Qed.

Lemma insert_then_delete_restores_witness :
  (exists s' id,
      add_case "t9" sample_store "Roe File" "2001-01-01" "Active" "" "" false None
        "" None None "" None None = Ok (s', id)
      /\ delete_case s' id = Ok sample_store)
  /\ (exists s' id,
         add_suspect "t9" sample_store "A. Jones" None None = Ok (s', id)
         /\ delete_suspect s' id = Ok sample_store)
  /\ delete_project
       (inserted sample_store (add_project "t9" sample_store "Riverside" "")) 2
     = Ok sample_store
  /\ delete_timeline_event
       (inserted sample_store
          (add_timeline_event "t9" sample_store 1 "1999-03-06 10:00:00" "Autopsy" "")) 2
     = Ok sample_store.
Proof.
  destruct (@insert_then_delete_restores "t9" sample_store
              (reachable_fk_ok sample_store_reachable))
    as (H1 & H2 & H3 & _ & _ & _ & H7 & _).
  refine (conj (H1 _ _ _ _ _ _ _ _ _ _ _ _ _) (conj (H2 _ _ _) (conj _ _))).
  - apply (H3 "Riverside" ""). reflexivity.
  - apply (H7 1 "1999-03-06 10:00:00" "Autopsy" ""). reflexivity.
Defined.

(** ** Deleting a suspect, deleting a project *)

(** X8.  [delete_suspect] on a suspect that is in the store removes that
    suspect, every history entry and every case link of that suspect, and
    nothing else: the rows of other suspects stay, and cases, crime types,
    tags, case links, timeline events, projects and memberships are
    untouched. *)
Theorem delete_suspect_leaves_no_reference (s : Store) (x : Z) :
  In x (suspect_ids s) ->
  exists s',
    delete_suspect s x = Ok s'
    /\ ~ In x (suspect_ids s')
    /\ ~ In x (map CrimeHistory.suspect_id (suspect_crime_history s'))
    /\ ~ In x (map SuspectCaseLink.suspect_id (suspect_case_links s'))
    /\ (forall r, In r (suspects s') <-> In r (suspects s) /\ Suspect.id r <> x)
    /\ (forall r, In r (suspect_crime_history s')
                  <-> In r (suspect_crime_history s) /\ CrimeHistory.suspect_id r <> x)
    /\ (forall r, In r (suspect_case_links s')
                  <-> In r (suspect_case_links s) /\ SuspectCaseLink.suspect_id r <> x)
    /\ with_suspects (suspects s)
         (with_suspect_crime_history (suspect_crime_history s)
            (with_suspect_case_links (suspect_case_links s) s')) = s.
Proof.
  intros Hx. apply has_suspect_iff in Hx.
  rewrite delete_suspect_cases, Hx. eexists. split; [reflexivity|]. simpl.
  split; [apply keep_removes|]. split; [apply keep_removes|].
  split; [apply keep_removes|].
  split; [|split; [|split]].
  - intros r. rewrite keep_In. now rewrite Z.eqb_neq.
  - intros r. rewrite keep_In. now rewrite Z.eqb_neq.
  - intros r. rewrite keep_In. now rewrite Z.eqb_neq.
  - now destruct s.
Qed.

Lemma delete_suspect_leaves_no_reference_witness :
  exists s',
    delete_suspect sample_store 1 = Ok s'
    /\ suspects s' = [] /\ suspect_case_links s' = [] /\ cases s' = cases sample_store.
Proof.
  destruct (@delete_suspect_leaves_no_reference sample_store 1) as (s' & E & _).
  - simpl. auto.
  - exists s'. split; [exact E|]. injection E as <-. repeat split.
Defined.

Lemma filter_pair_keep_other {A} (k1 k2 : A -> Z) (c p q : Z) (l : list A) :
  q <> p ->
  filter (fun r => (k1 r =? c) && (k2 r =? q)) (keep (fun r => k2 r =? p) l)
  = filter (fun r => (k1 r =? c) && (k2 r =? q)) l.
Proof.
  intros Hq. unfold keep. induction l as [|r l IH]; simpl; [reflexivity|].
  destruct (Z.eqb_spec (k2 r) p) as [E|E]; simpl.
  - rewrite IH. destruct (Z.eqb_spec (k2 r) q); [congruence|].
    now rewrite andb_false_r.
  - now rewrite IH.
Qed.

Lemma cases_in_project_none (s : Store) (p : Z) :
  ~ In p (map ProjectCase.project_id (project_cases s)) -> cases_in_project s p = [].
Proof.
  intros Hp. unfold cases_in_project.
  induction (cases s) as [|c l IH]; simpl; [reflexivity|].
  rewrite IH, app_nil_r.
  rewrite filter_no_match; [reflexivity|].
  intros r Hr. destruct (Z.eqb_spec (ProjectCase.project_id r) p) as [E|E].
  - exfalso. apply Hp. rewrite <- E. now apply in_map.
  - apply andb_false_r.
Qed.

(** X9.  [delete_project] on a project that is in the store removes the
    project and its memberships and never a case: the case table and the
    listing of all cases are the same, the project then lists no case, and
    every other project lists the cases it listed before. *)
Theorem delete_project_keeps_the_cases (s : Store) (p : Z) :
  In p (project_ids s) ->
  exists s',
    delete_project s p = Ok s'
    /\ cases s' = cases s
    /\ ~ In p (project_ids s')
    /\ get_project s' p = None
    /\ get_cases_for_project s' p = []
    /\ (forall q, q <> p -> get_cases_for_project s' q = get_cases_for_project s q)
    /\ get_all_cases s' None = get_all_cases s None
    /\ with_projects (projects s) (with_project_cases (project_cases s) s') = s.
Proof.
  intros Hp. apply has_project_iff in Hp.
  rewrite delete_project_cases, Hp. eexists. split; [reflexivity|].
  split; [reflexivity|]. split; [apply keep_removes|].
  split; [apply find_absent; apply keep_removes|].
  split; [|split; [|split]].
  - unfold get_cases_for_project.
    now rewrite cases_in_project_none by apply keep_removes.
  - intros q Hq. unfold get_cases_for_project, cases_in_project. simpl.
    assert (E : forall c,
               filter (fun pc => (ProjectCase.case_id pc =? Case.id c)
                                 && (ProjectCase.project_id pc =? q))
                      (keep (fun r => ProjectCase.project_id r =? p) (project_cases s))
               = filter (fun pc => (ProjectCase.case_id pc =? Case.id c)
                                   && (ProjectCase.project_id pc =? q))
                        (project_cases s)).
    { intros c. now apply filter_pair_keep_other. }
    rewrite (flat_map_ext _ _ (fun c => f_equal (map (fun _ => c)) (E c))).
    reflexivity.
  - reflexivity.
  - now destruct s.
Qed.

Lemma delete_project_keeps_the_cases_witness :
  exists s',
    delete_project sample_store 1 = Ok s'
    /\ cases s' = cases sample_store
    /\ get_cases_for_project s' 1 = [].
Proof.
  destruct (@delete_project_keeps_the_cases sample_store 1)
    as (s' & E & Hc & _ & _ & Hout & _).
  - simpl. auto.
  - exists s'. split; [exact E|]. split; [exact Hc | exact Hout].
Defined.

(** ** Links between cases, read with the titles of the two cases *)

Lemma links_with_titles_In (s : Store) (cl : CaseLink.row) (t1 t2 : string) :
  In (cl, t1, t2) (links_with_titles s) <->
  In cl (case_links s)
  /\ (exists c1, In c1 (cases s) /\ CaseLink.case_id_1 cl = Case.id c1
                 /\ t1 = Case.title c1)
  /\ (exists c2, In c2 (cases s) /\ CaseLink.case_id_2 cl = Case.id c2
                 /\ t2 = Case.title c2).
Proof.
  unfold links_with_titles. rewrite in_flat_map. split.
  - intros [cl' [Hcl H]]. apply in_flat_map in H. destruct H as [c1 [H1 H]].
    apply in_map_iff in H. destruct H as [c2 [E H2]].
    apply filter_In in H1. apply filter_In in H2.
    destruct H1 as [H1 E1], H2 as [H2 E2].
    apply Z.eqb_eq in E1. apply Z.eqb_eq in E2.
    injection E as <- <- <-.
    split; [assumption|]. split; [exists c1 | exists c2]; auto.
  - intros [Hcl [[c1 [H1 [E1 ->]]] [c2 [H2 [E2 ->]]]]].
    exists cl. split; [assumption|]. apply in_flat_map. exists c1. split.
    + apply filter_In. split; [assumption | now apply Z.eqb_eq].
    + apply in_map_iff. exists c2. split; [reflexivity|].
      apply filter_In. split; [assumption | now apply Z.eqb_eq].
Qed.

Lemma filter_key_single {A} (key : A -> Z) (l : list A) (k : Z) :
  NoDup (map key l) -> In k (map key l) ->
  exists x, filter (fun r => k =? key r) l = [x]
            /\ find (fun r => key r =? k) l = Some x.
Proof.
  induction l as [|a l IH]; simpl; intros Hnd Hin; [contradiction|].
  apply NoDup_cons_iff in Hnd. destruct Hnd as [Ha Hnd].
  destruct (Z.eqb_spec k (key a)) as [E|E].
  - exists a. rewrite <- E, Z.eqb_refl. split; [|reflexivity]. f_equal.
    apply filter_no_match. intros r Hr. apply Z.eqb_neq. intros E'.
    apply Ha. rewrite <- E, E'. now apply in_map.
  - destruct Hin as [Hin|Hin]; [congruence|].
    destruct (IH Hnd Hin) as [x [H1 H2]]. exists x. split; [assumption|].
    destruct (Z.eqb_spec (key a) k); [congruence | assumption].
Qed.

Lemma links_with_titles_rows (s : Store) :
  NoDup (case_ids s) ->
  refs CaseLink.case_id_1 (case_ids s) (case_links s) ->
  refs CaseLink.case_id_2 (case_ids s) (case_links s) ->
  map link_of (links_with_titles s) = case_links s.
Proof.
  intros Hnd R1 R2. unfold links_with_titles, refs in *.
  induction (case_links s) as [|cl l IH]; simpl; [reflexivity|].
  inversion R1 as [|? ? H1 R1']; subst. inversion R2 as [|? ? H2 R2']; subst.
  destruct (@filter_key_single _ Case.id (cases s) _ Hnd H1) as [c1 [E1 _]].
  destruct (@filter_key_single _ Case.id (cases s) _ Hnd H2) as [c2 [E2 _]].
  rewrite E1. simpl. rewrite E2. simpl. f_equal. now apply IH.
Qed.

Lemma find_of_key {A} (key : A -> Z) (l : list A) (x : A) :
  NoDup (map key l) -> In x l -> find (fun r => key r =? key x) l = Some x.
Proof.
  induction l as [|a l IH]; simpl; intros Hnd Hin; [contradiction|].
  apply NoDup_cons_iff in Hnd. destruct Hnd as [Ha Hnd].
  destruct Hin as [->|Hin]; [now rewrite Z.eqb_refl|].
  destruct (Z.eqb_spec (key a) (key x)) as [E|E].
  - exfalso. apply Ha. rewrite E. now apply in_map.
  - now apply IH.
Qed.

Lemma in_project_iff (s : Store) (p c : Z) :
  in_project s p c = true
  <-> In (p, c) (map (fun pc => (ProjectCase.project_id pc, ProjectCase.case_id pc))
                     (project_cases s)).
Proof. apply membership_present. Qed.

(** X10.  In a store whose primary and foreign keys hold, the two joins of
    [get_all_case_links] neither drop nor repeat a link: every result
    without a project id holds each row of [case_links] exactly once,
    ordered by creation time, newest first, each with the titles of its two
    cases.  With a project id the result holds exactly the joined rows whose
    two cases are both members of the project. *)
Theorem get_all_case_links_each_link_once (s : Store) :
  pk_ok s -> fk_ok s ->
  (forall out,
      get_all_case_links s None out ->
      Permutation (case_links s) (map link_of out)
      /\ StronglySorted
           (fun x y => String.leb (CaseLink.created_at (link_of y))
                                  (CaseLink.created_at (link_of x)) = true) out
      /\ forall cl t1 t2,
           In (cl, t1, t2) out ->
           option_map Case.title (get_case s (CaseLink.case_id_1 cl)) = Some t1
           /\ option_map Case.title (get_case s (CaseLink.case_id_2 cl)) = Some t2)
  /\ (forall p out,
         get_all_case_links s (Some p) out ->
         forall x,
           In x out <->
           In x (links_with_titles s)
           /\ In (p, CaseLink.case_id_1 (link_of x))
                 (map (fun pc => (ProjectCase.project_id pc, ProjectCase.case_id pc))
                      (project_cases s))
           /\ In (p, CaseLink.case_id_2 (link_of x))
                 (map (fun pc => (ProjectCase.project_id pc, ProjectCase.case_id pc))
                      (project_cases s))).
Proof.
  intros Hpk Hfk. split.
  - intros out [Hp Hs]. split; [|split].
    + rewrite <- (@links_with_titles_rows s (pk_cases Hpk) (fk_case_links_1 Hfk)
                    (fk_case_links_2 Hfk)) at 1.
      now apply Permutation_map.
    + exact Hs.
    + intros cl t1 t2 Hin.
      apply (Permutation_in _ (Permutation_sym Hp)) in Hin.
      apply links_with_titles_In in Hin.
      destruct Hin as [_ [[c1 [H1 [E1 ->]]] [c2 [H2 [E2 ->]]]]].
      unfold get_case. rewrite E1, E2.
      rewrite !(@find_of_key _ Case.id) by (try apply (pk_cases Hpk); assumption).
      now split.
  - intros p out Hout x. simpl in Hout.
    rewrite (ordered_result_In x Hout), filter_In, andb_true_iff, !in_project_iff.
    tauto.
Qed.

Lemma get_all_case_links_each_link_once_witness :
  let s1 := inserted cases_2_and_5 (link_cases "t1" cases_2_and_5 5 2 "note") in
  let out := order_by (desc (fun x => CaseLink.created_at (link_of x)))
                      (links_with_titles s1) in
  Permutation (case_links s1) (map link_of out)
  /\ In (CaseLink.mk 1 2 5 "note" "t1", "Mill", "Weir") out.
Proof.
  intros s1 out.
  assert (Hpk : pk_ok s1).
  { constructor; simpl; repeat constructor; simpl; intros H; intuition lia. }
  assert (Hfk : fk_ok s1).
  { constructor; cbv; repeat (apply Forall_cons || apply Forall_nil); auto. }
  destruct (@get_all_case_links_each_link_once s1 Hpk Hfk) as [H _].
  split.
  - apply H. apply order_by_ordered; [apply desc_total | apply desc_trans].
  - simpl. auto.
Defined.

(** X11.  After a successful [link_cases a b], the new link, stored as
    (min, max) with the note and the time of the call, is in every result
    of [get_linked_cases] for [a] and for [b]; and whatever the store, a
    result of [get_linked_cases c] holds only links that have [c] as one of
    their two cases. *)
Theorem link_cases_then_get_linked_cases
    (now : string) (s s' : Store) (a b id : Z) (note : string) :
  link_cases now s a b note = Ok (s', id) ->
  (forall out,
      get_linked_cases s' a out ->
      exists t1 t2, In (CaseLink.mk id (Z.min a b) (Z.max a b) note now, t1, t2) out)
  /\ (forall out,
         get_linked_cases s' b out ->
         exists t1 t2, In (CaseLink.mk id (Z.min a b) (Z.max a b) note now, t1, t2) out)
  /\ (forall c out x,
         get_linked_cases s' c out -> In x out ->
         CaseLink.case_id_1 (link_of x) = c \/ CaseLink.case_id_2 (link_of x) = c).
Proof.
  unfold link_cases.
  destruct (negb (Z.min a b <? Z.max a b)); [discriminate|].
  destruct (has_case s (Z.min a b) && has_case s (Z.max a b)) eqn:Hh; [|discriminate].
  intros E. injection E as <- <-.
  apply andb_true_iff in Hh. destruct Hh as [H1 H2].
  apply has_case_iff in H1. apply has_case_iff in H2.
  unfold case_ids in H1, H2. apply in_map_iff in H1. apply in_map_iff in H2.
  destruct H1 as [c1 [E1 H1]], H2 as [c2 [E2 H2]].
  set (cl := CaseLink.mk (next_rowid (map CaseLink.id (case_links s)))
                         (Z.min a b) (Z.max a b) note now).
  assert (Hin : In (cl, Case.title c1, Case.title c2)
                   (links_with_titles
                      (with_case_links (case_links s ++ [cl]) s))).
  { apply links_with_titles_In. simpl. split; [apply in_or_app; right; now left|].
    split; [exists c1 | exists c2]; auto. }
  assert (Hab : forall c, c = a \/ c = b ->
            forall out,
              get_linked_cases (with_case_links (case_links s ++ [cl]) s) c out ->
              exists t1 t2, In (cl, t1, t2) out).
  { intros c Hc out Hout. exists (Case.title c1), (Case.title c2).
    apply (ordered_result_In _ Hout). apply filter_In. split; [exact Hin|].
    unfold link_of. simpl. apply orb_true_iff.
    destruct Hc as [-> | ->]; rewrite !Z.eqb_eq; lia. }
  split; [|split].
  - apply Hab. now left.
  - apply Hab. now right.
  - intros c out x Hout Hx. apply (ordered_result_In _ Hout) in Hx.
    apply filter_In in Hx. destruct Hx as [_ Hx].
    apply orb_true_iff in Hx. now rewrite !Z.eqb_eq in Hx.
Qed.

Lemma link_cases_then_get_linked_cases_witness :
  let s1 := inserted cases_2_and_5 (link_cases "t1" cases_2_and_5 5 2 "note") in
  exists t1 t2,
    In (CaseLink.mk 1 2 5 "note" "t1", t1, t2)
       (order_by (desc (fun x => CaseLink.created_at (link_of x)))
          (filter (fun x => (CaseLink.case_id_1 (link_of x) =? 5)
                            || (CaseLink.case_id_2 (link_of x) =? 5))
                  (links_with_titles s1))).
Proof.
  intros s1.
  destruct (@link_cases_then_get_linked_cases "t1" cases_2_and_5 s1 5 2 1 "note" eq_refl)
    as [H _].
  apply H. apply order_by_ordered; [apply desc_total | apply desc_trans].
Defined.

(** ** The map queries *)

Lemma has_coordinates_iff (c : Case.row) :
  has_coordinates c = true
  <-> Case.crime_scene_lat c <> None /\ Case.crime_scene_lon c <> None.
Proof.
  unfold has_coordinates.
  destruct (Case.crime_scene_lat c), (Case.crime_scene_lon c); split;
    try discriminate; try (intros [? ?]; congruence); intros _; split; discriminate.
Qed.

Lemma with_primary_crime_type_In (s : Store) (c c' : Case.row) (ct : option string) :
  In (c', ct) (with_primary_crime_type s c) <->
  c' = c
  /\ match ct with
     | None =>
         forall cct, In cct (case_crime_types s) ->
                     CaseCrimeType.case_id cct = Case.id c ->
                     CaseCrimeType.sort_order cct <> 0
     | Some t =>
         exists cct, In cct (case_crime_types s)
                     /\ CaseCrimeType.case_id cct = Case.id c
                     /\ CaseCrimeType.sort_order cct = 0
                     /\ CaseCrimeType.crime_type cct = t
     end.
Proof.
  unfold with_primary_crime_type.
  set (m := fun cct => (CaseCrimeType.case_id cct =? Case.id c)
                       && (CaseCrimeType.sort_order cct =? 0)).
  assert (Hm : forall cct, m cct = true <->
                           CaseCrimeType.case_id cct = Case.id c
                           /\ CaseCrimeType.sort_order cct = 0).
  { intros cct. unfold m. now rewrite andb_true_iff, !Z.eqb_eq. }
  destruct (filter m (case_crime_types s)) as [|x l] eqn:E.
  - split.
    + intros [H|[]]. injection H as <- <-. split; [reflexivity|].
      intros cct Hin Hc H0.
      assert (Hf : In cct (filter m (case_crime_types s)))
        by (apply filter_In; split; [assumption | now apply Hm]).
      now rewrite E in Hf.
    + intros [-> H]. destruct ct as [t|]; [|now left].
      destruct H as [cct [Hin [Hc [H0 _]]]].
      assert (Hf : In cct (filter m (case_crime_types s)))
        by (apply filter_In; split; [assumption | now apply Hm]).
      now rewrite E in Hf.
  - rewrite <- E. rewrite in_map_iff. split.
    + intros [cct [H Hin]]. injection H as <- <-. split; [reflexivity|].
      apply filter_In in Hin. destruct Hin as [Hin Hc]. apply Hm in Hc.
      exists cct. tauto.
    + intros [-> H]. destruct ct as [t|].
      * destruct H as [cct [Hin [Hc [H0 <-]]]]. exists cct. split; [reflexivity|].
        apply filter_In. split; [assumption | now apply Hm].
      * exfalso.
        assert (Hx : In x (filter m (case_crime_types s))) by (rewrite E; now left).
        apply filter_In in Hx. destruct Hx as [Hx Hc]. apply Hm in Hc.
        now apply (H x Hx).
Qed.

Lemma with_primary_crime_type_some (s : Store) (c : Case.row) :
  exists ct, In (c, ct) (with_primary_crime_type s c).
Proof.
  unfold with_primary_crime_type. destruct (filter _ _) as [|x l].
  - exists None. now left.
  - exists (Some (CaseCrimeType.crime_type x)). now left.
Qed.

Lemma listed_with_primary (s : Store) (rows : list Case.row) (c : Case.row) :
  (exists ct, In (c, ct)
                 (filter (fun x => has_coordinates (fst x))
                         (flat_map (with_primary_crime_type s) rows)))
  <-> In c rows /\ has_coordinates c = true.
Proof.
  split.
  - intros [ct H]. apply filter_In in H. destruct H as [H Hc].
    apply in_flat_map in H. destruct H as [c' [Hc' H]].
    apply with_primary_crime_type_In in H. destruct H as [-> _]. now split.
  - intros [Hin Hc]. destruct (with_primary_crime_type_some s c) as [ct H].
    exists ct. apply filter_In. split; [|exact Hc].
    apply in_flat_map. now exists c.
Qed.

Lemma cases_with_coordinates_In (s : Store) (p : option Z)
    (out : list (Case.row * option string)) (c : Case.row) :
  get_cases_with_coordinates s p out ->
  ((exists ct, In (c, ct) out) <->
   In c (match p with
         | None => cases s
         | Some p => cases_in_project s p
         end)
   /\ has_coordinates c = true).
Proof.
  intros Hout. destruct p as [p|]; simpl in Hout.
  - rewrite <- (listed_with_primary s (cases_in_project s p) c).
    split; intros [ct H]; exists ct; now apply (ordered_result_In _ Hout).
  - rewrite <- (listed_with_primary s (cases s) c).
    split; intros [ct H]; exists ct; now apply (ordered_result_In _ Hout).
Qed.

(** X12.  [get_cases_with_coordinates] lists a case if and only if both of
    its crime-scene coordinates are set (and, with a project id, the case
    is a member of the project).  A case without a crime type of sort order
    0 is still listed, with no primary crime type; a primary crime type
    that is given is the label of a row of that case with sort order 0. *)
Theorem get_cases_with_coordinates_lists (s : Store) :
  (forall out,
      get_cases_with_coordinates s None out ->
      forall c,
        (exists ct, In (c, ct) out) <->
        In c (cases s)
        /\ Case.crime_scene_lat c <> None /\ Case.crime_scene_lon c <> None)
  /\ (forall p out,
         get_cases_with_coordinates s (Some p) out ->
         forall c,
           (exists ct, In (c, ct) out) <->
           In c (cases s)
           /\ In (p, Case.id c)
                 (map (fun pc => (ProjectCase.project_id pc, ProjectCase.case_id pc))
                      (project_cases s))
           /\ Case.crime_scene_lat c <> None /\ Case.crime_scene_lon c <> None)
  /\ (forall p out c,
         get_cases_with_coordinates s p out ->
         (In (c, None) out ->
          forall cct, In cct (case_crime_types s) ->
                      CaseCrimeType.case_id cct = Case.id c ->
                      CaseCrimeType.sort_order cct <> 0)
         /\ (forall t, In (c, Some t) out ->
                       exists cct, In cct (case_crime_types s)
                                   /\ CaseCrimeType.case_id cct = Case.id c
                                   /\ CaseCrimeType.sort_order cct = 0
                                   /\ CaseCrimeType.crime_type cct = t)).
Proof.
  split; [|split].
  - intros out Hout c.
    rewrite (@cases_with_coordinates_In s None out c Hout), has_coordinates_iff. tauto.
  - intros p out Hout c.
    rewrite (@cases_with_coordinates_In s (Some p) out c Hout), has_coordinates_iff,
      cases_in_project_In. tauto.
  - intros p out c Hout.
    assert (H : forall ct, In (c, ct) out ->
                exists c0, In (c, ct) (with_primary_crime_type s c0)).
    { intros ct Hin. destruct p as [p|]; simpl in Hout;
        apply (ordered_result_In _ Hout) in Hin; apply filter_In in Hin;
        destruct Hin as [Hin _]; apply in_flat_map in Hin;
        destruct Hin as [c0 [_ Hin]]; now exists c0. }
    split.
    + intros Hin. destruct (H _ Hin) as [c0 H0].
      apply with_primary_crime_type_In in H0. destruct H0 as [-> H0]. exact H0.
    + intros t Hin. destruct (H _ Hin) as [c0 H0].
      apply with_primary_crime_type_In in H0. destruct H0 as [-> H0]. exact H0.
Qed.

Lemma get_cases_with_coordinates_lists_witness :
  let s1 := committed sample_store
              (update_case sample_store 1
                 [Case.crime_scene_lat_eq (Some (Real 1));
                  Case.crime_scene_lon_eq (Some (Real 2))]) in
  let out := order_by (desc (fun x => Case.date_occurred (fst x)))
               (filter (fun x => has_coordinates (fst x))
                       (flat_map (with_primary_crime_type s1) (cases s1))) in
  (exists ct, In (Case.update [Case.crime_scene_lat_eq (Some (Real 1));
                               Case.crime_scene_lon_eq (Some (Real 2))]
                              (Case.mk 1 "Doe File" "__migrated__" "1999-03-04"
                                 None None None None None None None None None
                                 1 (Some 1) None None "Cold Case" "t0"), ct) out)
  /\ out = [(Case.mk 1 "Doe File" "__migrated__" "1999-03-04"
               None None None None (Some (Real 1)) (Some (Real 2)) None None None
               1 (Some 1) None None "Cold Case" "t0", Some "Homicide")].
Proof.
  intros s1 out.
  assert (Hout : get_cases_with_coordinates s1 None out)
    by (apply order_by_ordered; [apply desc_total | apply desc_trans]).
  destruct (get_cases_with_coordinates_lists s1) as [H _].
  split; [|reflexivity].
  apply (H out Hout). simpl. split; [now left|]. split; discriminate.
Defined.

Lemma linked_pairs_In (s : Store) (cl : CaseLink.row) (c1 c2 : Case.row) :
  In (cl, c1, c2) (linked_pairs s) <->
  In cl (case_links s) /\ In c1 (cases s) /\ In c2 (cases s)
  /\ CaseLink.case_id_1 cl = Case.id c1 /\ CaseLink.case_id_2 cl = Case.id c2.
Proof.
  unfold linked_pairs. rewrite in_flat_map. split.
  - intros [cl' [Hcl H]]. apply in_flat_map in H. destruct H as [a [H1 H]].
    apply in_map_iff in H. destruct H as [b [E H2]].
    apply filter_In in H1. apply filter_In in H2.
    destruct H1 as [H1 E1], H2 as [H2 E2].
    apply Z.eqb_eq in E1. apply Z.eqb_eq in E2.
    injection E as <- <- <-. tauto.
  - intros [Hcl [H1 [H2 [E1 E2]]]].
    exists cl. split; [assumption|]. apply in_flat_map. exists c1. split.
    + apply filter_In. split; [assumption | now apply Z.eqb_eq].
    + apply in_map_iff. exists c2. split; [reflexivity|].
      apply filter_In. split; [assumption | now apply Z.eqb_eq].
Qed.

Lemma linked_pair_listed (s : Store) (p : option Z) (out : list LinkedPair.row)
    (r : LinkedPair.row) :
  get_linked_pairs_with_coordinates s p out -> In r out ->
  exists cl c1 c2,
    r = linked_pair_row (cl, c1, c2)
    /\ In (cl, c1, c2) (linked_pairs s)
    /\ has_coordinates c1 = true /\ has_coordinates c2 = true
    /\ match p with
       | None => True
       | Some p => in_project s p (Case.id c1) = true
                   /\ in_project s p (Case.id c2) = true
       end.
Proof.
  intros Hout Hr. unfold get_linked_pairs_with_coordinates in Hout.
  destruct p as [p|]; apply (Permutation_in _ (Permutation_sym Hout)) in Hr;
    apply in_map_iff in Hr; destruct Hr as [[[cl c1] c2] [<- Hin]];
    exists cl, c1, c2.
  - apply filter_In in Hin. destruct Hin as [Hin Hp].
    apply filter_In in Hin. destruct Hin as [Hin Hc].
    apply andb_true_iff in Hp. apply andb_true_iff in Hc.
    pose proof (proj1 (linked_pairs_In s cl c1 c2) Hin) as (_ & _ & _ & E1 & E2).
    rewrite <- E1, <- E2. tauto.
  - apply filter_In in Hin. destruct Hin as [Hin Hc].
    apply andb_true_iff in Hc. tauto.
Qed.

(** X13.  Every pair that [get_linked_pairs_with_coordinates] returns joins
    two cases that [get_cases_with_coordinates] lists for the same project
    argument, with the ids, titles and coordinates of those cases, and all
    four coordinates of the pair are set: a line of the map always runs
    between two markers. *)
Theorem linked_pairs_join_listed_cases
    (s : Store) (p : option Z) (pairs : list LinkedPair.row)
    (listed : list (Case.row * option string)) (r : LinkedPair.row) :
  get_linked_pairs_with_coordinates s p pairs ->
  get_cases_with_coordinates s p listed ->
  In r pairs ->
  (exists c1 ct1 c2 ct2,
      In (c1, ct1) listed /\ In (c2, ct2) listed
      /\ LinkedPair.c1_id r = Case.id c1 /\ LinkedPair.c1_title r = Case.title c1
      /\ LinkedPair.c1_lat r = Case.crime_scene_lat c1
      /\ LinkedPair.c1_lon r = Case.crime_scene_lon c1
      /\ LinkedPair.c2_id r = Case.id c2 /\ LinkedPair.c2_title r = Case.title c2
      /\ LinkedPair.c2_lat r = Case.crime_scene_lat c2
      /\ LinkedPair.c2_lon r = Case.crime_scene_lon c2)
  /\ LinkedPair.c1_lat r <> None /\ LinkedPair.c1_lon r <> None
  /\ LinkedPair.c2_lat r <> None /\ LinkedPair.c2_lon r <> None.
Proof.
  intros Hpairs Hlisted Hr.
  destruct (@linked_pair_listed s p pairs r Hpairs Hr)
    as (cl & c1 & c2 & -> & Hin & H1 & H2 & Hp).
  apply linked_pairs_In in Hin. destruct Hin as (_ & Hc1 & Hc2 & _ & _).
  pose proof (proj1 (has_coordinates_iff c1) H1) as [? ?].
  pose proof (proj1 (has_coordinates_iff c2) H2) as [? ?].
  split; [|simpl; tauto].
  assert (E1 : exists ct, In (c1, ct) listed).
  { apply (@cases_with_coordinates_In s p listed c1 Hlisted). split; [|exact H1].
    destruct p as [p|]; [|exact Hc1].
    apply cases_in_project_In. split; [exact Hc1|].
    apply in_project_iff. tauto. }
  assert (E2 : exists ct, In (c2, ct) listed).
  { apply (@cases_with_coordinates_In s p listed c2 Hlisted). split; [|exact H2].
    destruct p as [p|]; [|exact Hc2].
    apply cases_in_project_In. split; [exact Hc2|].
    apply in_project_iff. tauto. }
  destruct E1 as [ct1 E1], E2 as [ct2 E2].
  exists c1, ct1, c2, ct2. simpl. tauto.
Qed.

Lemma linked_pairs_join_listed_cases_witness :
  let s1 := inserted cases_2_and_5 (link_cases "t1" cases_2_and_5 5 2 "note") in
  let here := [Case.crime_scene_lat_eq (Some (Real 1));
               Case.crime_scene_lon_eq (Some (Real 2))] in
  let s2 := committed s1 (update_case s1 2 here) in
  let s3 := committed s2 (update_case s2 5 here) in
  let r := LinkedPair.mk "note" 2 "Mill" (Some (Real 1)) (Some (Real 2))
                         5 "Weir" (Some (Real 1)) (Some (Real 2)) in
  let listed := order_by (desc (fun x => Case.date_occurred (fst x)))
                  (filter (fun x => has_coordinates (fst x))
                          (flat_map (with_primary_crime_type s3) (cases s3))) in
  get_linked_pairs_with_coordinates s3 None [r]
  /\ exists c1 ct1 c2 ct2,
       In (c1, ct1) listed /\ In (c2, ct2) listed
       /\ Case.id c1 = 2 /\ Case.id c2 = 5.
Proof.
  intros s1 here s2 s3 r listed.
  assert (Hp : get_linked_pairs_with_coordinates s3 None [r])
    by (unfold get_linked_pairs_with_coordinates; simpl; apply Permutation_refl).
  assert (Hl : get_cases_with_coordinates s3 None listed)
    by (apply order_by_ordered; [apply desc_total | apply desc_trans]).
  split; [exact Hp|].
  destruct (@linked_pairs_join_listed_cases s3 None [r] listed r Hp Hl)
    as [(c1 & ct1 & c2 & ct2 & H1 & H2 & E1 & _ & _ & _ & E2 & _) _]; [now left|].
  exists c1, ct1, c2, ct2. simpl in E1, E2. auto.
Defined.

(** ** Projects and their names *)

Lemma asc_text_total {A} (key : A -> string) (x y : A) :
  asc_text key x y = true \/ asc_text key y x = true.
Proof. unfold asc_text. apply String.leb_total. Qed.

Lemma asc_text_trans {A} (key : A -> string) (x y z : A) :
  asc_text key x y = true -> asc_text key y z = true -> asc_text key x z = true.
Proof. unfold asc_text. apply string_leb_trans. Qed.

(** X14.  The project names being unique, [get_all_projects] has exactly
    one result: the projects in ascending order of their names, each
    once. *)
Theorem get_all_projects_one_result (s : Store) (out : list Project.row) :
  unique_ok s ->
  (get_all_projects s out <-> out = order_by (asc_text Project.name) (projects s)).
Proof.
  intros Hu.
  assert (Hrun : get_all_projects s (order_by (asc_text Project.name) (projects s))).
  { apply order_by_ordered; [apply asc_text_total | apply asc_text_trans]. }
  split; [|intros ->; exact Hrun].
  intros Hout.
  apply ordered_result_unique with (before := asc_text Project.name)
                                   (rows := projects s); try assumption.
  intros x y Hx Hy H1 H2.
  apply same_key_same_row with (key := Project.name) (l := projects s);
    try assumption.
  - apply (uq_project_name Hu).
  - unfold asc_text in H1, H2. now apply String.leb_antisym.
Qed.

Lemma get_all_projects_one_result_witness :
  get_all_projects sample_store [Project.mk 1 "Harbour" None "t0"]
  <-> [Project.mk 1 "Harbour" None "t0"]
      = order_by (asc_text Project.name) (projects sample_store).
Proof.
  apply get_all_projects_one_result.
  apply (proj2 (reachable_keys_ok sample_store_reachable)).
Defined.

Lemma name_present (n : string) (tbl : list Project.row) :
  existsb (fun r => (Project.name r =? n)%string) tbl = true
  <-> In n (map Project.name tbl).
Proof.
  rewrite existsb_exists, in_map_iff. split.
  - intros [r [Hr E]]. apply String.eqb_eq in E. now exists r.
  - intros [r [E Hr]]. exists r. split; [assumption | now apply String.eqb_eq].
Qed.

Lemma update_project_conflict (p : Z) (fields : list Project.assignment)
    (l : list Project.row) :
  existsb
    (fun r => (Project.id r =? p)
              && existsb (fun q => negb (Project.id q =? p)
                                   && (Project.name q =?
                                       Project.name (Project.update fields r))%string) l)
    l = true
  <-> exists r q, In r l /\ In q l /\ Project.id r = p /\ Project.id q <> p
                  /\ Project.name q = Project.name (Project.update fields r).
Proof.
  rewrite existsb_exists. split.
  - intros [r [Hr H]]. apply andb_true_iff in H. destruct H as [E H].
    apply existsb_exists in H. destruct H as [q [Hq H]].
    apply andb_true_iff in H. destruct H as [Hn H].
    apply Z.eqb_eq in E. apply negb_true_iff, Z.eqb_neq in Hn.
    apply String.eqb_eq in H. now exists r, q.
  - intros [r [q [Hr [Hq [E [Hn H]]]]]]. exists r. split; [assumption|].
    apply andb_true_iff. split; [now apply Z.eqb_eq|].
    apply existsb_exists. exists q. split; [assumption|].
    apply andb_true_iff. split.
    + now apply negb_true_iff, Z.eqb_neq.
    + now apply String.eqb_eq.
Qed.

(** X15.  [add_project] raises the UNIQUE error exactly when the name is
    taken, and otherwise succeeds.  [update_project] raises it exactly when
    the update would give the project the name of another project; it
    raises no other error.  In a store whose keys hold, [update_project]
    that keeps the project's own name is accepted, whatever the new
    description. *)
Theorem project_name_conflicts (now : string) (s : Store) :
  (forall name description,
      (add_project now s name description = Err UniqueViolation
       <-> In name (map Project.name (projects s)))
      /\ (~ In name (map Project.name (projects s)) ->
          exists s' id, add_project now s name description = Ok (s', id)))
  /\ (forall p fields,
         (update_project s p fields = Err UniqueViolation
          <-> fields <> []
              /\ exists r q, In r (projects s) /\ In q (projects s)
                             /\ Project.id r = p /\ Project.id q <> p
                             /\ Project.name q = Project.name (Project.update fields r))
         /\ (forall e, update_project s p fields = Err e -> e = UniqueViolation))
  /\ (keys_ok s ->
      forall r description,
        In r (projects s) ->
        exists s',
          update_project s (Project.id r)
            [Project.name_eq (Project.name r); Project.description_eq description]
          = Ok s'
          /\ get_project s' (Project.id r)
             = Some (Project.mk (Project.id r) (Project.name r) description
                                (Project.created_at r))).
Proof.
  split; [|split].
  - intros name description. unfold add_project.
    destruct (existsb _ (projects s)) eqn:E.
    + apply name_present in E. split; [tauto | contradiction].
    + apply name_absent in E. split.
      * split; [discriminate | contradiction].
      * intros _. now do 2 eexists.
  - intros p fields. unfold update_project. destruct fields as [|a fields].
    + split; [|discriminate]. split; [discriminate | intros [H _]; congruence].
    + destruct (existsb _ (projects s)) eqn:E.
      * apply update_project_conflict in E. split.
        -- split; [intros _; split; [discriminate | exact E] | reflexivity].
        -- intros e H. now injection H as <-.
      * split; [|discriminate]. split; [discriminate|].
        intros [_ H]. apply update_project_conflict in H. congruence.
  - intros [Hpk Hu] r description Hr.
    set (fields := [Project.name_eq (Project.name r);
                    Project.description_eq description]).
    assert (Hno : existsb
              (fun r0 => (Project.id r0 =? Project.id r)
                 && existsb (fun q => negb (Project.id q =? Project.id r)
                               && (Project.name q =?
                                   Project.name (Project.update fields r0))%string)
                            (projects s))
              (projects s) = false).
    { destruct (existsb _ (projects s)) eqn:E; [|reflexivity].
      apply update_project_conflict in E.
      destruct E as [r0 [q [Hr0 [Hq [E0 [Hn H]]]]]].
      assert (r0 = r)
        by (apply same_key_same_row with (key := Project.id) (l := projects s);
            auto; apply (pk_projects Hpk)).
      subst r0. simpl in H.
      assert (q = r)
        by (apply same_key_same_row with (key := Project.name) (l := projects s);
            auto; apply (uq_project_name Hu)).
      congruence. }
    unfold update_project. fold fields. cbv iota. rewrite Hno.
    eexists. split; [reflexivity|]. unfold get_project. simpl projects.
    rewrite (find_updated Project.id); [|intros r0; reflexivity].
    rewrite (@find_of_key _ Project.id) by (try apply (pk_projects Hpk); assumption).
    reflexivity.
Qed.

Lemma project_name_conflicts_witness :
  add_project "t9" sample_store "Harbour" "" = Err UniqueViolation
  /\ (exists s' id, add_project "t9" sample_store "Riverside" "" = Ok (s', id))
  /\ exists s',
       update_project sample_store 1
         [Project.name_eq "Harbour"; Project.description_eq (Some "Quay side")]
       = Ok s'
       /\ get_project s' 1 = Some (Project.mk 1 "Harbour" (Some "Quay side") "t0").
Proof.
  destruct (project_name_conflicts "t9" sample_store) as (H1 & _ & H3).
  split; [|split].
  - apply (H1 "Harbour" ""). simpl. auto.
  - apply (H1 "Riverside" ""). simpl. intros [H|[]]. discriminate.
  - apply (H3 (reachable_keys_ok sample_store_reachable)
              (Project.mk 1 "Harbour" None "t0") (Some "Quay side")).
    simpl. auto.
Defined.

(** ** The criminal history of a suspect *)

Lemma string_compare_leb (a b : string) :
  String.compare a b <> Gt -> String.leb a b = true.
Proof. unfold String.leb. now destruct (String.compare a b). Qed.

Lemma history_before_dates (x y : CrimeHistory.row) :
  history_before x y = true ->
  (CrimeHistory.date_of_crime x = None -> CrimeHistory.date_of_crime y = None)
  /\ (forall dx dy, CrimeHistory.date_of_crime x = Some dx ->
                    CrimeHistory.date_of_crime y = Some dy ->
                    String.leb dy dx = true).
Proof.
  unfold history_before.
  destruct (CrimeHistory.date_of_crime x) as [dx|], (CrimeHistory.date_of_crime y) as [dy|];
    intros H; split; try discriminate; try reflexivity.
  intros ? ? [= <-] [= <-]. apply string_compare_leb.
  destruct (String.compare dy dx); discriminate.
Qed.

(** X16.  NULLS LAST: every result of [get_suspect_crime_history] is the
    suspect's dated entries followed by the undated ones, the dated ones
    with the latest date of crime first; it holds the entries of that
    suspect and no other row. *)
Theorem get_suspect_crime_history_dated_first
    (s : Store) (x : Z) (out : list CrimeHistory.row) :
  get_suspect_crime_history s x out ->
  (exists dated undated,
      out = (dated ++ undated)%list
      /\ Forall (fun r => CrimeHistory.date_of_crime r <> None) dated
      /\ Forall (fun r => CrimeHistory.date_of_crime r = None) undated)
  /\ StronglySorted
       (fun a b => forall da db, CrimeHistory.date_of_crime a = Some da ->
                                 CrimeHistory.date_of_crime b = Some db ->
                                 String.leb db da = true) out
  /\ (forall r, In r out <->
                In r (suspect_crime_history s) /\ CrimeHistory.suspect_id r = x).
Proof.
  intros [Hp Hs]. split; [|split].
  - clear Hp. induction Hs as [|a l Hl IH Ha].
    + exists [], []. repeat split; constructor.
    + destruct (CrimeHistory.date_of_crime a) as [d|] eqn:E.
      * destruct IH as (dated & undated & -> & Hd & Hu).
        exists (a :: dated), undated. split; [reflexivity|]. split; [|assumption].
        constructor; [congruence | assumption].
      * exists [], (a :: l). split; [reflexivity|]. split; [constructor|].
        constructor; [assumption|].
        eapply Forall_impl; [|exact Ha]. simpl. intros y Hy.
        now apply (history_before_dates a y).
  - clear Hp. induction Hs as [|a l Hl IH Ha]; constructor; [assumption|].
    eapply Forall_impl; [|exact Ha]. simpl. intros y Hy.
    now apply (history_before_dates a y).
  - intros r. split.
    + intros Hr. apply (Permutation_in _ (Permutation_sym Hp)) in Hr.
      apply filter_In in Hr. now rewrite Z.eqb_eq in Hr.
    + intros [Hr E]. apply (Permutation_in _ Hp). apply filter_In.
      now rewrite Z.eqb_eq.
Qed.

Lemma get_suspect_crime_history_dated_first_witness :
  let s1 := inserted sample_store
              (add_suspect_crime_history "t1" sample_store 1 "Fraud" None
                 "Suspected" "") in
  let s2 := inserted s1
              (add_suspect_crime_history "t2" s1 1 "Theft" (Some "1997-02-03")
                 "Convicted" "") in
  get_suspect_crime_history_run s2 1
  = [CrimeHistory.mk 2 1 "Theft" (Some "1997-02-03") "Convicted" None "t2";
     CrimeHistory.mk 1 1 "Fraud" None "Suspected" None "t1"]
  /\ exists dated undated,
       get_suspect_crime_history_run s2 1 = (dated ++ undated)%list
       /\ Forall (fun r => CrimeHistory.date_of_crime r <> None) dated
       /\ Forall (fun r => CrimeHistory.date_of_crime r = None) undated.
Proof.
  intros s1 s2. split; [reflexivity|].
  apply (@get_suspect_crime_history_dated_first s2 1).
  apply order_by_ordered; [apply history_before_total | apply history_before_trans].
Defined.

(** ** Which error an insert raises *)

Lemma both_cases_present (s : Store) (a b : Z) :
  has_case s (Z.min a b) && has_case s (Z.max a b) = true
  <-> In a (case_ids s) /\ In b (case_ids s).
Proof.
  rewrite andb_true_iff, !has_case_iff.
  destruct (Z.min_spec a b) as [[H1 ->]|[H1 ->]], (Z.max_spec a b) as [[H2 ->]|[H2 ->]];
    try (exfalso; lia); tauto.
Qed.

(** X17.  The outcome of [link_cases a b] is decided by the arguments and
    the case table alone: the CHECK error when [a = b] (also when the case
    is missing), the foreign-key error when [a <> b] and one of the two
    cases is missing, success otherwise.  [add_timeline_event] and
    [add_suspect_crime_history] fail, with the foreign-key error, exactly
    when the case or suspect is missing; [assign_case_to_project] fails,
    with the foreign-key error, exactly when the pair is not yet a
    membership and the project or the case is missing. *)
Theorem insert_outcomes (now : string) (s : Store) :
  (forall a b note,
      (link_cases now s a b note = Err CheckViolation <-> a = b)
      /\ (link_cases now s a b note = Err ForeignKeyViolation
          <-> a <> b /\ ~ (In a (case_ids s) /\ In b (case_ids s)))
      /\ ((exists s' id, link_cases now s a b note = Ok (s', id))
          <-> a <> b /\ In a (case_ids s) /\ In b (case_ids s)))
  /\ (forall c ts title description,
         (add_timeline_event now s c ts title description = Err ForeignKeyViolation
          <-> ~ In c (case_ids s))
         /\ ((exists s' id, add_timeline_event now s c ts title description = Ok (s', id))
             <-> In c (case_ids s)))
  /\ (forall x ct d cs notes,
         (add_suspect_crime_history now s x ct d cs notes = Err ForeignKeyViolation
          <-> ~ In x (suspect_ids s))
         /\ ((exists s' id, add_suspect_crime_history now s x ct d cs notes = Ok (s', id))
             <-> In x (suspect_ids s)))
  /\ (forall p c,
         (assign_case_to_project now s p c = Err ForeignKeyViolation
          <-> ~ In (p, c) (map (fun r => (ProjectCase.project_id r, ProjectCase.case_id r))
                               (project_cases s))
              /\ ~ (In p (project_ids s) /\ In c (case_ids s)))
         /\ (forall e, assign_case_to_project now s p c = Err e ->
                       e = ForeignKeyViolation)).
Proof.
  split; [|split; [|split]].
  - intros a b note. unfold link_cases.
    destruct (Z.ltb_spec (Z.min a b) (Z.max a b)) as [Hlt|Hge]; simpl.
    + assert (Hne : a <> b) by lia.
      destruct (has_case s (Z.min a b) && has_case s (Z.max a b)) eqn:E.
      * apply both_cases_present in E. split; [|split].
        -- split; [discriminate | contradiction].
        -- split; [discriminate | tauto].
        -- split; [tauto | intros _; now do 2 eexists].
      * assert (E' : ~ (In a (case_ids s) /\ In b (case_ids s))).
        { intros H. apply both_cases_present in H. congruence. }
        split; [|split].
        -- split; [discriminate | contradiction].
        -- tauto.
        -- split; [intros [s' [id H]]; discriminate | tauto].
    + assert (Heq : a = b) by lia. split; [|split].
      * tauto.
      * split; [discriminate | tauto].
      * split; [intros [s' [id H]]; discriminate | tauto].
  - intros c ts title description. unfold add_timeline_event.
    destruct (has_case s c) eqn:E.
    + apply has_case_iff in E. split.
      * split; [discriminate | contradiction].
      * split; [tauto | intros _; now do 2 eexists].
    + assert (E' : ~ In c (case_ids s)) by (rewrite <- has_case_iff; congruence).
      split; [tauto|]. split; [intros [s' [id H]]; discriminate | contradiction].
  - intros x ct d cs notes. unfold add_suspect_crime_history.
    destruct (has_suspect s x) eqn:E.
    + apply has_suspect_iff in E. split.
      * split; [discriminate | contradiction].
      * split; [tauto | intros _; now do 2 eexists].
    + assert (E' : ~ In x (suspect_ids s)) by (rewrite <- has_suspect_iff; congruence).
      split; [tauto|]. split; [intros [s' [id H]]; discriminate | contradiction].
  - intros p c. unfold assign_case_to_project.
    destruct (existsb _ (project_cases s)) eqn:E.
    + apply membership_present in E. split; [|discriminate].
      split; [discriminate | tauto].
    + apply membership_absent in E.
      destruct (has_project s p && has_case s c) eqn:E2.
      * apply andb_true_iff in E2. rewrite has_project_iff, has_case_iff in E2.
        split; [|discriminate]. split; [discriminate | tauto].
      * assert (E' : ~ (In p (project_ids s) /\ In c (case_ids s))).
        { rewrite <- has_project_iff, <- has_case_iff, <- andb_true_iff. congruence. }
        split; [tauto|]. intros e H. now injection H as <-.
Qed.

Lemma insert_outcomes_witness :
  link_cases "t9" sample_store 7 7 "note" = Err CheckViolation
  /\ link_cases "t9" sample_store 1 7 "note" = Err ForeignKeyViolation
  /\ (exists s' id, link_cases "t9" cases_2_and_5 5 2 "note" = Ok (s', id))
  /\ assign_case_to_project "t9" sample_store 1 7 = Err ForeignKeyViolation.
Proof.
  destruct (insert_outcomes "t9" sample_store) as (H1 & _ & _ & H4).
  destruct (insert_outcomes "t9" cases_2_and_5) as (H5 & _).
  split; [|split; [|split]].
  - now apply (H1 7 7 "note").
  - apply (H1 1 7 "note"). split; [lia|]. simpl. intros [_ [H|[]]]. lia.
  - apply (H5 5 2 "note"). split; [lia|]. simpl. auto.
  - apply (H4 1 7). simpl. split.
    + intros [H|[]]. discriminate.
    + intros [_ [H|[]]]. lia.
Defined.

(** ** Project membership as the pages read it *)

Lemma NoDup_first_of_pair {A} (k1 k2 : A -> Z) (c : Z) (l : list A) :
  NoDup (map (fun r => (k1 r, k2 r)) l) ->
  NoDup (map k1 (filter (fun r => k2 r =? c) l)).
Proof.
  induction l as [|r l IH]; simpl; intros Hnd; [constructor|].
  apply NoDup_cons_iff in Hnd. destruct Hnd as [Hr Hnd].
  destruct (Z.eqb_spec (k2 r) c) as [E|E]; [|now apply IH].
  simpl. constructor; [|now apply IH].
  intros Hin. apply in_map_iff in Hin. destruct Hin as [q [E1 Hq]].
  apply filter_In in Hq. destruct Hq as [Hq E2]. apply Z.eqb_eq in E2.
  apply Hr. apply in_map_iff. exists q. split; [|assumption]. congruence.
Qed.

Lemma project_ids_for_case_In (s : Store) (c : Z) (out : list Z) (p : Z) :
  get_project_ids_for_case s c out ->
  (In p out <->
   In (p, c) (map (fun r => (ProjectCase.project_id r, ProjectCase.case_id r))
                  (project_cases s))).
Proof.
  intros [sel [Hp ->]]. rewrite !in_map_iff. split.
  - intros [r [E Hr]]. apply (Permutation_in _ (Permutation_sym Hp)) in Hr.
    apply filter_In in Hr. destruct Hr as [Hr Ec]. apply Z.eqb_eq in Ec.
    exists r. split; [congruence | assumption].
  - intros [r [E Hr]]. injection E as E1 E2. exists r. split; [assumption|].
    apply (Permutation_in _ Hp). apply filter_In. split; [assumption|].
    now apply Z.eqb_eq.
Qed.

(** X18.  [get_project_ids_for_case] returns the projects that have the case
    as a member, each once when the UNIQUE key of the memberships holds.
    After a successful [assign_case_to_project p c] the project [p] is in
    every result for [c], and after [unassign_case_from_project p c] it is
    in none. *)
Theorem get_project_ids_for_case_follows_membership (s : Store) (c : Z) :
  (forall out p,
      get_project_ids_for_case s c out ->
      (In p out <->
       In (p, c) (map (fun r => (ProjectCase.project_id r, ProjectCase.case_id r))
                      (project_cases s))))
  /\ (unique_ok s -> forall out, get_project_ids_for_case s c out -> NoDup out)
  /\ (forall now p s' out,
         assign_case_to_project now s p c = Ok s' ->
         get_project_ids_for_case s' c out -> In p out)
  /\ (forall p s' out,
         unassign_case_from_project s p c = Ok s' ->
         get_project_ids_for_case s' c out -> ~ In p out).
Proof.
  split; [|split; [|split]].
  - intros out p Hout. now apply project_ids_for_case_In.
  - intros Hu out [sel [Hp ->]].
    apply (Permutation_NoDup (Permutation_map ProjectCase.project_id Hp)).
    apply NoDup_first_of_pair with (k1 := ProjectCase.project_id)
                                   (k2 := ProjectCase.case_id).
    apply (uq_project_cases Hu).
  - intros now p s' out Ha Hout.
    apply (@project_ids_for_case_In s' c out p Hout).
    unfold assign_case_to_project in Ha.
    destruct (existsb _ (project_cases s)) eqn:E.
    + injection Ha as <-. now apply membership_present.
    + destruct (has_project s p && has_case s c); [|discriminate].
      injection Ha as <-. simpl. rewrite map_app. apply in_or_app. right. now left.
  - intros p s' out Hu Hout Hin.
    apply (@project_ids_for_case_In s' c out p Hout) in Hin.
    unfold unassign_case_from_project in Hu. injection Hu as <-. simpl in Hin.
    apply in_map_iff in Hin. destruct Hin as [r [E Hr]].
    apply keep_In in Hr. destruct Hr as [_ Hr]. injection E as E1 E2.
    now rewrite E1, E2, !Z.eqb_refl in Hr.
Qed.

Lemma get_project_ids_for_case_follows_membership_witness :
  get_project_ids_for_case sample_store 1 [1]
  /\ NoDup [1]
  /\ ~ In 1 (map ProjectCase.project_id
               (filter (fun r => ProjectCase.case_id r =? 1)
                  (project_cases
                     (committed sample_store
                        (unassign_case_from_project sample_store 1 1))))).
Proof.
  assert (H1 : get_project_ids_for_case sample_store 1 [1]).
  { exists [ProjectCase.mk 1 1 1 "t0"]. split; [apply Permutation_refl | reflexivity]. }
  destruct (get_project_ids_for_case_follows_membership sample_store 1)
    as (_ & Hnd & _ & Hun).
  split; [exact H1|]. split.
  - apply (Hnd (proj2 (reachable_keys_ok sample_store_reachable)) [1] H1).
  - apply (Hun 1 (committed sample_store (unassign_case_from_project sample_store 1 1)));
      [reflexivity|].
    eexists. split; [apply Permutation_refl | reflexivity].
Defined.

Lemma filter_sorted {A} (R : A -> A -> Prop) (f : A -> bool) (l : list A) :
  StronglySorted R l -> StronglySorted R (filter f l).
Proof.
  induction 1 as [|a l Hl IH Ha]; simpl; [constructor|].
  destruct (f a); [|assumption]. constructor; [assumption|].
  apply Forall_forall. intros y Hy. apply filter_In in Hy.
  rewrite Forall_forall in Ha. now apply Ha.
Qed.

Lemma listed_In {A} (before : A -> A -> bool) (rowid : A -> Z) (l : list A) (x : A) :
  In x (order_by before (rowid_scan rowid l)) <-> In x l.
Proof.
  assert (Hp : Permutation l (order_by before (rowid_scan rowid l))).
  { unfold rowid_scan. rewrite <- order_by_perm. apply order_by_perm. }
  split; intros H.
  - eapply Permutation_in; [symmetry; exact Hp | exact H].
  - eapply Permutation_in; [exact Hp | exact H].
Qed.

Lemma unassigned_In (s : Store) (p : Z) (c : Case.row) :
  In c (unassigned (get_all_cases s None) (get_cases_for_project s p)) <->
  In c (cases s)
  /\ ~ In (p, Case.id c)
          (map (fun r => (ProjectCase.project_id r, ProjectCase.case_id r))
               (project_cases s)).
Proof.
  unfold unassigned, get_all_cases, get_cases_for_project.
  rewrite filter_In, negb_true_iff, listed_In.
  split; intros [Hc H]; (split; [exact Hc|]).
  - intros Hin.
    match type of H with ?b = false => assert (E : b = true) end; [|congruence].
    apply existsb_exists. exists (Case.id c). split; [|apply Z.eqb_refl].
    apply in_map. apply listed_In. apply cases_in_project_In. now split.
  - match goal with |- ?b = false => destruct b eqn:E end; [|reflexivity].
    exfalso. apply H. apply existsb_exists in E. destruct E as [i [Hi E]].
    apply Z.eqb_eq in E. subst i. apply in_map_iff in Hi.
    destruct Hi as [c' [E Hc']]. apply listed_In in Hc'.
    apply cases_in_project_In in Hc'. rewrite <- E. tauto.
Qed.

(** X19.  The "Assign Cases" tab of [pages/projects.py]: with [all_cases]
    from [get_all_cases()] and [proj_cases] from [get_cases_for_project],
    the list [unassigned] holds exactly the cases that are not members of
    the project, still newest first; a case picked from it can be assigned
    when the project exists, and is then in the project's list and no
    longer in the list of unassigned cases the page computes. *)
Theorem unassigned_are_the_non_members (s : Store) (p : Z) :
  (forall c, In c (unassigned (get_all_cases s None) (get_cases_for_project s p)) <->
             In c (cases s)
             /\ ~ In (p, Case.id c)
                     (map (fun r => (ProjectCase.project_id r, ProjectCase.case_id r))
                          (project_cases s)))
  /\ StronglySorted
       (fun x y => String.leb (Case.date_occurred y) (Case.date_occurred x) = true)
       (unassigned (get_all_cases s None) (get_cases_for_project s p))
  /\ (forall now c,
         In c (unassigned (get_all_cases s None) (get_cases_for_project s p)) ->
         In p (project_ids s) ->
         exists s',
           assign_case_to_project now s p (Case.id c) = Ok s'
           /\ In c (get_cases_for_project s' p)
           /\ ~ In c (unassigned (get_all_cases s' None) (get_cases_for_project s' p))).
Proof.
  split; [|split].
  - intros c. apply unassigned_In.
  - unfold unassigned. apply filter_sorted. unfold get_all_cases.
    apply (@order_by_ordered _ (desc Case.date_occurred)
             (@desc_total _ Case.date_occurred) (@desc_trans _ Case.date_occurred)).
  - intros now c Hc Hp.
    apply unassigned_In in Hc. destruct Hc as [Hc Hno].
    unfold assign_case_to_project.
    apply membership_absent in Hno. rewrite Hno.
    apply has_project_iff in Hp. rewrite Hp.
    assert (Hh : has_case s (Case.id c) = true)
      by (apply has_case_iff; now apply in_map).
    rewrite Hh. simpl. eexists. split; [reflexivity|].
    assert (Hin : In (p, Case.id c)
                     (map (fun r => (ProjectCase.project_id r, ProjectCase.case_id r))
                          (project_cases s
                           ++ [ProjectCase.mk
                                 (next_rowid (map ProjectCase.id (project_cases s)))
                                 p (Case.id c) now]))).
    { rewrite map_app. apply in_or_app. right. now left. }
    split.
    + unfold get_cases_for_project. apply listed_In. apply cases_in_project_In.
      split; [exact Hc | exact Hin].
    + intros Hun. apply unassigned_In in Hun. destruct Hun as [_ Hun].
      apply Hun. exact Hin.
Qed.

Lemma unassigned_are_the_non_members_witness :
  unassigned (get_all_cases sample_store None) (get_cases_for_project sample_store 1)
  = []
  /\ exists s',
       assign_case_to_project "t9" (committed sample_store
                                      (unassign_case_from_project sample_store 1 1))
                              1 1 = Ok s'
       /\ In (Case.mk 1 "Doe File" "__migrated__" "1999-03-04" None None None
                None None None None None None 1 (Some 1) None None "Cold Case" "t0")
             (get_cases_for_project s' 1).
Proof.
  split; [reflexivity|].
  destruct (unassigned_are_the_non_members
              (committed sample_store (unassign_case_from_project sample_store 1 1)) 1)
    as (_ & _ & H).
  destruct (H "t9" (Case.mk 1 "Doe File" "__migrated__" "1999-03-04" None None None
                      None None None None None None 1 (Some 1) None None "Cold Case" "t0"))
    as (s' & E & Hin & _).
  - simpl. auto.
  - simpl. auto.
  - exists s'. split; [exact E | exact Hin].
Defined.

(** ** What [migrate_db] does to a database of an earlier version *)

Lemma columns_of_other_extended (col name : string) (sch : schema) :
  name <> "cases" ->
  columns_of name
    (map (fun t => if (fst t =? "cases")%string
                   then (fst t, (snd t ++ [col])%list) else t) sch)
  = columns_of name sch.
Proof.
  intros Hn. unfold columns_of. induction sch as [|t sch IH]; simpl; [reflexivity|].
  destruct (String.eqb_spec (fst t) "cases") as [E|E]; simpl.
  - rewrite E. destruct (String.eqb_spec "cases" name); [congruence | exact IH].
  - destruct (fst t =? name)%string; [reflexivity | exact IH].
Qed.

Lemma add_columns_other_tables (L : list (string * (Case.row -> Case.row)))
    (name : string) :
  name <> "cases" ->
  forall db, columns_of name (tables (fold_left try_add_column L db))
             = columns_of name (tables db).
Proof.
  intros Hn. induction L as [|x L IH]; intros db; simpl; [reflexivity|].
  rewrite IH. unfold try_add_column, add_column.
  destruct (columns_of "cases" (tables db)); [|reflexivity].
  destruct (existsb _ _); [reflexivity|]. cbn [tables].
  now apply columns_of_other_extended.
Qed.

Lemma add_columns_rows {T} (g : Case.row -> T)
    (L : list (string * (Case.row -> Case.row))) :
  Forall (fun x => forall r, g (snd x r) = g r) L ->
  forall db,
  exists f,
    (forall r, g (f r) = g r)
    /\ rows (fold_left try_add_column L db)
       = with_cases (map f (cases (rows db))) (rows db).
Proof.
  induction 1 as [|x L Hx HL IH]; intros db; simpl.
  - exists (fun r => r). split; [reflexivity|]. rewrite map_id. now destruct (rows db).
  - destruct (IH (try_add_column db x)) as [f2 [H2 E2]]. rewrite E2.
    unfold try_add_column, add_column.
    destruct (columns_of "cases" (tables db)); [|now exists f2].
    destruct (existsb _ _); [now exists f2|].
    exists (fun r => f2 (snd x r)). split; [intros r; now rewrite H2, Hx|].
    cbn [rows]. unfold with_cases. simpl. now rewrite map_map.
Qed.

Lemma has_columns_iff (name : string) (cols : list string) (sch : schema) :
  has_columns name cols sch = true
  <-> exists have, columns_of name sch = Some have /\ incl cols have.
Proof.
  unfold has_columns. destruct (columns_of name sch) as [have|].
  - rewrite forallb_forall. split.
    + intros H. exists have. split; [reflexivity|].
      intros c Hc. now apply has_column_iff, H.
    + intros [have' [[= <-] H]] c Hc. now apply has_column_iff, H.
  - split; [discriminate | intros [have [H _]]; discriminate].
Qed.

Lemma moved_crime_types (sel : list Case.row) :
  forall s,
    let s' := fold_left (migrate_crime_type_row true) sel s in
    incl (case_crime_types s) (case_crime_types s')
    /\ forall r, In r sel -> In (Case.id r) (case_ids s) ->
                 exists cct, In cct (case_crime_types s')
                             /\ CaseCrimeType.case_id cct = Case.id r
                             /\ CaseCrimeType.crime_type cct = Case.crime_type r.
Proof.
  induction sel as [|r sel IH]; intros s; simpl.
  - split; [apply incl_refl | contradiction].
  - set (s1 := migrate_crime_type_row true s r).
    destruct (IH s1) as [I1 M1].
    assert (Hc : cases s1 = cases s) by apply (migrate_crime_type_row_others true s r).
    assert (H1 : incl (case_crime_types s) (case_crime_types s1)
                 /\ (In (Case.id r) (case_ids s) ->
                     exists cct, In cct (case_crime_types s1)
                                 /\ CaseCrimeType.case_id cct = Case.id r
                                 /\ CaseCrimeType.crime_type cct = Case.crime_type r)).
    { unfold s1, migrate_crime_type_row. simpl.
      destruct (existsb _ (case_crime_types s)) eqn:E.
      - simpl. split; [apply incl_refl|]. intros _.
        apply existsb_exists in E. destruct E as [cct [Hin E]].
        apply andb_true_iff in E. destruct E as [E1 E2].
        apply Z.eqb_eq in E1. apply String.eqb_eq in E2. now exists cct.
      - destruct (has_case s (Case.id r)) eqn:Hh.
        + simpl. split; [apply incl_appl, incl_refl|]. intros _.
          eexists. split; [apply in_or_app; right; now left|]. now split.
        + split; [apply incl_refl|]. intros Hin. apply has_case_iff in Hin. congruence. }
    destruct H1 as [I0 M0]. split; [now apply incl_tran with (case_crime_types s1)|].
    intros r' [<-|Hr'] Hin.
    + destruct (M0 Hin) as [cct [H [E1 E2]]]. exists cct. split; [now apply I1 | now split].
    + apply M1; [assumption|]. unfold case_ids. now rewrite Hc.
Qed.

Lemma move_crime_types_keeps (s : Store) :
  let s' := move_crime_types true s in
  incl (case_crime_types s) (case_crime_types s')
  /\ forall r, In r (cases s) -> Case.crime_type r <> "__migrated__" ->
               exists cct, In cct (case_crime_types s')
                           /\ CaseCrimeType.case_id cct = Case.id r
                           /\ CaseCrimeType.crime_type cct = Case.crime_type r.
Proof.
  unfold move_crime_types.
  assert (Hsel : forall r, In r (cases s) -> Case.crime_type r <> "__migrated__" ->
                           In r (filter not_migrated (cases s))).
  { intros r Hr Hn. apply filter_In. split; [assumption|].
    unfold not_migrated. apply negb_true_iff. now apply String.eqb_neq. }
  destruct (filter not_migrated (cases s)) as [|x sel] eqn:E.
  - split; [apply incl_refl|]. intros r Hr Hn. now apply Hsel in Hr.
  - destruct (moved_crime_types (x :: sel) s) as [I M]. cbn [case_crime_types with_cases].
    split; [exact I|]. intros r Hr Hn. apply M; [now apply Hsel|].
    unfold case_ids. now apply in_map.
Qed.

Lemma Forall2_map_right {A B} (P : A -> B -> Prop) (f : A -> B) (l : list A) :
  (forall x, In x l -> P x (f x)) -> Forall2 P l (map f l).
Proof.
  induction l as [|a l IH]; simpl; intros H; constructor; auto.
Qed.

Lemma migrated_row (f : Case.row -> Case.row) (r : Case.row) :
  (forall r, (legacy_data (f r), Case.crime_type (f r), Case.status (f r))
             = (legacy_data r, Case.crime_type r, Case.status r)) ->
  let r' := migrate_status_row (mark_migrated (copy_location (f r))) in
  legacy_data r' = legacy_data r
  /\ Case.status r' = Case.status (migrate_status_row r)
  /\ Case.crime_type r' = "__migrated__"
  /\ (Case.latitude r <> None -> Case.crime_scene_lat r' <> None).
Proof.
  intros Hf. specialize (Hf r).
  injection Hf as Hid Htitle Hdate Haddr Hlat Hlon Hmo Hvp Hcreated Hc Hs.
  cbv zeta.
  assert (C : forall x, legacy_data (copy_location x) = legacy_data x
                        /\ Case.status (copy_location x) = Case.status x
                        /\ Case.crime_type (copy_location x) = Case.crime_type x
                        /\ (Case.latitude x <> None ->
                            Case.crime_scene_lat (copy_location x) <> None)).
  { intros x. unfold copy_location.
    destruct (Case.crime_scene_lat x) eqn:E1, (Case.latitude x) eqn:E2;
      repeat split; try congruence; simpl; congruence. }
  assert (M : forall x, legacy_data (mark_migrated x) = legacy_data x
                        /\ Case.status (mark_migrated x) = Case.status x
                        /\ Case.crime_type (mark_migrated x) = "__migrated__"
                        /\ Case.crime_scene_lat (mark_migrated x) = Case.crime_scene_lat x).
  { intros x. unfold mark_migrated, not_migrated.
    destruct (String.eqb_spec (Case.crime_type x) "__migrated__"); simpl; tauto. }
  assert (S : forall x, legacy_data (migrate_status_row x) = legacy_data x
                        /\ Case.crime_type (migrate_status_row x) = Case.crime_type x
                        /\ Case.crime_scene_lat (migrate_status_row x)
                           = Case.crime_scene_lat x).
  { intros x. unfold migrate_status_row.
    destruct ((Case.status x =? "Open")%string || (Case.status x =? "Linked")%string);
      simpl;
      repeat match goal with |- context [if ?b then _ else _] => destruct b end;
      simpl; tauto. }
  assert (St : forall x y, Case.status x = Case.status y ->
                 Case.status (migrate_status_row x) = Case.status (migrate_status_row y)).
  { intros x y E. unfold migrate_status_row. rewrite E.
    destruct ((Case.status y =? "Open")%string || (Case.status y =? "Linked")%string);
      simpl; [reflexivity|]. rewrite E.
    now destruct (Case.status y =? "Closed")%string. }
  destruct (C (f r)) as (C1 & C2 & C3 & C4).
  destruct (M (copy_location (f r))) as (M1 & M2 & M3 & M4).
  destruct (S (mark_migrated (copy_location (f r)))) as (S1 & S2 & S3).
  split; [|split; [|split]].
  - rewrite S1, M1, C1. unfold legacy_data. congruence.
  - apply St. congruence.
  - congruence.
  - intros Hl. rewrite S3, M4. apply C4. congruence.
Qed.

Lemma created_tables_new (L : list (string * list string)) :
  NoDup (map fst L) ->
  forall sch t, In t L -> columns_of (fst t) sch = None ->
                columns_of (fst t) (fold_left create_table_if_not_exists L sch)
                = Some (snd t).
Proof.
  induction L as [|a L IH]; simpl; intros Hnd sch t Hin Hn; [contradiction|].
  apply NoDup_cons_iff in Hnd. destruct Hnd as [Ha Hnd].
  destruct Hin as [<-|Hin].
  - apply created_tables_keep. now rewrite columns_of_created, Hn, String.eqb_refl.
  - apply IH; try assumption. rewrite columns_of_created, Hn.
    destruct (String.eqb_spec (fst a) (fst t)) as [E|E]; [|reflexivity].
    exfalso. apply Ha. rewrite E. now apply in_map.
Qed.

Lemma migrate_add_columns_effect (db : Db) (have : list string) :
  columns_of "cases" (tables db) = Some have ->
  exists have1 f,
    columns_of "cases" (tables (migrate_add_columns db)) = Some have1
    /\ incl (map fst new_cols ++ have)%list have1
    /\ columns_of "case_crime_types" (tables (migrate_add_columns db))
       = columns_of "case_crime_types" (tables db)
    /\ (forall r, (legacy_data (f r), Case.crime_type (f r), Case.status (f r))
                  = (legacy_data r, Case.crime_type r, Case.status r))
    /\ rows (migrate_add_columns db) = with_cases (map f (cases (rows db))) (rows db).
Proof.
  intros Hcases. unfold migrate_add_columns.
  destruct (@add_columns_adds new_cols db have Hcases) as (have1 & H1 & I1 & X1).
  destruct (@add_columns_rows _
              (fun r => (legacy_data r, Case.crime_type r, Case.status r)) new_cols)
    with (db := db) as [f [Hf R1]].
  { repeat constructor. }
  exists have1, f. split; [exact H1|]. split; [|split; [|split]].
  - intros c Hc. apply in_app_or in Hc. destruct Hc as [Hc|Hc].
    + apply in_map_iff in Hc. destruct Hc as [x [<- Hx]]. now apply X1.
    + now apply I1.
  - apply add_columns_other_tables. discriminate.
  - exact Hf.
  - exact R1.
Qed.

Lemma migrate_new_tables_effect (db1 : Db) :
  columns_of "cases" (tables (migrate_new_tables db1)) = columns_of "cases" (tables db1)
  /\ rows (migrate_new_tables db1) = rows db1
  /\ (columns_of "case_crime_types" (tables db1) = None
      \/ has_columns "case_crime_types" ["case_id"; "crime_type"; "sort_order"]
           (tables db1) = true ->
      has_columns "case_crime_types" ["case_id"; "crime_type"; "sort_order"]
        (tables (migrate_new_tables db1)) = true).
Proof.
  unfold migrate_new_tables. cbn [tables rows]. split; [|split].
  - apply created_tables_other. unfold new_tables. simpl map.
    intros H. simpl in H. decompose [or] H; try discriminate; assumption.
  - reflexivity.
  - intros Hcct. apply has_columns_iff. destruct Hcct as [Hn|Hy].
    + exists (snd case_crime_types_table). split.
      * apply (@created_tables_new new_tables) with (t := case_crime_types_table).
        -- unfold new_tables. simpl map. repeat constructor; simpl; intros H;
             decompose [or] H; try discriminate; assumption.
        -- unfold new_tables. now left.
        -- exact Hn.
      * intros c Hc. simpl in Hc |- *. tauto.
    + apply has_columns_iff in Hy. destruct Hy as [c [Hc Hi]].
      exists c. split; [|assumption]. now apply created_tables_keep.
Qed.

Lemma migrate_data_runs (db2 : Db) :
  has_columns "cases"
    ["crime_scene_address"; "address"; "crime_scene_lat"; "latitude";
     "crime_scene_lon"; "longitude"] (tables db2) = true ->
  has_columns "cases" ["id"; "crime_type"] (tables db2) = true ->
  has_columns "case_crime_types" ["case_id"; "crime_type"; "sort_order"] (tables db2)
  = true ->
  has_columns "cases" ["status"] (tables db2) = true ->
  migrate_data db2
  = (mkDb (tables db2)
          (rename_statuses (move_crime_types true (copy_locations (rows db2)))),
     Ok tt).
Proof.
  intros H1 H2 H3 H4. unfold migrate_data, migrate_location. rewrite H1.
  unfold migrate_crime_types. cbn [tables rows]. rewrite H2, H3.
  unfold migrate_status. cbn [tables rows]. rewrite H4. reflexivity.
Qed.

Lemma migrated_rows (f : Case.row -> Case.row) (s : Store) :
  (forall r, (legacy_data (f r), Case.crime_type (f r), Case.status (f r))
             = (legacy_data r, Case.crime_type r, Case.status r)) ->
  let s' := rename_statuses
              (move_crime_types true
                 (copy_locations (with_cases (map f (cases s)) s))) in
  Forall2 (fun r r' =>
             legacy_data r' = legacy_data r
             /\ Case.status r' = Case.status (migrate_status_row r)
             /\ Case.crime_type r' = "__migrated__"
             /\ (Case.latitude r <> None -> Case.crime_scene_lat r' <> None))
          (cases s) (cases s')
  /\ (forall r, In r (cases s) -> Case.crime_type r <> "__migrated__" ->
                exists cct, In cct (case_crime_types s')
                            /\ CaseCrimeType.case_id cct = Case.id r
                            /\ CaseCrimeType.crime_type cct = Case.crime_type r)
  /\ incl (case_crime_types s) (case_crime_types s')
  /\ with_cases (cases s) (with_case_crime_types (case_crime_types s) s') = s.
Proof.
  intros Hf.
  set (s3 := copy_locations (with_cases (map f (cases s)) s)).
  cbv zeta.
  assert (C3 : cases s3 = map (fun r => copy_location (f r)) (cases s)).
  { unfold s3, copy_locations. cbn [cases with_cases]. apply map_map. }
  assert (T3 : case_crime_types s3 = case_crime_types s) by reflexivity.
  destruct (move_crime_types_keeps s3) as [I M].
  split; [|split; [|split]].
  - unfold rename_statuses. cbn [cases with_cases].
    rewrite cases_after_move, C3, !map_map. apply Forall2_map_right. intros r _.
    now apply migrated_row.
  - intros r Hr Hn. pose proof (Hf r) as Hfr.
    injection Hfr as Hid _ _ _ _ _ _ _ _ Hc _.
    assert (Hcl : Case.crime_type (copy_location (f r)) = Case.crime_type r).
    { rewrite <- Hc. unfold copy_location.
      now destruct (Case.crime_scene_lat (f r)), (Case.latitude (f r)). }
    destruct (M (copy_location (f r))) as [cct [Hin [E1 E2]]].
    + rewrite C3. apply in_map_iff. exists r. split; [reflexivity | exact Hr].
    + rewrite Hcl. exact Hn.
    + exists cct. split; [exact Hin|]. rewrite E1, E2, copy_location_id.
      split; [exact Hid | exact Hcl].
  - unfold rename_statuses. cbn [case_crime_types with_cases]. now rewrite <- T3.
  - destruct (move_crime_types_tables true s3)
      as (_ & K1 & K2 & K3 & K4 & K5 & K6 & K7 & K8 & _).
    unfold with_cases at 1, with_case_crime_types, rename_statuses.
    cbn [cases case_crime_types case_tags suspects suspect_crime_history
         suspect_case_links case_links timeline_events projects project_cases
         with_cases].
    rewrite K1, K2, K3, K4, K5, K6, K7, K8.
    unfold s3, copy_locations, with_cases.
    cbn [cases case_crime_types case_tags suspects suspect_crime_history
         suspect_case_links case_links timeline_events projects project_cases].
    now destruct s.
Qed.

(** X20.  [migrate_db] on a database of an earlier version, where [cases]
    has the legacy columns and [case_crime_types] is missing or has its
    three columns, runs through without an error.  Afterwards [cases] has
    the eight new columns; the cases are the same, in id, title, dates,
    legacy location, descriptions and creation time; each case that had a
    legacy location has a crime-scene latitude; the crime type a case
    carried is a row of [case_crime_types] and the column holds the
    sentinel; no row of [case_crime_types] is lost; the status is the old
    one with the retired labels renamed; and the other eight tables hold
    what they held. *)
Theorem migrate_db_keeps_the_legacy_data (db : Db) (have : list string) :
  columns_of "cases" (tables db) = Some have ->
  incl ["id"; "crime_type"; "address"; "latitude"; "longitude"; "status"] have ->
  columns_of "case_crime_types" (tables db) = None
  \/ has_columns "case_crime_types" ["case_id"; "crime_type"; "sort_order"] (tables db)
     = true ->
  exists db',
    migrate_db db = (db', Ok tt)
    /\ has_columns "cases" (map fst new_cols) (tables db') = true
    /\ Forall2 (fun r r' =>
                  legacy_data r' = legacy_data r
                  /\ Case.status r' = Case.status (migrate_status_row r)
                  /\ Case.crime_type r' = "__migrated__"
                  /\ (Case.latitude r <> None -> Case.crime_scene_lat r' <> None))
               (cases (rows db)) (cases (rows db'))
    /\ (forall r, In r (cases (rows db)) -> Case.crime_type r <> "__migrated__" ->
                  exists cct, In cct (case_crime_types (rows db'))
                              /\ CaseCrimeType.case_id cct = Case.id r
                              /\ CaseCrimeType.crime_type cct = Case.crime_type r)
    /\ incl (case_crime_types (rows db)) (case_crime_types (rows db'))
    /\ with_cases (cases (rows db))
         (with_case_crime_types (case_crime_types (rows db)) (rows db'))
       = rows db.
Proof.
  intros Hcases Hlegacy Hcct.
  destruct (@migrate_add_columns_effect db have Hcases)
    as (have1 & f & H1 & I1 & C1 & Hf & R1).
  destruct (migrate_new_tables_effect (migrate_add_columns db)) as (H2 & R2 & T2).
  assert (Hcct1 : columns_of "case_crime_types" (tables (migrate_add_columns db)) = None
                  \/ has_columns "case_crime_types" ["case_id"; "crime_type"; "sort_order"]
                       (tables (migrate_add_columns db)) = true).
  { unfold has_columns in *. rewrite C1. exact Hcct. }
  specialize (T2 Hcct1). rewrite H1 in H2.
  assert (Hcol : forall cols, incl cols (map fst new_cols ++ have)%list ->
                   has_columns "cases" cols
                     (tables (migrate_new_tables (migrate_add_columns db))) = true).
  { intros cols Hi. apply has_columns_iff. exists have1. split; [exact H2|].
    intros c Hc. apply I1. now apply Hi. }
  assert (Hold : forall c, In c ["id"; "crime_type"; "address"; "latitude";
                                 "longitude"; "status"] ->
                           In c (map fst new_cols ++ have)%list).
  { intros c Hc. apply in_or_app. right. now apply Hlegacy. }
  assert (Hnew : forall c, In c (map fst new_cols) ->
                           In c (map fst new_cols ++ have)%list).
  { intros c Hc. apply in_or_app. now left. }
  exists (mkDb (tables (migrate_new_tables (migrate_add_columns db)))
               (rename_statuses
                  (move_crime_types true
                     (copy_locations (with_cases (map f (cases (rows db))) (rows db)))))).
  cbn [tables rows].
  split; [|split].
  - unfold migrate_db.
    rewrite migrate_data_runs;
      [now rewrite R2, R1 | apply Hcol | apply Hcol | | apply Hcol].
    + intros c Hc. simpl in Hc.
      decompose [or] Hc; subst; try contradiction;
        first [apply Hold; simpl; tauto | apply Hnew; simpl; tauto].
    + intros c Hc. simpl in Hc.
      decompose [or] Hc; subst; try contradiction; apply Hold; simpl; tauto.
    + exact T2.
    + intros c Hc. simpl in Hc.
      decompose [or] Hc; subst; try contradiction; apply Hold; simpl; tauto.
  - apply Hcol. apply incl_appl, incl_refl.
  - now apply migrated_rows.
Qed.

Lemma migrate_db_keeps_the_legacy_data_witness :
  exists db',
    migrate_db (init_db legacy_db) = (db', Ok tt)
    /\ has_columns "cases" (map fst new_cols) (tables db') = true
    /\ exists cct, In cct (case_crime_types (rows db'))
                   /\ CaseCrimeType.case_id cct = 1
                   /\ CaseCrimeType.crime_type cct = "Robbery".
Proof.
  destruct (@migrate_db_keeps_the_legacy_data (init_db legacy_db)
              ["id"; "title"; "crime_type"; "date_occurred"; "address"; "latitude";
               "longitude"; "mo_description"; "victim_profile"; "status"; "created_at"])
    as (db' & E & Hc & _ & Hm & _).
  - reflexivity.
  - intros c Hc. simpl in Hc |- *. tauto.
  - right. reflexivity.
  - exists db'. split; [exact E|]. split; [exact Hc|].
    apply (Hm (Case.mk 1 "Pier" "Robbery" "1998-07-01"
                 (Some "Pier 4") (Some (Real 1)) (Some (Real 2))
                 None None None None None None 0 None None None "Open" "t0")).
    + simpl. auto.
    + discriminate.
Defined.

(** ** [init_db] *)

(** X21.  [init_db] creates the tables that are missing and touches nothing
    else: no row changes, a table that exists keeps its columns (so a
    [cases] table of an earlier version is not brought up to date by it),
    each of the ten tables exists afterwards, a missing one with the columns
    of the script, a table the script does not name is as before, and a
    second run changes nothing. *)
Theorem init_db_creates_what_is_missing (db : Db) :
  let script := [cases_table; case_crime_types_table; case_tags_table; suspects_table;
                 suspect_crime_history_table; suspect_case_links_table;
                 case_links_table; timeline_events_table; projects_table;
                 project_cases_table] in
  rows (init_db db) = rows db
  /\ (forall name cols,
         columns_of name (tables db) = Some cols ->
         columns_of name (tables (init_db db)) = Some cols)
  /\ (forall t, In t script ->
                columns_of (fst t) (tables (init_db db)) <> None
                /\ (columns_of (fst t) (tables db) = None ->
                    columns_of (fst t) (tables (init_db db)) = Some (snd t)))
  /\ (forall name, ~ In name (map fst script) ->
                   columns_of name (tables (init_db db)) = columns_of name (tables db))
  /\ init_db (init_db db) = init_db db.
Proof.
  intros script. unfold init_db. cbn [tables rows]. fold script.
  split; [reflexivity|]. split; [|split; [|split]].
  - intros name cols H. now apply created_tables_keep.
  - intros t Ht. split; [now apply created_tables_exist|].
    apply created_tables_new; [|exact Ht].
    unfold script. simpl. repeat constructor; simpl; intros H;
      decompose [or] H; try discriminate; assumption.
  - intros name Hn. now apply created_tables_other.
  - f_equal. apply created_tables_fixed. intros t Ht. now apply created_tables_exist.
Qed.

Lemma init_db_creates_what_is_missing_witness :
  columns_of "cases" (tables (init_db legacy_db))
  = Some ["id"; "title"; "crime_type"; "date_occurred"; "address"; "latitude";
          "longitude"; "mo_description"; "victim_profile"; "status"; "created_at"]
  /\ columns_of "projects" (tables (init_db legacy_db)) = Some (snd projects_table).
Proof.
  destruct (init_db_creates_what_is_missing legacy_db) as (_ & H1 & H2 & _).
  split.
  - apply H1. reflexivity.
  - apply (H2 projects_table); [simpl; tauto | reflexivity].
Defined.

(** ** The suspects linked to a case *)

Lemma links_with_names_rows (s : Store) (c : Z) :
  NoDup (suspect_ids s) ->
  refs SuspectCaseLink.suspect_id (suspect_ids s) (suspect_case_links s) ->
  map fst (links_with_names s c)
  = filter (fun scl => SuspectCaseLink.case_id scl =? c) (suspect_case_links s).
Proof.
  intros Hnd R. unfold links_with_names, refs in *.
  induction (suspect_case_links s) as [|scl l IH]; simpl; [reflexivity|].
  inversion R as [|? ? H1 R']; subst.
  destruct (SuspectCaseLink.case_id scl =? c); [|now apply IH].
  simpl.
  destruct (@filter_key_single _ Suspect.id (suspects s) _ Hnd H1) as [su [E _]].
  rewrite E. simpl. f_equal. now apply IH.
Qed.

(** X22.  In a store whose primary and foreign keys hold, the join of
    [get_suspect_links_for_case] with the suspects neither drops nor
    repeats a link: every result holds each link of the case exactly once,
    newest first, each with the name of its suspect. *)
Theorem get_suspect_links_for_case_each_link_once
    (s : Store) (c : Z) (out : list (SuspectCaseLink.row * string)) :
  pk_ok s -> fk_ok s ->
  get_suspect_links_for_case s c out ->
  Permutation (filter (fun scl => SuspectCaseLink.case_id scl =? c)
                      (suspect_case_links s))
              (map fst out)
  /\ StronglySorted
       (fun x y => String.leb (SuspectCaseLink.created_at (fst y))
                              (SuspectCaseLink.created_at (fst x)) = true) out
  /\ forall scl n,
       In (scl, n) out ->
       option_map Suspect.name (get_suspect s (SuspectCaseLink.suspect_id scl)) = Some n.
Proof.
  intros Hpk Hfk [Hp Hs]. split; [|split].
  - rewrite <- (@links_with_names_rows s c (pk_suspects Hpk) (fk_scl_suspect Hfk)).
    now apply Permutation_map.
  - exact Hs.
  - intros scl n Hin. apply (Permutation_in _ (Permutation_sym Hp)) in Hin.
    apply links_with_names_In in Hin.
    destruct Hin as (_ & _ & su & Hsu & E & ->).
    unfold get_suspect. rewrite E.
    now rewrite (@find_of_key _ Suspect.id (suspects s) su (pk_suspects Hpk) Hsu).
Qed.

Lemma get_suspect_links_for_case_each_link_once_witness :
  get_suspect_links_for_case_run sample_store 1
  = [(SuspectCaseLink.mk 1 1 1 "DNA Evidence" None "t0", "J. Smith")]
  /\ Permutation (filter (fun scl => SuspectCaseLink.case_id scl =? 1)
                         (suspect_case_links sample_store))
                 (map fst (get_suspect_links_for_case_run sample_store 1)).
Proof.
  split; [reflexivity|].
  apply (@get_suspect_links_for_case_each_link_once sample_store 1
           (get_suspect_links_for_case_run sample_store 1)
           (proj1 (reachable_keys_ok sample_store_reachable))
           (reachable_fk_ok sample_store_reachable)).
  apply order_by_ordered; [apply desc_total | apply desc_trans].
Defined.
